(** * A B-tree of C [int]s: overflow-then-split insertion, lookup and
      an explicit-stack in-order iterator.

    The development embeds the generated, [int]-specialised translation unit
    (branching factor 2, iterator stack of 32 frames).  Node memory is an
    explicit store: a pointer is an optional address, [calloc] appends a
    zeroed node to the store, and every function that mutates nodes threads
    the store.  Faults of the C program (dereferencing an invalid pointer,
    indexing outside an in-struct array, a failed [assert]) are results of
    their own. *)

From Stdlib Require Import ZArith Lia List Sorted DecimalString.
From stdpp Require Import base list sorting strings.

Set Warnings "-register-all".
Local Open Scope nat_scope.

(* ================================================================== *)
(** ** Results of running C code *)
(* ================================================================== *)

Inductive fault : Type :=
| NullDeref      (* load or store through NULL or an address never allocated *)
| OutOfBounds    (* index outside an array that lives inside a struct *)
| AssertFail     (* [assert] failed *)
| OutOfFuel.     (* the model's loop bound was reached: not a C behaviour *)

Inductive res (A : Type) : Type :=
| Ok (a : A)
| Err (f : fault).
Arguments Ok {A} a.
Arguments Err {A} f.

#[global] Instance res_ret : MRet res := fun A a => Ok a.
#[global] Instance res_bind : MBind res := fun A B f m =>
  match m with
  | Ok a => f a
  | Err e => Err e
  end.

(* ================================================================== *)
(** ** Data: [struct bnode], [struct bt], the store *)
(* ================================================================== *)

(** A pointer to a node: [None] is NULL. *)
Abbreviation ptr := (option nat) (only parsing).

(** [struct bnode { uint32_t n; int elems[2*2+1]; struct bnode* children[2*2+2]; }] *)
Record bnode : Type := mk_bnode {
  bnode_n : nat;
  bnode_elems : list Z;
  bnode_children : list ptr
}.

(** [struct bt { struct bnode* root; size_t size; }] *)
Record bt : Type := mk_bt {
  bt_root : ptr;
  bt_size : nat
}.

(** The store: the node at address [a] is the [a]-th entry. *)
Abbreviation heap := (list bnode) (only parsing).

(** A pointer to one [int] inside a node: the node's address and the index
    in its [elems] array ([node->elems + idx]). *)
Abbreviation eptr := (nat * nat)%type (only parsing).

(** What [calloc(1, sizeof(struct bnode))] returns: all bytes zero.  The
    allocation itself always succeeds in this model and yields an address
    that was never handed out before. *)
Definition bnode_zero : bnode :=
  mk_bnode 0 (replicate 5 0%Z) (replicate 6 None).

Definition calloc_bnode (h : heap) : heap * nat := (h ++ [bnode_zero], length h).

Definition load (h : heap) (p : ptr) : res bnode :=
  match p with
  | None => Err NullDeref
  | Some a => match h !! a with
              | Some nd => Ok nd
              | None => Err NullDeref
              end
  end.

Definition store (h : heap) (a : nat) (nd : bnode) : heap := <[a := nd]> h.

(** A read-modify-write of one node through a pointer. *)
Definition update (h : heap) (p : ptr) (f : bnode -> res bnode) : res heap :=
  match p with
  | None => Err NullDeref
  | Some a => nd ← load h p; nd' ← f nd; Ok (store h a nd')
  end.

Definition set_n (v : nat) (nd : bnode) : res bnode :=
  Ok (mk_bnode v (bnode_elems nd) (bnode_children nd)).
Definition set_elems (es : list Z) (nd : bnode) : bnode :=
  mk_bnode (bnode_n nd) es (bnode_children nd).
Definition set_children (cs : list ptr) (nd : bnode) : bnode :=
  mk_bnode (bnode_n nd) (bnode_elems nd) cs.

(** [arr[i]] read and written, for an array of fixed capacity. *)
Definition aget {A} (l : list A) (i : nat) : res A :=
  match l !! i with
  | Some x => Ok x
  | None => Err OutOfBounds
  end.

Definition aset {A} (l : list A) (i : nat) (x : A) : res (list A) :=
  if i <? length l then Ok (<[i := x]> l) else Err OutOfBounds.

(** [memmove(arr + src + 1, arr + src, (a - b) * sizeof *arr)]: the count
    [a - b] is computed in [size_t], so when [a < b] it wraps to a huge value
    and the move leaves the array. *)
Definition shift_right {A} (l : list A) (src a b : nat) : res (list A) :=
  if (b <=? a) && (src + (a - b) + 1 <=? length l)
  then Ok (take (src + 1) l ++ take (a - b) (drop src l) ++ drop (src + (a - b) + 1) l)
  else Err OutOfBounds.

(** [memcpy(dst, src + from, cnt * sizeof *src)] into the front of [dst]. *)
Definition copy_front {A} (dst src : list A) (from cnt : nat) : res (list A) :=
  if (from + cnt <=? length src) && (cnt <=? length dst)
  then Ok (take cnt (drop from src) ++ drop cnt dst)
  else Err OutOfBounds.

Definition deref (h : heap) (p : eptr) : res Z :=
  nd ← load h (Some p.1); aget (bnode_elems nd) p.2.

(* ================================================================== *)
(** ** [bt_default_cmp], [bt_mk], [bt_node_bsearch] *)
(* ================================================================== *)

Definition bt_default_cmp (a b : Z) : Z :=
  if (a >? b)%Z then 1%Z else if (a <? b)%Z then (-1)%Z else 0%Z.

(** [(struct bt) { .root = NULL }]: the other member is zero. *)
Definition bt_mk : bt := mk_bt None 0.

(** The [do ... while (cmp && left < right)] loop, followed by the two
    returns.  The first component lists the indices [mid] at which [elems]
    was read, in order.  [left <= right] holds throughout, so the [size_t]
    subtraction [right - left] never wraps. *)
Fixpoint bsearch_loop (fuel : nat) (es : list Z) (elem : Z) (left right : nat)
  : list nat * res Z :=
  match fuel with
  | 0 => ([], Err OutOfFuel)
  | S fuel' =>
      let mid := left + (right - left) / 2 in
      match es !! mid with
      | None => ([mid], Err OutOfBounds)
      | Some e =>
          let cmp := bt_default_cmp elem e in
          let left' := if (cmp >? 0)%Z then mid + 1 else left in
          let right' := if (cmp >? 0)%Z then right
                        else if (cmp <? 0)%Z then mid else right in
          if negb (cmp =? 0)%Z && (left' <? right') then
            let '(tr, r) := bsearch_loop fuel' es elem left' right' in
            (mid :: tr, r)
          else
            ([mid],
             if (cmp =? 0)%Z then Ok (Z.of_nat mid)
             else if left' =? right' then Ok (- Z.of_nat left' - 1)%Z
                  else Err AssertFail)
      end
  end.

Definition bt_node_bsearch_reads (node : bnode) (elem : Z) : list nat * res Z :=
  bsearch_loop (S (bnode_n node)) (bnode_elems node) elem 0 (bnode_n node).

Definition bt_node_bsearch (node : bnode) (elem : Z) : res Z :=
  (bt_node_bsearch_reads node elem).2.

(* ================================================================== *)
(** ** [bt_lookup_node], [bt_lookup] *)
(* ================================================================== *)

(** [while (curr) { ... }].  [node] is the out-parameter: [None] when the
    caller passed NULL, otherwise the current content of [*node]. *)
Fixpoint lookup_loop (fuel : nat) (h : heap) (curr : ptr) (elem : Z)
    (node : option ptr) : res (option eptr * option ptr) :=
  match curr with
  | None => Ok (None, node)
  | Some a =>
      match fuel with
      | 0 => Err OutOfFuel
      | S fuel' =>
          let node' := match node with Some _ => Some curr | None => None end in
          nd ← load h curr;
          idx ← bt_node_bsearch nd elem;
          if (0 <=? idx)%Z then Ok (Some (a, Z.to_nat idx), node')
          else
            next ← aget (bnode_children nd) (Z.to_nat (- idx - 1));
            lookup_loop fuel' h next elem node'
      end
  end.

Definition bt_lookup_node (fuel : nat) (h : heap) (t : bt) (elem : Z)
    (node : option ptr) : res (option eptr * option ptr) :=
  lookup_loop fuel h (bt_root t) elem node.

Definition bt_lookup (fuel : nat) (h : heap) (t : bt) (elem : Z) : res (option eptr) :=
  r ← bt_lookup_node fuel h t elem None; Ok r.1.

(* ================================================================== *)
(** ** [bt_split_node] *)
(* ================================================================== *)

Definition bt_split_node (h : heap) (parent : nat) (idx : nat) : res (heap * Z) :=
  pn ← load h (Some parent);
  child ← aget (bnode_children pn) idx;
  (* rchild = parent->children + idx + 1; memmove(rchild + 1, rchild, (parent->n - idx) * 8) *)
  h ← update h (Some parent) (fun nd =>
         cs ← shift_right (bnode_children nd) (idx + 1) (bnode_n nd) idx;
         Ok (set_children cs nd));
  (* rchild[0] = calloc(1, sizeof(struct bnode)) *)
  let '(h, sib) := calloc_bnode h in
  h ← update h (Some parent) (fun nd =>
         cs ← aset (bnode_children nd) (idx + 1) (Some sib);
         Ok (set_children cs nd));
  (* memcpy(( *rchild)->elems, child->elems + 2 + 1, 2 * sizeof(int)) *)
  cn ← load h child;
  h ← update h (Some sib) (fun nd =>
         es ← copy_front (bnode_elems nd) (bnode_elems cn) 3 2;
         Ok (set_elems es nd));
  (* if (child->children[0]) memcpy(( *rchild)->children, child->children + 2 + 1, 3 * 8) *)
  cn ← load h child;
  c0 ← aget (bnode_children cn) 0;
  h ← match c0 with
       | Some _ =>
           update h (Some sib) (fun nd =>
             cs ← copy_front (bnode_children nd) (bnode_children cn) 3 3;
             Ok (set_children cs nd))
       | None => Ok h
       end;
  (* ( *rchild)->n = 2; child->n = 2; *)
  h ← update h (Some sib) (set_n 2);
  h ← update h child (set_n 2);
  (* return child->elems[2] *)
  cn ← load h child;
  e ← aget (bnode_elems cn) 2;
  Ok (h, e).

(* ================================================================== *)
(** ** [bt_node_insert], [bt_insert] *)
(* ================================================================== *)

(** [prev] is the out-parameter: [None] when the caller passed NULL,
    otherwise the current content of [*prev], a cell of the caller apart
    from the nodes.  The result carries the store, the returned flag and the
    content of [*prev] afterwards.  [node->n++] cannot wrap: the [memmove]
    before it stays inside [elems] only when [n + 1 <= 5]. *)
Fixpoint bt_node_insert (fuel : nat) (h : heap) (node : nat) (elem : Z)
    (prev : option Z) : res (heap * bool * option Z) :=
  match fuel with
  | 0 => Err OutOfFuel
  | S fuel' =>
      nd ← load h (Some node);
      idx ← bt_node_bsearch nd elem;
      if (0 <=? idx)%Z then
        let idx := Z.to_nat idx in
        old ← aget (bnode_elems nd) idx;
        let prev' := match prev with Some _ => Some old | None => None end in
        h ← update h (Some node) (fun nd =>
               es ← aset (bnode_elems nd) idx elem; Ok (set_elems es nd));
        Ok (h, true, prev')
      else
        let idx := Z.to_nat (- idx - 1) in
        child ← aget (bnode_children nd) idx;
        r ← match child with
             | Some c =>
                 '(h1, replaced, prev1) ← bt_node_insert fuel' h c elem prev;
                 cn ← load h1 child;
                 if bnode_n cn <=? 2 * 2 then Ok (inl (h1, replaced, prev1))
                 else
                   '(h2, e) ← bt_split_node h1 node idx;
                   Ok (inr (h2, e, prev1))
             | None => Ok (inr (h, elem, prev))
             end;
        match r with
        | inl out => Ok out
        | inr (h, elem, prev) =>
            (* p = node->elems + idx; memmove(p + 1, p, (node->n - idx) * 4);
               *p = elem; node->n++; *)
            h ← update h (Some node) (fun nd =>
                   es ← shift_right (bnode_elems nd) idx (bnode_n nd) idx;
                   es ← aset es idx elem;
                   Ok (mk_bnode (bnode_n nd + 1) es (bnode_children nd)));
            Ok (h, false, prev)
        end
  end.

Definition bt_insert (fuel : nat) (h : heap) (t : bt) (elem : Z) (prev : option Z)
  : res (heap * bt * bool * option Z) :=
  '(h, replaced, prev) ←
     match bt_root t with
     | Some r => bt_node_insert fuel h r elem prev
     | None => Ok (h, false, prev)
     end;
  grow ← match bt_root t with
          | None => Ok true
          | Some _ => rn ← load h (bt_root t); Ok (2 * 2 <? bnode_n rn)
          end;
  if grow : bool then
    let '(h, new_root) := calloc_bnode h in
    h ← update h (Some new_root) (set_n 1);
    h ← update h (Some new_root) (fun nd =>
           cs ← aset (bnode_children nd) 0 (bt_root t); Ok (set_children cs nd));
    '(h, e) ← match bt_root t with
               | Some _ => bt_split_node h new_root 0
               | None => Ok (h, elem)
               end;
    h ← update h (Some new_root) (fun nd =>
           es ← aset (bnode_elems nd) 0 e; Ok (set_elems es nd));
    Ok (h, mk_bt (Some new_root) (bt_size t), replaced, prev)
  else Ok (h, t, replaced, prev).

(* ================================================================== *)
(** ** The in-order iterator *)
(* ================================================================== *)

(** [struct bt_iter_frame { size_t i; struct bnode* node; }] *)
Record bt_iter_frame : Type := mk_frame {
  frame_i : nat;
  frame_node : ptr
}.

(** [struct bt_iter_dfs { size_t top; struct bt_iter_frame stack[32]; }] *)
Record bt_iter_dfs : Type := mk_iter {
  iter_top : nat;
  iter_stack : list bt_iter_frame
}.

Definition bt_iter_dfs_mk (btree : bt) : bt_iter_dfs :=
  mk_iter 1 (mk_frame 0 (bt_root btree) :: replicate 31 (mk_frame 0 None)).

(** The [while (true)] loop of [bt_iter_dfs_next].  [fp] is the index of the
    frame [fp] points to. *)
Fixpoint iter_loop (fuel : nat) (h : heap) (iter : bt_iter_dfs) (fp : nat)
    (visited_child : bool) : res (bt_iter_dfs * option eptr) :=
  match fuel with
  | 0 => Err OutOfFuel
  | S fuel' =>
      fr ← aget (iter_stack iter) fp;
      match frame_node fr with
      | None => Ok (iter, None)
      | Some a =>
          nd ← load h (frame_node fr);
          if bnode_n nd <? frame_i fr then
            if iter_top iter =? 1 then Ok (iter, None)
            else
              match fp with
              | 0 => Err OutOfBounds
              | S fp' => iter_loop fuel' h (mk_iter (iter_top iter - 1) (iter_stack iter)) fp' true
              end
          else
            c ← aget (bnode_children nd) (frame_i fr);
            match c, visited_child with
            | Some _, false =>
                st ← aset (iter_stack iter) (fp + 1) (mk_frame 0 c);
                iter_loop fuel' h (mk_iter (iter_top iter + 1) st) (fp + 1) false
            | _, _ =>
                st ← aset (iter_stack iter) fp (mk_frame (frame_i fr + 1) (frame_node fr));
                if frame_i fr <? bnode_n nd
                then Ok (mk_iter (iter_top iter) st, Some (a, frame_i fr))
                else iter_loop fuel' h (mk_iter (iter_top iter) st) fp visited_child
            end
      end
  end.

(** [fp = iter->stack + iter->top - 1]: with [top = 0] the pointer lies
    before the array. *)
Definition bt_iter_dfs_next (fuel : nat) (h : heap) (iter : bt_iter_dfs)
  : res (bt_iter_dfs * option eptr) :=
  match iter_top iter with
  | 0 => Err OutOfBounds
  | S fp => iter_loop fuel h iter fp false
  end.

(** Driving the iterator as a caller does: call [bt_iter_dfs_next] until it
    returns NULL for the first time, reading each element it points to. *)
Fixpoint bt_iter_collect (calls fuel : nat) (h : heap) (iter : bt_iter_dfs)
  : res (list Z) :=
  match calls with
  | 0 => Err OutOfFuel
  | S calls' =>
      '(iter', r) ← bt_iter_dfs_next fuel h iter;
      match r with
      | None => Ok []
      | Some p =>
          v ← deref h p;
          vs ← bt_iter_collect calls' fuel h iter';
          Ok (v :: vs)
      end
  end.

(** A program that makes a tree with [bt_mk] on an empty store and then
    calls [bt_insert] once for each entry of [calls], in order: the element
    to insert and the caller's [prev] ([None] for NULL, otherwise what
    [*prev] holds before the call). *)
Fixpoint bt_insert_all (fuel : nat) (h : heap) (t : bt) (calls : list (Z * option Z))
  : res (heap * bt) :=
  match calls with
  | [] => Ok (h, t)
  | (x, prev) :: calls' =>
      '(h', t', _, _) ← bt_insert fuel h t x prev;
      bt_insert_all fuel h' t' calls'
  end.

Definition bt_build (fuel : nat) (calls : list (Z * option Z)) : res (heap * bt) :=
  bt_insert_all fuel [] bt_mk calls.

(* ================================================================== *)
(** ** Logical trees and the B-tree invariants *)
(* ================================================================== *)

(** The abstract result of searching the keys [ks] of a node: what
    [bt_node_bsearch] computes on a node whose first [length ks] elements
    are [ks]. *)
Definition key_search (ks : list Z) (x : Z) : res Z :=
  (bsearch_loop (S (length ks)) ks x 0 (length ks)).2.

(** Number of keys that compare less than [x]. *)
Definition count_lt (x : Z) (ks : list Z) : nat :=
  length (filter (fun k => (k < x)%Z) ks).

(** A tree of nodes as the store lays it out: the address of the node, its
    [n] live keys and, when it is not a leaf, its [n + 1] live children. *)
Inductive atree : Type :=
| ANode (a : nat) (ks : list Z) (cs : list atree).

Definition addr (t : atree) : nat := match t with ANode a _ _ => a end.
Definition akeys (t : atree) : list Z := match t with ANode _ ks _ => ks end.
Definition akids (t : atree) : list atree := match t with ANode _ _ cs => cs end.

(** [interleave [l0; ...; ln] [k0; ...; k(n-1)] = l0 ++ k0 :: ... ++ ln];
    without children the keys alone. *)
Fixpoint interleave (ls : list (list Z)) (ks : list Z) : list Z :=
  match ls, ks with
  | l :: ls', k :: ks' => l ++ k :: interleave ls' ks'
  | l :: _, [] => l
  | [], _ => ks
  end.

(** The part of [interleave] before a child, [l0 ++ k0 :: l1 ++ k1 :: ...],
    and the part after it, [k0 :: l0 ++ k1 :: l1 ++ ...]. *)
Fixpoint zip_pre (ls : list (list Z)) (ks : list Z) : list Z :=
  match ls, ks with
  | l :: ls', k :: ks' => l ++ k :: zip_pre ls' ks'
  | _, _ => []
  end.

Fixpoint zip_post (ks : list Z) (ls : list (list Z)) : list Z :=
  match ks, ls with
  | k :: ks', l :: ls' => k :: l ++ zip_post ks' ls'
  | _, _ => []
  end.

(** Keys in order: left subtree, key, right-of-key subtree. *)
Fixpoint inorder (t : atree) : list Z :=
  match t with
  | ANode _ ks cs => interleave (inorder <$> cs) ks
  end.

(** The addresses of all nodes of the tree. *)
Fixpoint footprint (t : atree) : list nat :=
  match t with
  | ANode a _ cs => a :: concat (footprint <$> cs)
  end.

Fixpoint height (t : atree) : nat :=
  match t with
  | ANode _ _ cs => S (foldr Nat.max 0 (height <$> cs))
  end.

(** The node [nd] of the store holds the keys [ks] and points to the
    children [cs]; a leaf has every child slot NULL. *)
Definition node_matches (nd : bnode) (ks : list Z) (cs : list atree) : Prop :=
  bnode_n nd = length ks /\
  length (bnode_elems nd) = 5 /\
  length (bnode_children nd) = 6 /\
  take (length ks) (bnode_elems nd) = ks /\
  (cs = [] -> bnode_children nd = replicate 6 None) /\
  (cs <> [] ->
   take (S (length ks)) (bnode_children nd) = (fun c => Some (addr c)) <$> cs).

(** The store [h] holds the tree [t]. *)
Inductive rep (h : heap) : atree -> Prop :=
| rep_node a ks cs nd :
    h !! a = Some nd ->
    node_matches nd ks cs ->
    Forall (rep h) cs ->
    rep h (ANode a ks cs).

(** Shape: all leaves at depth [d], the root with between [lo] and [hi]
    keys, every other node with between [2] and [2 * 2] keys, an internal
    node with one child more than keys. *)
Inductive wf (lo hi : nat) : nat -> atree -> Prop :=
| wf_leaf a ks :
    lo <= length ks <= hi ->
    wf lo hi 1 (ANode a ks [])
| wf_internal a ks cs d :
    lo <= length ks <= hi ->
    length cs = S (length ks) ->
    Forall (wf 2 4 d) cs ->
    wf lo hi (S d) (ANode a ks cs).

(** The invariants in the words of the specification. *)

(** Keys of every node strictly increasing; the keys below [children[i]]
    less than [elems[i]] and those below [children[i+1]] greater. *)
Inductive ordered : atree -> Prop :=
| ordered_node a ks cs :
    StronglySorted Z.lt ks ->
    (forall i k c y, ks !! i = Some k -> cs !! i = Some c -> y ∈ inorder c -> (y < k)%Z) ->
    (forall i k c y, ks !! i = Some k -> cs !! (S i) = Some c -> y ∈ inorder c -> (k < y)%Z) ->
    Forall ordered cs ->
    ordered (ANode a ks cs).

(** Every leaf is [d] nodes below (and including) the root of [t]. *)
Inductive leaves_at : nat -> atree -> Prop :=
| leaves_leaf a ks : leaves_at 1 (ANode a ks [])
| leaves_internal a ks c cs d :
    Forall (leaves_at d) (c :: cs) -> leaves_at (S d) (ANode a ks (c :: cs)).

(** Every node that is not the root has between [2] and [2 * 2] keys. *)
Inductive fill : bool -> atree -> Prop :=
| fill_node (is_root : bool) a ks cs :
    (if is_root then length ks <= 2 * 2 else 2 <= length ks <= 2 * 2) ->
    Forall (fill false) cs ->
    fill is_root (ANode a ks cs).

(** A node's filled child slots: [n + 1] when not a leaf. *)
Inductive slots : atree -> Prop :=
| slots_node a ks cs :
    (cs = [] \/ length cs = S (length ks)) ->
    Forall slots cs ->
    slots (ANode a ks cs).

(** The parent's [children] array after [bt_split_node]: the references
    after [idx] moved one slot to the right, the sibling's address [sib] at
    [idx + 1]. *)
Definition split_children (ch : list ptr) (idx n sib : nat) : list ptr :=
  <[idx + 1 := Some sib]>
    (take (idx + 1 + 1) ch ++ take (n - idx) (drop (idx + 1) ch)
       ++ drop (idx + 1 + (n - idx) + 1) ch).

(** The sibling made by [bt_split_node] from the child [cn]. *)
Definition split_sibling (cn : bnode) : bnode :=
  mk_bnode 2
    (take 2 (drop 3 (bnode_elems cn)) ++ replicate 3 0%Z)
    (match bnode_children cn !! 0 with
     | Some (Some _) => take 3 (drop 3 (bnode_children cn)) ++ replicate 3 None
     | _ => replicate 6 None
     end).

(* ================================================================== *)
(** ** Insertion on logical trees *)
(* ================================================================== *)

(** Splitting a node of five keys; the sibling is allocated at [nxt]. *)
Definition asplit (nxt : nat) (c : atree) : atree * Z * atree :=
  match c with
  | ANode a ks cs =>
      (ANode a (take 2 ks) (take 3 cs), nth 2 ks 0%Z, ANode nxt (drop 3 ks) (drop 3 cs))
  end.

(** What [bt_node_insert] does to the tree below [node]; [nxt] is the next
    address [calloc] hands out.  Returns the tree, the next free address
    and the flag. *)
Fixpoint ains (x : Z) (t : atree) (nxt : nat) : atree * nat * bool :=
  match t with
  | ANode a ks cs =>
      match key_search ks x with
      | Err _ => (t, nxt, false)
      | Ok idx =>
          if (0 <=? idx)%Z then (ANode a (<[Z.to_nat idx := x]> ks) cs, nxt, true)
          else
            let p := Z.to_nat (- idx - 1) in
            match (ains x <$> cs) !! p with
            | None => (ANode a (take p ks ++ x :: drop p ks) cs, nxt, false)
            | Some f =>
                let '(c', nxt', replaced) := f nxt in
                if length (akeys c') <=? 4
                then (ANode a ks (<[p := c']> cs), nxt', replaced)
                else
                  let '(l, m, r) := asplit nxt' c' in
                  (ANode a (take p ks ++ m :: drop p ks)
                           (take p cs ++ l :: r :: drop (S p) cs), S nxt', false)
            end
      end
  end.

(** What [bt_insert] does to the tree below [bt->root]. *)
Definition atree_insert (x : Z) (ot : option atree) (nxt : nat)
  : atree * nat * bool :=
  match ot with
  | None => (ANode nxt [x] [], S nxt, false)
  | Some t =>
      let '(t', nxt', replaced) := ains x t nxt in
      if 4 <? length (akeys t')
      then
        let '(l, m, r) := asplit (S nxt') t' in
        (ANode nxt' [m] [l; r], S (S nxt'), replaced)
      else (t', nxt', replaced)
  end.

(** [l'] is [l] with [x] put at the place that keeps it increasing. *)
Definition ins_rel (x : Z) (l l' : list Z) : Prop :=
  exists l1 l2, l = l1 ++ l2 /\ l' = l1 ++ x :: l2 /\
    Forall (fun k => (k < x)%Z) l1 /\ Forall (fun k => (x < k)%Z) l2.

(** The content of [*prev] after an insertion of [x] that returned [r]. *)
Definition prev_after (r : bool) (x : Z) (prev : option Z) : option Z :=
  if r then match prev with Some _ => Some x | None => None end else prev.

(** The store [h] and the handle [t] hold the logical tree [ot]
    ([None]: the empty tree). *)
Definition tree_ok (h : heap) (t : bt) (ot : option atree) : Prop :=
  match ot with
  | None => bt_root t = None
  | Some tr =>
      bt_root t = Some (addr tr) /\ rep h tr /\ NoDup (footprint tr) /\
      exists d, wf 1 4 d tr
  end.

(** The invariants on the keys, for a possibly empty logical tree. *)
Definition keys_ordered (ot : option atree) : Prop :=
  match ot with
  | None => True
  | Some tr => ordered tr
  end.

(** The keys of a possibly empty logical tree, in order. *)
Definition keys_of (ot : option atree) : list Z :=
  match ot with
  | None => []
  | Some tr => inorder tr
  end.

(** The store and handle hold a B-tree whose keys are those of [xs]. *)
Definition built (xs : list Z) (h : heap) (t : bt) (ot : option atree) : Prop :=
  tree_ok h t ot /\
  StronglySorted Z.lt (keys_of ot) /\
  (forall y, y ∈ keys_of ot <-> y ∈ xs) /\
  length (keys_of ot) <= length xs.

(** [p] points to a live element slot of a node of the tree [t]. *)
Definition stored_at (h : heap) (t : atree) (p : eptr) : Prop :=
  p.1 ∈ footprint t /\
  exists nd, h !! p.1 = Some nd /\ p.2 < bnode_n nd.

(* ================================================================== *)
(** ** The iterator's stack, logically *)
(* ================================================================== *)

(** What is left of the subtree [t] when the cursor stands before child
    [i], and when child [i] has just been visited. *)
Definition seq_from (t : atree) (i : nat) : list Z :=
  interleave (drop i (inorder <$> akids t)) (drop i (akeys t)).

Definition seq_after (t : atree) (i : nat) : list Z :=
  match akeys t !! i with
  | Some k => k :: seq_from t (S i)
  | None => []
  end.

(** The frames of the stack, the top one first, as subtree and cursor. *)
Definition frame_of (f : atree * nat) : bt_iter_frame :=
  mk_frame f.2 (Some (addr f.1)).

Definition stack_holds (iter : bt_iter_dfs) (fs : list (atree * nat)) : Prop :=
  iter_top iter = length fs /\
  length (iter_stack iter) = 32 /\
  forall j f, fs !! j = Some f ->
    iter_stack iter !! (length fs - 1 - j) = Some (frame_of f).

(** Every frame but the lowest sits on the child its parent's cursor
    points to; the lowest holds a tree of height [D]. *)
Inductive frames_ok (h : heap) (D : nat) : nat -> list (atree * nat) -> Prop :=
| frames_root s i lo :
    1 <= lo -> wf lo 4 D s -> rep h s ->
    frames_ok h D D [(s, i)]
| frames_push s' i' s i d below :
    frames_ok h D (S d) ((s, i) :: below) ->
    akids s !! i = Some s' -> wf 2 4 d s' -> rep h s' ->
    frames_ok h D d ((s', i') :: (s, i) :: below).

(** The elements still to come: below a frame whose child was visited, and
    for a stack whose top frame has not descended yet. *)
Fixpoint rem_below (fs : list (atree * nat)) : list Z :=
  match fs with
  | [] => []
  | (s, i) :: below => seq_after s i ++ rem_below below
  end.

Definition rem_unvisited (fs : list (atree * nat)) : list Z :=
  match fs with
  | [] => []
  | (s, i) :: below => seq_from s i ++ rem_below below
  end.

(** A bound on the iterations the loop of [bt_iter_dfs_next] still makes. *)
Definition iter_measure (visited : bool) (d : nat) (fs : list (atree * nat)) : nat :=
  match fs with
  | [] => 0
  | (s, i) :: _ =>
      2 * length fs + (if visited then 0 else 3 * d)
      + (if i <=? length (akeys s) then 1 else 0)
  end.

(** The iterator is exhausted: its top frame holds no node, or it is the
    only frame and its cursor is past the last child. *)
Definition exhausted (h : heap) (iter : bt_iter_dfs) : Prop :=
  exists fp fr,
    iter_top iter = S fp /\ iter_stack iter !! fp = Some fr /\
    (frame_node fr = None \/
     exists a nd, frame_node fr = Some a /\ h !! a = Some nd /\
                  bnode_n nd < frame_i fr /\ iter_top iter = 1).

(** [k] further calls of [bt_iter_dfs_next], with what each returned. *)
Fixpoint bt_iter_nexts (k fuel : nat) (h : heap) (iter : bt_iter_dfs)
  : res (bt_iter_dfs * list (option eptr)) :=
  match k with
  | 0 => Ok (iter, [])
  | S k' =>
      '(iter', r) ← bt_iter_dfs_next fuel h iter;
      '(iter'', rs) ← bt_iter_nexts k' fuel h iter';
      Ok (iter'', r :: rs)
  end.

(** A C [int]. *)
Definition int_range (x : Z) : Prop := (- 2 ^ 31 <= x < 2 ^ 31)%Z.

(* ================================================================== *)
(** ** Proof automation for lookups in an updated store *)
(* ================================================================== *)

Ltac heap_len :=
  repeat (rewrite length_insert || rewrite length_app); simpl; lia.

Ltac heap_lookup :=
  repeat first
    [ rewrite list_lookup_insert_eq by heap_len
    | rewrite list_lookup_insert_ne by (try lia; congruence)
    | rewrite lookup_app_l by heap_len
    | rewrite list_lookup_middle by heap_len ].

(* ================================================================== *)
(** ** Results of code that frees or prints *)
(* ================================================================== *)

(** [bt_node_free] and [bt_print] can go wrong in ways the functions above
    cannot: a load through a pointer to a node that was freed, [free] of a
    node that was freed, and an [int] that leaves its range. *)
Inductive mfault : Type :=
| Plain (f : fault)
| UseAfterFree
| DoubleFree
| SignedOverflow.

Inductive mres (A : Type) : Type :=
| MOk (a : A)
| MErr (f : mfault).
Arguments MOk {A} a.
Arguments MErr {A} f.

#[global] Instance mres_ret : MRet mres := fun A a => MOk a.
#[global] Instance mres_bind : MBind mres := fun A B f m =>
  match m with
  | MOk a => f a
  | MErr e => MErr e
  end.

Definition lift {A} (r : res A) : mres A :=
  match r with
  | Ok a => MOk a
  | Err f => MErr (Plain f)
  end.

(* ================================================================== *)
(** ** [bt_node_free], [bt_free] *)
(* ================================================================== *)

(** The allocator's state is the list of the addresses handed to [free] so
    far, the oldest first.  The store keeps an entry for a freed node, and
    no load may go through a pointer to it. *)
Definition load_live (h : heap) (freed : list nat) (p : ptr) : mres bnode :=
  match p with
  | None => MErr (Plain NullDeref)
  | Some a =>
      if bool_decide (a ∈ freed) then MErr UseAfterFree else lift (load h p)
  end.

(** [free(node)] for a pointer that is not NULL. *)
Definition free (h : heap) (freed : list nat) (a : nat) : mres (list nat) :=
  if bool_decide (a ∈ freed) then MErr DoubleFree
  else if a <? length h then MOk (freed ++ [a])
       else MErr (Plain NullDeref).

(** [for (size_t i = 0; i < node->n; i++) bt_node_free(node->children[i]);]
    from [i] on; [rec] is the recursive call.  [node->n] is read again for
    every test of the condition.  The array has 6 entries, so the seventh
    run of the body, if there is one, reads outside it: [k] counts the runs
    left, and 7 are enough. *)
Fixpoint free_loop (rec : list nat -> ptr -> mres (list nat)) (k : nat)
    (h : heap) (node : nat) (i : nat) (freed : list nat) : mres (list nat) :=
  nd ← load_live h freed (Some node);
  if i <? bnode_n nd then
    match k with
    | 0 => MErr (Plain OutOfFuel)
    | S k' =>
        c ← lift (aget (bnode_children nd) i);
        freed ← rec freed c;
        free_loop rec k' h node (i + 1) freed
    end
  else MOk freed.

(** Returns the allocator's state afterwards. *)
Fixpoint bt_node_free (fuel : nat) (h : heap) (freed : list nat) (node : ptr)
  : mres (list nat) :=
  match node with
  | None => MOk freed
  | Some a =>
      match fuel with
      | 0 => MErr (Plain OutOfFuel)
      | S fuel' =>
          freed ← free_loop (bt_node_free fuel' h) 7 h a 0 freed;
          (* bt_node_free(node->children[node->n]) *)
          nd ← load_live h freed node;
          c ← lift (aget (bnode_children nd) (bnode_n nd));
          freed ← bt_node_free fuel' h freed c;
          free h freed a
      end
  end.

Definition bt_free (fuel : nat) (h : heap) (freed : list nat) (t : bt)
  : mres (list nat) :=
  bt_node_free fuel h freed (bt_root t).

(* ================================================================== *)
(** ** [bt_print] *)
(* ================================================================== *)

(** The newline character. *)
Definition nl : string := String (Ascii.ascii_of_nat 10) EmptyString.

(** What [printf] writes for ["%d"]. *)
Definition fmt_d (x : Z) : string := NilZero.string_of_int (Z.to_int x).

Fixpoint repeat_str (n : nat) (s : string) : string :=
  match n with
  | 0 => ""
  | S n' => s +:+ repeat_str n' s
  end.

(** [for (int __i = 0; __i < depth; __i++) printf("  ")] *)
Definition indent (depth : Z) : string := repeat_str (Z.to_nat depth) "  ".

(** [for (int i = 0; i < node->n; i++) printf(" %d", node->elems[i]);] from
    [i] on.  [elems] has 5 entries, so the sixth run of the body, if there
    is one, reads outside it: 6 runs are enough. *)
Fixpoint print_elems (k : nat) (nd : bnode) (i : nat) : mres string :=
  if i <? bnode_n nd then
    match k with
    | 0 => MErr (Plain OutOfFuel)
    | S k' =>
        e ← lift (aget (bnode_elems nd) i);
        rest ← print_elems k' nd (i + 1);
        MOk (" " +:+ fmt_d e +:+ rest)
    end
  else MOk "".

(** [for (int i = 0; i <= node->n; i++) bt_print(node->children[i], depth + 1);]
    from [i] on; [rec] is the recursive call, already given [depth + 1]. *)
Fixpoint print_children (rec : ptr -> mres string) (k : nat) (nd : bnode) (i : nat)
  : mres string :=
  if i <=? bnode_n nd then
    match k with
    | 0 => MErr (Plain OutOfFuel)
    | S k' =>
        c ← lift (aget (bnode_children nd) i);
        s ← rec c;
        rest ← print_children rec k' nd (i + 1);
        MOk (s +:+ rest)
    end
  else MOk "".

(** Returns what the call writes to the standard output.  Printing does
    not change the store. *)
Fixpoint bt_print (fuel : nat) (h : heap) (node : ptr) (depth : Z) : mres string :=
  match node with
  | None => MOk (indent depth +:+ "<empty>" +:+ nl)
  | Some _ =>
      match fuel with
      | 0 => MErr (Plain OutOfFuel)
      | S fuel' =>
          nd ← lift (load h node);
          es ← print_elems 6 nd 0;
          let line := indent depth +:+ "elems:" +:+ es +:+ nl in
          c0 ← lift (aget (bnode_children nd) 0);
          match c0 with
          | None => MOk line
          | Some _ =>
              if (depth + 1 <? 2 ^ 31)%Z then
                rest ← print_children (fun c => bt_print fuel' h c (depth + 1)) 7 nd 0;
                MOk (line +:+ rest)
              else MErr SignedOverflow
          end
      end
  end.

(* ================================================================== *)
(** ** Logical counterparts *)
(* ================================================================== *)

(** The nodes of a tree, every node after the nodes below it, the children
    from left to right. *)
Fixpoint postorder (t : atree) : list nat :=
  match t with
  | ANode a _ cs => concat (postorder <$> cs) ++ [a]
  end.

(** The nodes of a possibly empty logical tree. *)
Definition nodes_of (ot : option atree) : list nat :=
  match ot with
  | None => []
  | Some tr => footprint tr
  end.

Definition height_of (ot : option atree) : nat :=
  match ot with
  | None => 0
  | Some tr => height tr
  end.

(** One line for a node: the indentation, ["elems:"], every key after a
    space, a newline. *)
Definition show_line (depth : Z) (ks : list Z) : string :=
  indent depth +:+ "elems:" +:+ foldr (fun k s => " " +:+ fmt_d k +:+ s) "" ks +:+ nl.

(** The lines of a tree: a node, then its children from left to right,
    one level deeper. *)
Fixpoint show (depth : Z) (t : atree) : string :=
  match t with
  | ANode _ ks cs =>
      show_line depth ks +:+ foldr (fun c s => show (depth + 1) c +:+ s) "" cs
  end.

(** Whether a lookup found the key. *)
Definition found {A} (r : res (option A)) : bool :=
  match r with
  | Ok (Some _) => true
  | _ => false
  end.

(** The leaf at which a descent for [x] ends: from the root, at every node
    the child between the keys that enclose [x], that is the child whose
    index is the number of keys of the node less than [x]. *)
Fixpoint search_leaf (x : Z) (t : atree) : nat :=
  match t with
  | ANode a ks cs =>
      match (search_leaf x <$> cs) !! count_lt x ks with
      | Some b => b
      | None => a
      end
  end.

(** Every node of the store is a node of the tree: nothing that [calloc]
    handed out has been lost. *)
Definition packed (h : heap) (ot : option atree) : Prop :=
  nodes_of ot ≡ₚ seq 0 (length h).

(* ================================================================== *)
(** ** Proof automation for trees written out in full *)
(* ================================================================== *)

Ltac solve_node_matches :=
  repeat split; try reflexivity;
  try (let H := fresh in intros H; discriminate H);
  try (let H := fresh in intros H; exfalso; apply H; reflexivity);
  try (intros _; reflexivity).

Ltac solve_rep :=
  lazymatch goal with
  | |- rep _ _ => eapply rep_node; [reflexivity | solve_node_matches | solve_rep]
  | |- Forall _ [] => apply Forall_nil
  | |- Forall _ (_ :: _) => apply Forall_cons_2; solve_rep
  end.

Ltac solve_tree_ok :=
  split; [reflexivity|]; split; [solve_rep|];
  split; [compute_done | eexists; repeat constructor].

(* ================================================================== *)
(** ** The result monad *)
(* ================================================================== *)

Lemma bind_Ok {A B} (m : res A) (f : A -> res B) b :
  m ≫= f = Ok b -> exists a, m = Ok a /\ f a = Ok b.
Proof. destruct m as [a|e]; [eauto | discriminate]. Qed.

Lemma bind_Ok_l {A B} (f : A -> res B) a : Ok a ≫= f = f a.
Proof. reflexivity. Qed.

Lemma aget_Some {A} (l : list A) i x : l !! i = Some x -> aget l i = Ok x.
Proof. unfold aget. by intros ->. Qed.

Lemma aget_Ok {A} (l : list A) i x : aget l i = Ok x -> l !! i = Some x.
Proof. unfold aget. destruct (l !! i); congruence. Qed.

Lemma aset_lt {A} (l : list A) i x : i < length l -> aset l i x = Ok (<[i := x]> l).
Proof. unfold aset. intros H. apply Nat.ltb_lt in H. by rewrite H. Qed.

Lemma load_Some h a nd : h !! a = Some nd -> load h (Some a) = Ok nd.
Proof. unfold load. by intros ->. Qed.

(* ================================================================== *)
(** ** Binary search inside a node *)
(* ================================================================== *)

Lemma cmp_gt a b : (bt_default_cmp a b >? 0)%Z = true <-> (b < a)%Z.
Proof.
  unfold bt_default_cmp.
  destruct (a >? b)%Z eqn:E1; [|destruct (a <? b)%Z eqn:E2]; simpl; split; try discriminate; try lia.
Qed.

Lemma cmp_lt a b : (bt_default_cmp a b <? 0)%Z = true <-> (a < b)%Z.
Proof.
  unfold bt_default_cmp.
  destruct (a >? b)%Z eqn:E1; [|destruct (a <? b)%Z eqn:E2]; simpl; split; try discriminate; try lia.
Qed.

Lemma cmp_eq a b : (bt_default_cmp a b =? 0)%Z = true <-> a = b.
Proof.
  unfold bt_default_cmp.
  destruct (a >? b)%Z eqn:E1; [|destruct (a <? b)%Z eqn:E2]; simpl; split; try discriminate; try lia.
Qed.

Lemma cmp_cases a b :
  ((b < a)%Z /\ (bt_default_cmp a b >? 0)%Z = true /\ (bt_default_cmp a b =? 0)%Z = false) \/
  ((a < b)%Z /\ (bt_default_cmp a b >? 0)%Z = false /\ (bt_default_cmp a b <? 0)%Z = true
     /\ (bt_default_cmp a b =? 0)%Z = false) \/
  (a = b /\ (bt_default_cmp a b >? 0)%Z = false /\ (bt_default_cmp a b <? 0)%Z = false
     /\ (bt_default_cmp a b =? 0)%Z = true).
Proof.
  unfold bt_default_cmp.
  destruct (a >? b)%Z eqn:E1; [|destruct (a <? b)%Z eqn:E2]; simpl.
  - left. lia.
  - right. left. lia.
  - right. right. lia.
Qed.

Lemma mid_bounds left right : left < right -> left <= left + (right - left) / 2 < right.
Proof.
  intros H. split; [lia|].
  assert ((right - left) / 2 < right - left) by (apply Nat.div_lt; lia). lia.
Qed.

(** The loop entered with [left < right]: every read is inside
    [left, right), the assertion holds and the fuel suffices. *)
Lemma bsearch_loop_safe fuel es x left right :
  left < right -> right <= length es -> right - left <= fuel ->
  Forall (fun m => left <= m < right) (bsearch_loop fuel es x left right).1 /\
  ((exists i, (bsearch_loop fuel es x left right).2 = Ok (Z.of_nat i) /\
              left <= i < right /\ es !! i = Some x) \/
   (exists p, (bsearch_loop fuel es x left right).2 = Ok (- Z.of_nat p - 1)%Z /\
              left <= p <= right)).
Proof.
  revert left right. induction fuel as [|fuel IH]; intros left right Hlt Hlen Hfuel; [lia|].
  cbn [bsearch_loop]. pose proof (mid_bounds left right Hlt) as Hmid.
  set (mid := left + (right - left) / 2) in *.
  destruct (es !! mid) as [e|] eqn:He.
  2:{ apply lookup_ge_None in He. lia. }
  destruct (cmp_cases x e) as [(Hc & -> & ->)|[(Hc & -> & -> & ->)|(Hc & -> & -> & ->)]]; simpl.
  - (* elem > elems[mid] *)
    destruct (mid + 1 <? right) eqn:Hl.
    + apply Nat.ltb_lt in Hl.
      destruct (IH (mid + 1) right) as [Htr Hr]; [lia..|].
      destruct (bsearch_loop fuel es x (mid + 1) right) as [tr r]; simpl in *.
      split.
      * constructor; [lia|]. eapply Forall_impl; [exact Htr|]. simpl. lia.
      * destruct Hr as [(i & -> & ? & ?)|(p & -> & ?)]; [left; exists i|right; exists p];
          (split; [done|]); repeat split; auto; lia.
    + apply Nat.ltb_ge in Hl. assert (mid + 1 = right) as Heq by lia.
      simpl. split; [repeat constructor; lia|].
      right. exists (mid + 1). apply Nat.eqb_eq in Heq as Heq'. rewrite Heq'. split; [done|lia].
  - (* elem < elems[mid] *)
    destruct (left <? mid) eqn:Hl.
    + apply Nat.ltb_lt in Hl.
      destruct (IH left mid) as [Htr Hr]; [lia..|].
      destruct (bsearch_loop fuel es x left mid) as [tr r]; simpl in *.
      split.
      * constructor; [lia|]. eapply Forall_impl; [exact Htr|]. simpl. lia.
      * destruct Hr as [(i & -> & ? & ?)|(p & -> & ?)]; [left; exists i|right; exists p];
          (split; [done|]); repeat split; auto; lia.
    + apply Nat.ltb_ge in Hl. assert (left = mid) as Heq by lia.
      simpl. split; [repeat constructor; lia|].
      right. exists left. apply Nat.eqb_eq in Heq as Heq'. rewrite Heq'. split; [done|lia].
  - (* equal *)
    subst e. split; [repeat constructor; lia|]. left. exists mid. auto.
Qed.

(** With the keys strictly increasing below [n], the result is the index
    of [x] or the encoded position that separates smaller from greater keys. *)
Lemma bsearch_loop_sorted fuel es x n left right :
  (forall i j a b, i < j -> j < n -> es !! i = Some a -> es !! j = Some b -> (a < b)%Z) ->
  left < right -> right <= n -> n <= length es -> right - left <= fuel ->
  (forall j a, j < left -> es !! j = Some a -> (a < x)%Z) ->
  (forall j a, right <= j -> j < n -> es !! j = Some a -> (x < a)%Z) ->
  (exists i, (bsearch_loop fuel es x left right).2 = Ok (Z.of_nat i) /\
             i < n /\ es !! i = Some x) \/
  (exists p, (bsearch_loop fuel es x left right).2 = Ok (- Z.of_nat p - 1)%Z /\
             p <= n /\
             (forall j a, j < p -> es !! j = Some a -> (a < x)%Z) /\
             (forall j a, p <= j -> j < n -> es !! j = Some a -> (x < a)%Z)).
Proof.
  intros Hs. revert left right.
  induction fuel as [|fuel IH]; intros left right Hlt Hrn Hlen Hfuel Hlo Hhi; [lia|].
  cbn [bsearch_loop]. pose proof (mid_bounds left right Hlt) as Hmid.
  set (mid := left + (right - left) / 2) in *.
  destruct (es !! mid) as [e|] eqn:He.
  2:{ apply lookup_ge_None in He. lia. }
  assert (Hlo' : forall j a, j < mid + 1 -> (e < x)%Z -> es !! j = Some a -> (a < x)%Z).
  { intros j a Hj Hex Ha. destruct (decide (j = mid)) as [->|Hne].
    - rewrite He in Ha. by inversion Ha; subst.
    - assert (a < e)%Z; [|lia]. apply (Hs j mid); auto; lia. }
  assert (Hhi' : forall j a, mid <= j -> j < n -> (x < e)%Z -> es !! j = Some a -> (x < a)%Z).
  { intros j a Hj Hjn Hex Ha. destruct (decide (j = mid)) as [->|Hne].
    - rewrite He in Ha. by inversion Ha; subst.
    - assert (e < a)%Z; [|lia]. apply (Hs mid j); auto; lia. }
  destruct (cmp_cases x e) as [(Hc & -> & ->)|[(Hc & -> & -> & ->)|(Hc & -> & -> & ->)]]; simpl.
  - destruct (mid + 1 <? right) eqn:Hl.
    + apply Nat.ltb_lt in Hl.
      specialize (IH (mid + 1) right).
      destruct (bsearch_loop fuel es x (mid + 1) right) as [tr r]; simpl in *.
      apply IH; [lia..| |exact Hhi]. intros j a ? ?; apply (Hlo' j a); done.
    + apply Nat.ltb_ge in Hl. assert (mid + 1 = right) as Heq by lia.
      simpl. right. exists (mid + 1). apply Nat.eqb_eq in Heq as Heq'. rewrite Heq'.
      split; [done|]. split; [lia|]. split.
      * intros j a ? ?. apply (Hlo' j a); done.
      * intros j a ? ? ?. apply (Hhi j a); [lia|done|done].
  - destruct (left <? mid) eqn:Hl.
    + apply Nat.ltb_lt in Hl.
      specialize (IH left mid).
      destruct (bsearch_loop fuel es x left mid) as [tr r]; simpl in *.
      apply IH; [lia..|exact Hlo|]. intros j a ? ? ?; apply (Hhi' j a); done.
    + apply Nat.ltb_ge in Hl. assert (left = mid) as Heq by lia.
      simpl. right. exists left. apply Nat.eqb_eq in Heq as Heq'. rewrite Heq'.
      split; [done|]. split; [lia|]. split.
      * exact Hlo.
      * intros j a ? ? ?. apply (Hhi' j a); [lia|done|done|done].
  - subst e. left. exists mid. split; [done|]. split; [lia|done].
Qed.

(** Only the first [n] elements matter. *)
Lemma bsearch_loop_take fuel es x n left right :
  left < right -> right <= n ->
  bsearch_loop fuel (take n es) x left right = bsearch_loop fuel es x left right.
Proof.
  revert left right. induction fuel as [|fuel IH]; intros left right Hlt Hrn; [done|].
  cbn [bsearch_loop]. pose proof (mid_bounds left right Hlt) as Hmid.
  set (mid := left + (right - left) / 2) in *.
  rewrite lookup_take_lt by lia.
  destruct (es !! mid) as [e|] eqn:He; [|done].
  destruct (cmp_cases x e) as [(Hc & -> & ->)|[(Hc & -> & -> & ->)|(Hc & -> & -> & ->)]]; simpl.
  - destruct (mid + 1 <? right) eqn:Hl; [|done].
    apply Nat.ltb_lt in Hl. rewrite IH by lia. done.
  - destruct (left <? mid) eqn:Hl; [|done].
    apply Nat.ltb_lt in Hl. rewrite IH by lia. done.
  - done.
Qed.

Lemma bsearch_key_search nd ks x :
  1 <= length ks -> bnode_n nd = length ks -> take (length ks) (bnode_elems nd) = ks ->
  bt_node_bsearch nd x = key_search ks x.
Proof.
  intros Hn Hnn Hks. unfold bt_node_bsearch, bt_node_bsearch_reads, key_search.
  rewrite Hnn.
  rewrite <- (bsearch_loop_take _ (bnode_elems nd) x (length ks)) by lia.
  rewrite Hks. done.
Qed.

(** Shape of the result on a non-empty key list. *)
Lemma key_search_cases ks x :
  1 <= length ks ->
  (exists i, key_search ks x = Ok (Z.of_nat i) /\ i < length ks /\ ks !! i = Some x) \/
  (exists p, key_search ks x = Ok (- Z.of_nat p - 1)%Z /\ p <= length ks).
Proof.
  intros Hn. unfold key_search.
  destruct (bsearch_loop_safe (S (length ks)) ks x 0 (length ks)) as [_ H]; [lia..|].
  destruct H as [(i & ? & ? & ?)|(p & ? & ?)]; [left; exists i|right; exists p];
    repeat split; auto; lia.
Qed.

Lemma sorted_lookup_lt (ks : list Z) i j a b :
  StronglySorted Z.lt ks -> i < j -> ks !! i = Some a -> ks !! j = Some b -> (a < b)%Z.
Proof.
  intros Hs. revert i j. induction Hs as [|k ks Hs IH Hall]; intros i j Hij Ha Hb; [done|].
  destruct j as [|j]; [lia|]. simpl in Hb.
  destruct i as [|i]; simpl in Ha.
  - inversion Ha; subst. rewrite Forall_forall in Hall. apply Hall.
    eapply list_elem_of_lookup_2; eauto.
  - apply (IH i j); [lia|done|done].
Qed.

Lemma key_search_sorted ks x :
  StronglySorted Z.lt ks -> 1 <= length ks ->
  (exists i, key_search ks x = Ok (Z.of_nat i) /\ i < length ks /\ ks !! i = Some x) \/
  (exists p, key_search ks x = Ok (- Z.of_nat p - 1)%Z /\ p <= length ks /\
             Forall (fun k => (k < x)%Z) (take p ks) /\
             Forall (fun k => (x < k)%Z) (drop p ks)).
Proof.
  intros Hs Hn. unfold key_search.
  assert (Hsl : forall i j a b, i < j -> j < length ks ->
                  ks !! i = Some a -> ks !! j = Some b -> (a < b)%Z).
  { intros i j a b ? _ ? ?. eapply (sorted_lookup_lt ks i j); eauto. }
  destruct (bsearch_loop_sorted (S (length ks)) ks x (length ks) 0 (length ks) Hsl)
    as [H|(p & Hr & Hp & Hlo & Hhi)]; [lia..|intros; lia|intros; lia| |].
  - by left.
  - right. exists p. split; [done|]. split; [done|]. split.
    + apply Forall_forall. intros k Hk.
      apply list_elem_of_lookup in Hk as [j Hj].
      apply lookup_take_Some in Hj as [Hj Hjp]. eauto.
    + apply Forall_forall. intros k Hk.
      apply list_elem_of_lookup in Hk as [j Hj].
      rewrite lookup_drop in Hj. eapply (Hhi (p + j)); eauto; [lia|].
      apply lookup_lt_Some in Hj. lia.
Qed.

Lemma count_lt_split x l1 l2 :
  Forall (fun k => (k < x)%Z) l1 -> Forall (fun k => (x <= k)%Z) l2 ->
  count_lt x (l1 ++ l2) = length l1.
Proof.
  unfold count_lt. intros H1 H2. rewrite filter_app, length_app.
  assert (filter (fun k => (k < x)%Z) l1 = l1) as ->.
  { clear H2. induction H1 as [|k l Hk _ IH]; [done|].
    rewrite filter_cons. destruct (decide (k < x)%Z); [|lia]. by rewrite IH. }
  assert (filter (fun k => (k < x)%Z) l2 = []) as ->.
  { clear H1. induction H2 as [|k l Hk _ IH]; [done|].
    rewrite filter_cons. destruct (decide (k < x)%Z); [lia|]. done. }
  simpl. lia.
Qed.

(* ================================================================== *)
(** ** Logical trees: induction, in-order sequence *)
(* ================================================================== *)

Lemma atree_ind' (P : atree -> Prop) :
  (forall a ks cs, Forall P cs -> P (ANode a ks cs)) -> forall t, P t.
Proof.
  intros H. fix IH 1. intros [a ks cs]. apply H.
  induction cs as [|c cs IHcs]; constructor; [apply IH | exact IHcs].
Qed.

Lemma interleave_nil ks : interleave [] ks = ks.
Proof. by destruct ks. Qed.

Lemma interleave_last l : interleave [l] [] = l.
Proof. done. Qed.

Lemma interleave_post l ks ls :
  length ks = length ls -> interleave (l :: ls) ks = l ++ zip_post ks ls.
Proof.
  revert l ls. induction ks as [|k ks IH]; intros l [|l' ls] Hlen; simplify_eq/=.
  - by rewrite app_nil_r.
  - by rewrite IH.
Qed.

Lemma interleave_app ls1 ks1 ls2 ks2 :
  length ls1 = length ks1 ->
  interleave (ls1 ++ ls2) (ks1 ++ ks2) = zip_pre ls1 ks1 ++ interleave ls2 ks2.
Proof.
  revert ks1. induction ls1 as [|l ls1 IH]; intros [|k ks1] Hlen; simplify_eq/=; [done|].
  rewrite IH by done. by rewrite <- app_assoc.
Qed.

Lemma interleave_middle ls1 ks1 l ls2 ks2 :
  length ls1 = length ks1 -> length ks2 = length ls2 ->
  interleave (ls1 ++ l :: ls2) (ks1 ++ ks2) = zip_pre ls1 ks1 ++ l ++ zip_post ks2 ls2.
Proof. intros H1 H2. by rewrite interleave_app, interleave_post. Qed.

Lemma inorder_middle a k1 k2 c1 c c2 :
  length c1 = length k1 -> length k2 = length c2 ->
  inorder (ANode a (k1 ++ k2) (c1 ++ c :: c2)) =
    zip_pre (inorder <$> c1) k1 ++ inorder c ++ zip_post k2 (inorder <$> c2).
Proof.
  intros H1 H2. simpl. rewrite fmap_app. simpl.
  apply interleave_middle; by rewrite length_fmap.
Qed.

Lemma inorder_leaf a ks : inorder (ANode a ks []) = ks.
Proof. simpl. apply interleave_nil. Qed.

(** Cutting keys and children of an internal node at a child position. *)
Lemma node_cut (ks : list Z) (cs : list atree) p :
  length cs = S (length ks) -> p <= length ks ->
  exists c, cs !! p = Some c /\
    ks = take p ks ++ drop p ks /\ cs = take p cs ++ c :: drop (S p) cs /\
    length (take p cs) = length (take p ks) /\
    length (drop p ks) = length (drop (S p) cs).
Proof.
  intros Hlen Hp.
  destruct (lookup_lt_is_Some_2 cs p) as [c Hc]; [lia|].
  exists c. split; [done|]. split; [by rewrite take_drop|]. split; [by rewrite take_drop_middle|].
  rewrite !length_take, !length_drop. lia.
Qed.

Lemma zip_pre_snoc ls ks l k :
  length ls = length ks -> zip_pre (ls ++ [l]) (ks ++ [k]) = zip_pre ls ks ++ l ++ [k].
Proof.
  revert ks. induction ls as [|l' ls IH]; intros [|k' ks] Hlen; simplify_eq/=.
  - done.
  - rewrite IH by done. by rewrite <- app_assoc.
Qed.

Lemma elem_of_zip_pre_key ls ks k :
  length ls = length ks -> k ∈ ks -> k ∈ zip_pre ls ks.
Proof.
  revert ks. induction ls as [|l ls IH]; intros [|k' ks] Hlen Hk; simplify_eq/=.
  - by apply elem_of_nil in Hk.
  - rewrite elem_of_app, !elem_of_cons. apply elem_of_cons in Hk as [->|Hk]; auto.
Qed.

Lemma elem_of_zip_post_key ks ls k :
  length ks = length ls -> k ∈ ks -> k ∈ zip_post ks ls.
Proof.
  revert ls. induction ks as [|k' ks IH]; intros [|l ls] Hlen Hk; simplify_eq/=.
  - by apply elem_of_nil in Hk.
  - rewrite elem_of_cons, elem_of_app. apply elem_of_cons in Hk as [->|Hk]; auto.
Qed.

(** In an increasing sequence, everything in the part before a child is
    below [x] as soon as the keys of that part are. *)
Lemma zip_pre_below x ls ks rest :
  length ls = length ks ->
  StronglySorted Z.lt (zip_pre ls ks ++ rest) ->
  Forall (fun k => (k < x)%Z) ks -> Forall (fun k => (k < x)%Z) (zip_pre ls ks).
Proof.
  revert ks. induction ls as [|l ls IH]; intros [|k ks] Hlen Hs Hks; simplify_eq/=; [done|].
  apply Forall_cons in Hks as [Hk Hks].
  rewrite <- app_assoc in Hs. simpl in Hs.
  apply Forall_app. split.
  - apply Forall_forall. intros y Hy.
    assert (y < k)%Z; [|lia].
    eapply (StronglySorted_app_1_elem_of Z.lt); [exact Hs|exact Hy|]. left.
  - constructor; [done|].
    apply StronglySorted_app_1_r in Hs. apply StronglySorted_inv in Hs as [Hs _].
    by apply IH.
Qed.

Lemma zip_post_above x ks ls :
  length ks = length ls ->
  StronglySorted Z.lt (zip_post ks ls) ->
  Forall (fun k => (x < k)%Z) ks -> Forall (fun k => (x < k)%Z) (zip_post ks ls).
Proof.
  revert ls. induction ks as [|k ks IH]; intros [|l ls] Hlen Hs Hks; simplify_eq/=; [done|].
  apply Forall_cons in Hks as [Hk Hks].
  apply StronglySorted_inv in Hs as [Hs Hall].
  constructor; [done|]. apply Forall_app. split.
  - apply Forall_app in Hall as [Hall _].
    eapply Forall_impl; [exact Hall|]. simpl. intros; lia.
  - apply StronglySorted_app_1_r in Hs. by apply IH.
Qed.

Lemma ins_rel_sorted x l l' :
  ins_rel x l l' -> StronglySorted Z.lt l -> StronglySorted Z.lt l'.
Proof.
  intros (l1 & l2 & -> & -> & H1 & H2) Hs.
  apply StronglySorted_app in Hs as (Hc & Hs1 & Hs2).
  apply StronglySorted_app. split; [|split; [done|]].
  - intros a b Ha Hb. apply elem_of_cons in Hb as [->|Hb].
    + rewrite Forall_forall in H1. by apply H1.
    + by apply Hc.
  - constructor; done.
Qed.

Lemma ins_rel_elem x l l' y : ins_rel x l l' -> y ∈ l' <-> y = x \/ y ∈ l.
Proof.
  intros (l1 & l2 & -> & -> & _). rewrite !elem_of_app, elem_of_cons. tauto.
Qed.

Lemma ins_rel_length x l l' : ins_rel x l l' -> length l' = S (length l).
Proof. intros (l1 & l2 & -> & -> & _). rewrite !length_app. simpl. lia. Qed.

Lemma ins_rel_notin x l l' : ins_rel x l l' -> x ∉ l.
Proof.
  intros (l1 & l2 & -> & -> & H1 & H2) Hx. rewrite Forall_forall in H1, H2.
  apply elem_of_app in Hx as [Hx|Hx]; [apply H1 in Hx|apply H2 in Hx]; lia.
Qed.

Lemma ins_rel_frame x l l' pre post :
  ins_rel x l l' ->
  Forall (fun k => (k < x)%Z) pre -> Forall (fun k => (x < k)%Z) post ->
  ins_rel x (pre ++ l ++ post) (pre ++ l' ++ post).
Proof.
  intros (l1 & l2 & -> & -> & H1 & H2) Hpre Hpost.
  exists (pre ++ l1), (l2 ++ post). rewrite <- !app_assoc. simpl.
  split; [done|]. split; [done|]. split; apply Forall_app; done.
Qed.

Lemma interleave_at_key ls1 k1 m ls2 k2 :
  length ls1 = S (length k1) ->
  interleave (ls1 ++ ls2) (k1 ++ m :: k2) = interleave ls1 k1 ++ m :: interleave ls2 k2.
Proof.
  revert k1. induction ls1 as [|l ls1 IH]; intros k1 Hlen; [done|].
  destruct k1 as [|k k1]; simpl in *.
  - destruct ls1; [|done]. simpl. done.
  - rewrite IH by lia. by rewrite <- app_assoc.
Qed.

Lemma elem_of_interleave_key ls ks k :
  ls = [] \/ length ls = S (length ks) -> k ∈ ks -> k ∈ interleave ls ks.
Proof.
  intros [->|Hlen] Hk; [by rewrite interleave_nil|].
  destruct ls as [|l ls]; [done|]. rewrite interleave_post by (simpl in Hlen; lia).
  apply elem_of_app. right. apply elem_of_zip_post_key; [simpl in Hlen; lia|done].
Qed.

Lemma footprint_middle a ks c1 c c2 :
  footprint (ANode a ks (c1 ++ c :: c2)) =
    a :: concat (footprint <$> c1) ++ footprint c ++ concat (footprint <$> c2).
Proof. simpl. by rewrite fmap_app, concat_app. Qed.

Lemma footprint_middle2 a ks c1 l r c2 :
  footprint (ANode a ks (c1 ++ l :: r :: c2)) =
    a :: concat (footprint <$> c1) ++ (footprint l ++ footprint r) ++
         concat (footprint <$> c2).
Proof. simpl. by rewrite fmap_app, concat_app, <- !app_assoc. Qed.

(* ================================================================== *)
(** ** Shape *)
(* ================================================================== *)

Lemma wf_weaken lo hi lo' hi' d t :
  wf lo hi d t -> lo' <= lo -> hi <= hi' -> wf lo' hi' d t.
Proof. intros H ? ?. inversion H; subst; constructor; auto; lia. Qed.

Lemma wf_tighten lo hi hi' d t :
  wf lo hi d t -> length (akeys t) <= hi' -> wf lo hi' d t.
Proof. intros H ?. inversion H; subst; simpl in *; constructor; auto; lia. Qed.

Lemma wf_keys lo hi d t : wf lo hi d t -> lo <= length (akeys t) <= hi.
Proof. intros H. by inversion H; subst. Qed.

Lemma wf_kids lo hi d t :
  wf lo hi d t -> akids t = [] \/ length (akids t) = S (length (akeys t)).
Proof. intros H. inversion H; subst; simpl; auto. Qed.

Lemma wf_depth_pos lo hi d t : wf lo hi d t -> 1 <= d.
Proof. intros H. inversion H; lia. Qed.

Lemma asplit_wf lo d nxt c l m r :
  wf lo 5 d c -> length (akeys c) = 5 -> asplit nxt c = (l, m, r) ->
  wf 2 4 d l /\ wf 2 4 d r /\ inorder c = inorder l ++ m :: inorder r /\
  addr l = addr c /\ addr r = nxt /\
  footprint l ++ footprint r ≡ₚ nxt :: footprint c.
Proof.
  intros Hwf Hlen Hs. destruct c as [a ks cs]. simpl in *. simplify_eq.
  assert (Hks : ks = take 2 ks ++ nth 2 ks 0%Z :: drop 3 ks).
  { do 5 (destruct ks as [|? ks]; [done|]). destruct ks; done. }
  inversion Hwf as [? ? Hn|? ? ? d' Hn Hcs Hkids]; subst.
  - split; [constructor; rewrite length_take; lia|].
    split; [constructor; rewrite length_drop; lia|].
    rewrite !inorder_leaf. split; [done|]. repeat split; try done.
    simpl. apply perm_swap.
  - rewrite Hlen in Hcs.
    split; [constructor; rewrite ?length_take; [lia|lia|by apply Forall_take]|].
    split; [constructor; rewrite ?length_drop; [lia|lia|by apply Forall_drop]|].
    split; [|repeat split; try done].
    + simpl. rewrite <- (take_drop 3 cs) at 1. rewrite Hks at 1.
      rewrite fmap_app. rewrite interleave_at_key; [done|].
      rewrite length_fmap, !length_take. lia.
    + simpl. rewrite <- Permutation_middle.
      rewrite <- concat_app, <- fmap_app, take_drop. apply perm_swap.
Qed.

Lemma key_search_notfound_pos p : (0 <=? - Z.of_nat p - 1)%Z = false.
Proof. apply Z.leb_gt. lia. Qed.

Lemma key_search_decode p : Z.to_nat (- (- Z.of_nat p - 1) - 1) = p.
Proof. lia. Qed.

Lemma ains_eq x a ks cs nxt :
  ains x (ANode a ks cs) nxt =
  match key_search ks x with
  | Err _ => (ANode a ks cs, nxt, false)
  | Ok idx =>
      if (0 <=? idx)%Z then (ANode a (<[Z.to_nat idx := x]> ks) cs, nxt, true)
      else
        let p := Z.to_nat (- idx - 1) in
        match cs !! p with
        | None => (ANode a (take p ks ++ x :: drop p ks) cs, nxt, false)
        | Some c =>
            let '(c', nxt', replaced) := ains x c nxt in
            if length (akeys c') <=? 4
            then (ANode a ks (<[p := c']> cs), nxt', replaced)
            else
              let '(l, m, r) := asplit nxt' c' in
              (ANode a (take p ks ++ m :: drop p ks)
                       (take p cs ++ l :: r :: drop (S p) cs), S nxt', false)
        end
  end.
Proof.
  simpl. destruct (key_search ks x) as [idx|]; [|done].
  destruct (0 <=? idx)%Z; [done|]. rewrite list_lookup_fmap.
  destruct (cs !! _); done.
Qed.

(** The three ways [ains] ends on a node with at least one key. *)
Lemma ains_found x a ks cs nxt i :
  key_search ks x = Ok (Z.of_nat i) -> ks !! i = Some x ->
  ains x (ANode a ks cs) nxt = (ANode a ks cs, nxt, true).
Proof.
  intros Hs Hi. rewrite ains_eq, Hs.
  assert ((0 <=? Z.of_nat i)%Z = true) as -> by (apply Z.leb_le; lia).
  rewrite Nat2Z.id, list_insert_id by done. done.
Qed.

Lemma ains_leaf x a ks nxt p :
  key_search ks x = Ok (- Z.of_nat p - 1)%Z ->
  ains x (ANode a ks []) nxt = (ANode a (take p ks ++ x :: drop p ks) [], nxt, false).
Proof.
  intros Hs. rewrite ains_eq, Hs, key_search_notfound_pos, key_search_decode. done.
Qed.

Lemma ains_child x a ks cs nxt p c :
  key_search ks x = Ok (- Z.of_nat p - 1)%Z -> cs !! p = Some c ->
  ains x (ANode a ks cs) nxt =
    let '(c', nxt', replaced) := ains x c nxt in
    if length (akeys c') <=? 4
    then (ANode a ks (<[p := c']> cs), nxt', replaced)
    else
      let '(l, m, r) := asplit nxt' c' in
      (ANode a (take p ks ++ m :: drop p ks)
               (take p cs ++ l :: r :: drop (S p) cs), S nxt', false).
Proof.
  intros Hs Hc. rewrite ains_eq, Hs, key_search_notfound_pos, key_search_decode.
  cbv zeta. rewrite Hc. done.
Qed.

(* ================================================================== *)
(** ** Addresses *)
(* ================================================================== *)

Lemma footprint_replace (a : nat) (F1 B B' F2 : list nat) nxt nxt' :
  NoDup (a :: F1 ++ B ++ F2) ->
  Forall (fun x => x < nxt) (a :: F1 ++ B ++ F2) ->
  NoDup B' ->
  Forall (fun x => x ∈ B \/ nxt <= x < nxt') B' ->
  NoDup (a :: F1 ++ B' ++ F2) /\
  Forall (fun x => x ∈ a :: F1 ++ B ++ F2 \/ nxt <= x < nxt') (a :: F1 ++ B' ++ F2).
Proof.
  rewrite !NoDup_cons, !NoDup_app, !Forall_forall.
  intros (Ha & HF1 & H1B & HB & HB2 & HF2) Hlt HB' Hin.
  assert (Hlt1 : forall x, x ∈ F1 -> x < nxt).
  { intros x Hx. apply Hlt. rewrite elem_of_cons, elem_of_app. auto. }
  assert (Hlt2 : forall x, x ∈ F2 -> x < nxt).
  { intros x Hx. apply Hlt. rewrite elem_of_cons, !elem_of_app. auto. }
  assert (Hlta : a < nxt).
  { apply Hlt. rewrite elem_of_cons. auto. }
  split; [split; [|split; [done|split; [|split; [done|split; [|done]]]]]|].
  - rewrite !elem_of_app. intros [Hx|[Hx|Hx]].
    + apply Ha. rewrite !elem_of_app. auto.
    + destruct (Hin _ Hx) as [Hx'|Hx']; [|lia]. apply Ha. rewrite !elem_of_app. auto.
    + apply Ha. rewrite !elem_of_app. auto.
  - intros x Hx. rewrite elem_of_app. intros [Hx'|Hx'].
    + destruct (Hin _ Hx') as [Hx''|Hx'']; [|apply Hlt1 in Hx; lia].
      apply (H1B x Hx). rewrite elem_of_app. auto.
    + apply (H1B x Hx). rewrite elem_of_app. auto.
  - intros x Hx Hx'. destruct (Hin _ Hx) as [Hx''|Hx'']; [|apply Hlt2 in Hx'; lia].
    by apply (HB2 x).
  - intros x. rewrite !elem_of_cons, !elem_of_app. intros [->|[Hx|[Hx|Hx]]]; auto.
    destruct (Hin _ Hx); auto.
Qed.

Lemma NoDup_footprint_child a ks cs i c :
  NoDup (footprint (ANode a ks cs)) -> cs !! i = Some c ->
  NoDup (footprint c) /\ a ∉ footprint c.
Proof.
  intros Hnd Hc.
  rewrite <- (take_drop_middle cs i c Hc), footprint_middle in Hnd.
  apply NoDup_cons in Hnd as [Ha Hnd]. apply NoDup_app in Hnd as (_ & _ & Hnd).
  apply NoDup_app in Hnd as (Hnd & _). split; [done|].
  intros Hin. apply Ha. rewrite !elem_of_app. auto.
Qed.

Lemma footprint_child_subset a ks cs i c x :
  cs !! i = Some c -> x ∈ footprint c -> x ∈ footprint (ANode a ks cs).
Proof.
  intros Hc Hx. rewrite <- (take_drop_middle cs i c Hc), footprint_middle.
  rewrite elem_of_cons, !elem_of_app. auto.
Qed.

Lemma addr_in_footprint t : addr t ∈ footprint t.
Proof. destruct t. simpl. left. Qed.

(** Different children of a node occupy different addresses. *)
Lemma footprint_siblings_disjoint a ks cs i j ci cj x :
  NoDup (footprint (ANode a ks cs)) -> i <> j ->
  cs !! i = Some ci -> cs !! j = Some cj ->
  x ∈ footprint ci -> x ∉ footprint cj.
Proof.
  intros Hnd Hij Hi Hj Hxi Hxj. simpl in Hnd. apply NoDup_cons in Hnd as [_ Hnd].
  revert i j Hij Hi Hj. induction cs as [|c cs IH]; intros i j Hij Hi Hj; [done|].
  simpl in Hnd. apply NoDup_app in Hnd as (Hc & Hdis & Hrest).
  destruct i as [|i], j as [|j]; simplify_eq/=.
  - apply (Hdis x Hxi). apply list_elem_of_In, in_concat. exists (footprint cj).
    split; [|by apply list_elem_of_In].
    apply list_elem_of_In, list_elem_of_fmap. exists cj. split; [done|].
    by eapply list_elem_of_lookup_2.
  - apply (Hdis x Hxj). apply list_elem_of_In, in_concat. exists (footprint ci).
    split; [|by apply list_elem_of_In].
    apply list_elem_of_In, list_elem_of_fmap. exists ci. split; [done|].
    by eapply list_elem_of_lookup_2.
  - eapply (IH Hrest i j); eauto.
Qed.

Lemma Forall_footprint_child (P : nat -> Prop) a ks cs i c :
  Forall P (footprint (ANode a ks cs)) -> cs !! i = Some c -> Forall P (footprint c).
Proof.
  rewrite !Forall_forall. intros H Hc x Hx. apply H. by eapply footprint_child_subset.
Qed.

(** [ains] keeps the shape, except that the root of the result may hold
    one key too many, and hands out fresh addresses only. *)
Lemma ains_shape t : forall lo d x nxt,
  1 <= lo -> wf lo 4 d t -> NoDup (footprint t) ->
  Forall (fun a => a < nxt) (footprint t) ->
  exists t' nxt' r, ains x t nxt = (t', nxt', r) /\
    wf lo 5 d t' /\ addr t' = addr t /\ nxt <= nxt' /\
    NoDup (footprint t') /\
    Forall (fun a => a ∈ footprint t \/ nxt <= a < nxt') (footprint t') /\
    (r = true -> t' = t /\ nxt' = nxt).
Proof.
  induction t as [a ks cs IH] using atree_ind'.
  intros lo d x nxt Hlo Hwf Hnd Hlt.
  assert (Hself : Forall (fun a0 => a0 ∈ footprint (ANode a ks cs) \/ nxt <= a0 < nxt)
                    (footprint (ANode a ks cs))).
  { apply Forall_forall. auto. }
  assert (Hn : 1 <= length ks) by (apply wf_keys in Hwf; simpl in Hwf; lia).
  destruct (key_search_cases ks x Hn) as [(i & Hs & Hi & Hx)|(p & Hs & Hp)].
  { rewrite (ains_found _ _ _ _ _ i) by done.
    eexists _, _, _. split; [done|]. split; [eapply wf_weaken; eauto|]. auto 10. }
  inversion Hwf as [? ? Hks|? ? ? d' Hks Hcs Hkids]; subst.
  { rewrite (ains_leaf _ _ _ _ p) by done.
    eexists _, _, _. split; [done|]. split; [|by auto 10].
    constructor. rewrite length_app, length_take. simpl. rewrite length_drop. lia. }
  destruct (node_cut ks cs p Hcs Hp) as (c & Hc & Hkseq & Hcseq & Hl1 & Hl2).
  rewrite (ains_child _ _ _ _ _ p c) by done.
  rewrite Forall_lookup in IH. rewrite Forall_lookup in Hkids.
  destruct (NoDup_footprint_child _ _ _ _ _ Hnd Hc) as [Hndc Hac].
  destruct (IH p c Hc 2 d' x nxt)
    as (c' & nxt' & r & Hains & Hwf' & Haddr & Hnxt & Hnd' & Hfp' & Hrt);
    [lia|eauto|done|by eapply Forall_footprint_child|].
  rewrite Hains.
  assert (Hfpt : footprint (ANode a ks cs) =
            a :: concat (footprint <$> take p cs) ++ footprint c ++
                 concat (footprint <$> drop (S p) cs)).
  { rewrite Hcseq at 1. apply footprint_middle. }
  rewrite Hfpt in Hnd, Hlt |- *.
  destruct (length (akeys c') <=? 4) eqn:Hov.
  - apply Nat.leb_le in Hov.
    eexists _, _, _. split; [done|].
    split.
    { constructor; [lia|by rewrite length_insert|]. apply Forall_lookup.
      intros j cj Hj. destruct (decide (j = p)) as [->|Hne].
      - rewrite list_lookup_insert_eq in Hj by (by eapply lookup_lt_Some).
        simplify_eq. by eapply wf_tighten.
      - rewrite list_lookup_insert_ne in Hj by done. eauto. }
    split; [done|]. split; [done|].
    rewrite insert_take_drop by (by eapply lookup_lt_Some). rewrite footprint_middle.
    destruct (footprint_replace a (concat (footprint <$> take p cs)) (footprint c)
                (footprint c') (concat (footprint <$> drop (S p) cs)) nxt nxt')
      as [? ?]; [done..|].
    split; [done|]. split; [done|].
    intros ->. destruct (Hrt eq_refl) as [-> ->]. split; [|done].
    by rewrite <- insert_take_drop, list_insert_id by (done || by eapply lookup_lt_Some).
  - apply Nat.leb_gt in Hov.
    assert (Hlen5 : length (akeys c') = 5) by (apply wf_keys in Hwf'; lia).
    destruct (asplit nxt' c') as [[l m] r'] eqn:Hsp.
    destruct (asplit_wf _ _ _ _ _ _ _ Hwf' Hlen5 Hsp) as (Hwl & Hwr & _ & _ & _ & Hperm).
    eexists _, _, _. split; [done|].
    split.
    { constructor.
      - rewrite length_app, length_take. simpl. rewrite length_drop. lia.
      - rewrite !length_app, !length_take. simpl. rewrite !length_drop. lia.
      - apply Forall_app. split; [apply Forall_take; by apply Forall_lookup|].
        constructor; [done|]. constructor; [done|]. apply Forall_drop. by apply Forall_lookup. }
    split; [done|]. split; [lia|].
    rewrite footprint_middle2.
    destruct (footprint_replace a (concat (footprint <$> take p cs)) (footprint c)
                (footprint l ++ footprint r') (concat (footprint <$> drop (S p) cs))
                nxt (S nxt')) as [? ?]; [done|done| | |by auto].
    + rewrite Hperm. apply NoDup_cons. split; [|done].
      intros Hin. rewrite Forall_forall in Hfp'. destruct (Hfp' _ Hin) as [Hin'|?]; [|lia].
      rewrite Forall_forall in Hlt. specialize (Hlt nxt').
      rewrite elem_of_cons, !elem_of_app in Hlt. specialize (Hlt ltac:(auto)). lia.
    + rewrite Hperm. constructor; [right; lia|].
      eapply Forall_impl; [exact Hfp'|]. simpl. intros y [?|?]; [auto|right; lia].
Qed.

(* ================================================================== *)
(** ** Order *)
(* ================================================================== *)

Lemma sorted_interleave_keys ls ks :
  ls = [] \/ length ls = S (length ks) ->
  StronglySorted Z.lt (interleave ls ks) -> StronglySorted Z.lt ks.
Proof.
  intros [->|Hlen]; [by rewrite interleave_nil|].
  revert ls Hlen. induction ks as [|k ks IH]; intros ls Hlen Hs; [constructor|].
  destruct ls as [|l ls]; [done|]. simpl in Hs, Hlen.
  apply StronglySorted_app_1_r in Hs. apply StronglySorted_inv in Hs as [Hs Hall].
  constructor.
  - apply (IH ls); [lia|done].
  - apply Forall_forall. intros y Hy. rewrite Forall_forall in Hall. apply Hall.
    apply elem_of_interleave_key; [right; lia|done].
Qed.

Lemma sorted_inorder_keys lo hi d t :
  wf lo hi d t -> StronglySorted Z.lt (inorder t) -> StronglySorted Z.lt (akeys t).
Proof.
  intros Hwf Hs. destruct t as [a ks cs]. simpl in *.
  apply (sorted_interleave_keys (inorder <$> cs)); [|done].
  apply wf_kids in Hwf as [Hk|Hk]; simpl in Hk; [left; by rewrite Hk|right].
  by rewrite length_fmap.
Qed.

(** The in-order sequence of an internal node around its child [p]. *)
Lemma inorder_cut a (ks : list Z) (cs : list atree) p c :
  length cs = S (length ks) -> p <= length ks -> cs !! p = Some c ->
  inorder (ANode a ks cs) =
    zip_pre (inorder <$> take p cs) (take p ks) ++ inorder c ++
    zip_post (drop p ks) (inorder <$> drop (S p) cs).
Proof.
  intros Hlen Hp Hc.
  rewrite <- (take_drop p ks) at 1. rewrite <- (take_drop_middle cs p c Hc) at 1.
  apply inorder_middle; rewrite ?length_take, ?length_drop; lia.
Qed.

Lemma ains_order t : forall lo d x nxt,
  1 <= lo -> wf lo 4 d t -> NoDup (footprint t) ->
  Forall (fun a => a < nxt) (footprint t) ->
  StronglySorted Z.lt (inorder t) ->
  forall t' nxt' r, ains x t nxt = (t', nxt', r) ->
    (r = true /\ t' = t /\ nxt' = nxt /\ x ∈ inorder t) \/
    (r = false /\ ins_rel x (inorder t) (inorder t')).
Proof.
  induction t as [a ks cs IH] using atree_ind'.
  intros lo d x nxt Hlo Hwf Hnd Hlt Hsort t' nxt' r Hains.
  assert (Hn : 1 <= length ks) by (apply wf_keys in Hwf; simpl in Hwf; lia).
  pose proof (sorted_inorder_keys _ _ _ _ Hwf Hsort) as Hsk. simpl in Hsk.
  destruct (key_search_sorted ks x Hsk Hn) as [(i & Hs & Hi & Hx)|(p & Hs & Hp & Hlo1 & Hhi1)].
  { rewrite (ains_found _ _ _ _ _ i) in Hains by done. simplify_eq. left.
    repeat split; try done. simpl. apply elem_of_interleave_key.
    - apply wf_kids in Hwf as [Hk|Hk]; simpl in Hk; [left; by rewrite Hk|right].
      by rewrite length_fmap.
    - by eapply list_elem_of_lookup_2. }
  inversion Hwf as [? ? Hks|? ? ? d' Hks Hcs Hkids]; subst.
  { rewrite (ains_leaf _ _ _ _ p) in Hains by done. simplify_eq. right. split; [done|].
    rewrite !inorder_leaf. exists (take p ks), (drop p ks).
    by rewrite take_drop. }
  destruct (node_cut ks cs p Hcs Hp) as (c & Hc & _).
  rewrite (ains_child _ _ _ _ _ p c) in Hains by done.
  rewrite Forall_lookup in IH. rewrite Forall_lookup in Hkids.
  destruct (NoDup_footprint_child _ _ _ _ _ Hnd Hc) as [Hndc Hac].
  pose proof (Forall_footprint_child _ _ _ _ _ _ Hlt Hc) as Hltc.
  pose proof (inorder_cut a ks cs p c Hcs Hp Hc) as Hcut.
  rewrite Hcut in Hsort |- *.
  set (pre := zip_pre (inorder <$> take p cs) (take p ks)) in *.
  set (post := zip_post (drop p ks) (inorder <$> drop (S p) cs)) in *.
  assert (Hpre : Forall (fun k => (k < x)%Z) pre).
  { eapply zip_pre_below; [|exact Hsort|done].
    rewrite length_fmap, !length_take. lia. }
  assert (Hpost : Forall (fun k => (x < k)%Z) post).
  { apply zip_post_above; [|by do 2 apply StronglySorted_app_1_r in Hsort|done].
    rewrite length_fmap, !length_drop. lia. }
  assert (Hsc : StronglySorted Z.lt (inorder c)).
  { apply StronglySorted_app_1_r in Hsort. by apply StronglySorted_app_1_l in Hsort. }
  destruct (ains_shape c 2 d' x nxt) as (c' & nxt1 & rc & Hac' & Hwf' & _); [lia|eauto|done|done|].
  specialize (IH p c Hc 2 d' x nxt ltac:(lia) ltac:(eauto) Hndc Hltc Hsc c' nxt1 rc Hac').
  rewrite Hac' in Hains.
  destruct IH as [(-> & -> & -> & Hxin)|(-> & Hrel)].
  { assert ((length (akeys c) <=? 4) = true) as Hle.
    { apply Nat.leb_le. specialize (Hkids p c Hc). apply wf_keys in Hkids. lia. }
    rewrite Hle in Hains. rewrite list_insert_id in Hains by done. simplify_eq.
    left. repeat split; try done. rewrite !elem_of_app. auto. }
  right.
  destruct (length (akeys c') <=? 4) eqn:Hov.
  - simplify_eq. split; [done|].
    rewrite (inorder_cut a ks (<[p:=c']> cs) p c'); [| by rewrite length_insert | done |].
    2:{ apply list_lookup_insert_eq. by eapply lookup_lt_Some. }
    rewrite take_insert_ge, drop_insert_lt by lia.
    by apply ins_rel_frame.
  - apply Nat.leb_gt in Hov.
    assert (Hlen5 : length (akeys c') = 5) by (apply wf_keys in Hwf'; lia).
    destruct (asplit nxt1 c') as [[l m] r'] eqn:Hsp.
    destruct (asplit_wf _ _ _ _ _ _ _ Hwf' Hlen5 Hsp) as (_ & _ & Hin & _).
    simplify_eq. split; [done|].
    rewrite (inorder_middle a (take p ks) (m :: drop p ks) (take p cs) l
               (r' :: drop (S p) cs)).
    2:{ rewrite !length_take. lia. }
    2:{ simpl. rewrite !length_drop. lia. }
    change (zip_post (m :: drop p ks) (inorder <$> r' :: drop (S p) cs))
      with (m :: inorder r' ++ post).
    change (zip_pre (inorder <$> take p cs) (take p ks)) with pre.
    replace (pre ++ inorder l ++ m :: inorder r' ++ post)
      with (pre ++ inorder c' ++ post).
    2:{ rewrite Hin. by rewrite <- !app_assoc. }
    by apply ins_rel_frame.
Qed.

(* ================================================================== *)
(** ** The store *)
(* ================================================================== *)

Lemma update_Some h a nd nd' (f : bnode -> res bnode) :
  h !! a = Some nd -> f nd = Ok nd' -> update h (Some a) f = Ok (<[a := nd']> h).
Proof. intros Hl Hf. unfold update. rewrite (load_Some _ _ _ Hl). simpl. by rewrite Hf. Qed.

Lemma shift_right_Ok {A} (l : list A) src a b :
  b <= a -> src + (a - b) + 1 <= length l ->
  shift_right l src a b =
    Ok (take (src + 1) l ++ take (a - b) (drop src l) ++ drop (src + (a - b) + 1) l).
Proof.
  intros H1 H2. unfold shift_right.
  apply Nat.leb_le in H1, H2. by rewrite H1, H2.
Qed.

Lemma copy_front_Ok {A} (dst src : list A) from cnt :
  from + cnt <= length src -> cnt <= length dst ->
  copy_front dst src from cnt = Ok (take cnt (drop from src) ++ drop cnt dst).
Proof.
  intros H1 H2. unfold copy_front.
  apply Nat.leb_le in H1, H2. by rewrite H1, H2.
Qed.

(** Opening a gap at [p] among the first [n] entries and filling it. *)
Lemma shift_insert_take {A} (l : list A) p n x :
  p <= n -> n < length l ->
  take (S n) (<[p := x]> (take (p + 1) l ++ take (n - p) (drop p l)
                            ++ drop (p + (n - p) + 1) l))
  = take p (take n l) ++ x :: drop p (take n l).
Proof.
  intros Hp Hn.
  assert (Hl : exists y, l !! p = Some y) by (apply lookup_lt_is_Some_2; lia).
  destruct Hl as [y Hy].
  rewrite !Nat.add_1_r.
  rewrite (take_S_r l p y Hy).
  rewrite <- app_assoc. simpl.
  rewrite insert_app_r_alt by (rewrite length_take; lia).
  rewrite length_take, Nat.min_l, Nat.sub_diag by lia. simpl.
  rewrite take_take, Nat.min_l by lia.
  rewrite skipn_firstn_comm.
  change (take p l ++ x :: take (n - p) (drop p l) ++ drop (S (p + (n - p))) l)
    with (take p l ++ (x :: take (n - p) (drop p l)) ++ drop (S (p + (n - p))) l).
  rewrite app_assoc. apply take_app_length'.
  rewrite length_app, length_take. simpl. rewrite length_take, length_drop. lia.
Qed.

Lemma set_elems_id nd : set_elems (bnode_elems nd) nd = nd.
Proof. by destruct nd. Qed.

(* ================================================================== *)
(** ** Trees in the store *)
(* ================================================================== *)

Lemma rep_inv h a ks cs :
  rep h (ANode a ks cs) ->
  exists nd, h !! a = Some nd /\ node_matches nd ks cs /\ Forall (rep h) cs.
Proof. intros H. inversion H; subst. eauto. Qed.

Lemma rep_root h t : rep h t -> exists nd, h !! addr t = Some nd /\
  node_matches nd (akeys t) (akids t).
Proof. intros H. inversion H; subst. simpl. eauto. Qed.

Lemma rep_frame h h' t :
  rep h t -> (forall b, b ∈ footprint t -> h' !! b = h !! b) -> rep h' t.
Proof.
  induction t as [a ks cs IH] using atree_ind'. intros Hrep Hsame.
  apply rep_inv in Hrep as (nd & Hnd & Hm & Hkids).
  econstructor; [|exact Hm|].
  - rewrite Hsame; [done|]. apply (addr_in_footprint (ANode a ks cs)).
  - rewrite Forall_lookup in IH, Hkids |- *. intros i c Hc.
    apply (IH i c Hc); [eauto|]. intros b Hb. apply Hsame.
    by eapply footprint_child_subset.
Qed.

Lemma rep_bound h t : rep h t -> Forall (fun a => a < length h) (footprint t).
Proof.
  induction t as [a ks cs IH] using atree_ind'. intros Hrep.
  apply rep_inv in Hrep as (nd & Hnd & Hm & Hkids). simpl. constructor.
  - by eapply lookup_lt_Some.
  - apply Forall_forall. intros b Hb.
    apply list_elem_of_In, in_concat in Hb as (fp & Hfp & Hb).
    apply list_elem_of_In, list_elem_of_fmap in Hfp as (c & -> & Hc).
    rewrite Forall_forall in IH, Hkids. specialize (IH c Hc (Hkids c Hc)).
    rewrite Forall_forall in IH. apply IH. by apply list_elem_of_In.
Qed.

(** The pointer stored for child [i] of a node in the store. *)
Lemma node_matches_child nd (ks : list Z) cs i c :
  node_matches nd ks cs -> length cs = S (length ks) -> cs !! i = Some c ->
  bnode_children nd !! i = Some (Some (addr c)).
Proof.
  intros (_ & _ & _ & _ & _ & Hch) Hlen Hc.
  assert (cs <> []) as Hne by (intros ->; done).
  specialize (Hch Hne).
  assert (i < S (length ks)) by (apply lookup_lt_Some in Hc; lia).
  rewrite <- (lookup_take_lt (bnode_children nd) (S (length ks)) i) by done.
  rewrite Hch, list_lookup_fmap, Hc. done.
Qed.

Lemma node_matches_leaf_child nd (ks : list Z) i :
  node_matches nd ks [] -> i < 6 -> bnode_children nd !! i = Some None.
Proof.
  intros (_ & _ & _ & _ & Hch & _) Hi. rewrite Hch by done.
  by apply lookup_replicate_2.
Qed.

Lemma node_matches_key nd (ks : list Z) cs i k :
  node_matches nd ks cs -> ks !! i = Some k -> bnode_elems nd !! i = Some k.
Proof.
  intros (_ & _ & _ & Hks & _) Hk.
  rewrite <- Hks in Hk. by apply lookup_take_Some in Hk as [? _].
Qed.

(* ================================================================== *)
(** ** [bt_split_node] on the store *)
(* ================================================================== *)

Lemma bt_split_node_spec h parent idx pn c cn :
  h !! parent = Some pn ->
  bnode_children pn !! idx = Some (Some c) ->
  h !! c = Some cn -> c <> parent ->
  idx <= bnode_n pn -> bnode_n pn + 2 <= length (bnode_children pn) ->
  length (bnode_elems cn) = 5 -> length (bnode_children cn) = 6 ->
  exists h' m, bt_split_node h parent idx = Ok (h', m) /\
    bnode_elems cn !! 2 = Some m /\
    length h' = S (length h) /\
    h' !! parent = Some (set_children
      (split_children (bnode_children pn) idx (bnode_n pn) (length h)) pn) /\
    h' !! c = Some (mk_bnode 2 (bnode_elems cn) (bnode_children cn)) /\
    h' !! length h = Some (split_sibling cn) /\
    forall b, b <> parent -> b <> c -> b < length h -> h' !! b = h !! b.
Proof.
  intros Hp Hidx Hc Hne Hle Hroom Hes Hcs.
  pose proof (lookup_lt_Some _ _ _ Hp) as Hpl.
  pose proof (lookup_lt_Some _ _ _ Hc) as Hcl.
  destruct (lookup_lt_is_Some_2 (bnode_elems cn) 2) as [m Hm]; [lia|].
  destruct (lookup_lt_is_Some_2 (bnode_children cn) 0) as [c0 Hc0]; [lia|].
  unfold bt_split_node.
  rewrite (load_Some _ _ _ Hp). cbn [mbind res_bind].
  rewrite (aget_Some _ _ _ Hidx). cbn [mbind res_bind].
  (* the move inside the parent's child array *)
  set (ch1 := take (idx + 1 + 1) (bnode_children pn)
                ++ take (bnode_n pn - idx) (drop (idx + 1) (bnode_children pn))
                ++ drop (idx + 1 + (bnode_n pn - idx) + 1) (bnode_children pn)).
  assert (Hch1 : length ch1 = length (bnode_children pn)).
  { unfold ch1. rewrite !length_app, !length_take, !length_drop. lia. }
  rewrite (update_Some h parent pn (set_children ch1 pn)); [|done|].
  2:{ rewrite shift_right_Ok by lia. done. }
  cbn [mbind res_bind]. unfold calloc_bnode. rewrite length_insert.
  set (h1 := <[parent := set_children ch1 pn]> h ++ [bnode_zero]).
  rewrite (update_Some h1 parent (set_children ch1 pn)
             (set_children (<[idx + 1 := Some (length h)]> ch1) (set_children ch1 pn))).
  2:{ unfold h1. by heap_lookup. }
  2:{ cbn [set_children bnode_children]. rewrite aset_lt by lia. done. }
  cbn [mbind res_bind].
  set (pn' := set_children (<[idx + 1 := Some (length h)]> ch1) (set_children ch1 pn)).
  set (h2 := <[parent := pn']> h1).
  assert (Hh2c : h2 !! c = Some cn).
  { unfold h2, h1. by heap_lookup. }
  rewrite (load_Some _ _ _ Hh2c). cbn [mbind res_bind].
  set (s1 := set_elems (take 2 (drop 3 (bnode_elems cn)) ++ drop 2 (bnode_elems bnode_zero))
               bnode_zero).
  rewrite (update_Some h2 (length h) bnode_zero s1).
  2:{ unfold h2, h1. by heap_lookup. }
  2:{ rewrite copy_front_Ok; [done|lia|simpl; lia]. }
  cbn [mbind res_bind].
  set (h3 := <[length h := s1]> h2).
  assert (Hh3c : h3 !! c = Some cn).
  { unfold h3. by heap_lookup. }
  assert (Hh3s : h3 !! length h = Some s1).
  { unfold h3, h2, h1. by heap_lookup. }
  rewrite (load_Some _ _ _ Hh3c). cbn [mbind res_bind].
  rewrite (aget_Some _ _ _ Hc0). cbn [mbind res_bind].
  set (s2 := match c0 with
             | Some _ => set_children (take 3 (drop 3 (bnode_children cn))
                                         ++ drop 3 (bnode_children s1)) s1
             | None => s1
             end).
  set (h4 := match c0 with Some _ => <[length h := s2]> h3 | None => h3 end).
  assert (Hstep :
    match c0 with
    | Some _ => update h3 (Some (length h)) (fun nd =>
                  cs ← copy_front (bnode_children nd) (bnode_children cn) 3 3;
                  Ok (set_children cs nd))
    | None => Ok h3
    end = Ok h4).
  { unfold h4, s2. destruct c0; [|done].
    apply (update_Some h3 (length h) s1); [done|].
    rewrite copy_front_Ok; [done|lia|simpl; lia]. }
  rewrite Hstep. cbn [mbind res_bind].
  assert (Hh4s : h4 !! length h = Some s2).
  { unfold h4, s2. destruct c0; [|done]. unfold h3, h2, h1. by heap_lookup. }
  assert (Hh4c : h4 !! c = Some cn).
  { unfold h4. destruct c0; [|done]. by heap_lookup. }
  rewrite (update_Some h4 (length h) s2 (mk_bnode 2 (bnode_elems s2) (bnode_children s2)));
    [|done|done].
  cbn [mbind res_bind].
  set (s3 := mk_bnode 2 (bnode_elems s2) (bnode_children s2)).
  set (h5 := <[length h := s3]> h4).
  rewrite (update_Some h5 c cn (mk_bnode 2 (bnode_elems cn) (bnode_children cn)));
    [| unfold h5; by heap_lookup | done].
  cbn [mbind res_bind].
  set (cn' := mk_bnode 2 (bnode_elems cn) (bnode_children cn)).
  set (h6 := <[c := cn']> h5).
  assert (Hlen4 : length h4 = S (length h)).
  { unfold h4. destruct c0; unfold h3, h2, h1;
      rewrite ?length_insert, length_app, length_insert; simpl; lia. }
  assert (Hh6c : h6 !! c = Some cn').
  { unfold h6, h5. heap_lookup. done. }
  rewrite (load_Some _ _ _ Hh6c). cbn [mbind res_bind].
  change (bnode_elems cn') with (bnode_elems cn).
  rewrite (aget_Some _ _ _ Hm). cbn [mbind res_bind].
  exists h6, m. split; [done|]. split; [done|].
  split; [unfold h6, h5; by rewrite !length_insert|].
  split.
  { unfold h6, h5. heap_lookup. unfold h4. destruct c0; unfold h3, h2, h1; heap_lookup; done. }
  split; [done|].
  split.
  { unfold h6, h5. heap_lookup. f_equal. unfold s3, s2, split_sibling. rewrite Hc0.
    destruct c0; reflexivity. }
  intros b Hb1 Hb2 Hb3. unfold h6, h5. heap_lookup.
  unfold h4. destruct c0; unfold h3, h2, h1; by heap_lookup.
Qed.

(* ================================================================== *)
(** ** Nodes after the steps of an insertion *)
(* ================================================================== *)

Lemma node_matches_insert_key nd (ks : list Z) cs p x ch' cs' :
  node_matches nd ks cs -> p <= length ks -> length ks <= 4 ->
  length ch' = 6 ->
  (cs' = [] -> ch' = replicate 6 None) ->
  (cs' <> [] -> take (S (S (length ks))) ch' = (fun c => Some (addr c)) <$> cs') ->
  node_matches
    (mk_bnode (bnode_n nd + 1)
       (<[p := x]> (take (p + 1) (bnode_elems nd)
                      ++ take (bnode_n nd - p) (drop p (bnode_elems nd))
                      ++ drop (p + (bnode_n nd - p) + 1) (bnode_elems nd)))
       ch')
    (take p ks ++ x :: drop p ks) cs'.
Proof.
  intros (Hn & Hes & Hch & Hks & _) Hp Hle Hch' Hleaf Hint.
  assert (Hlen : length (take p ks ++ x :: drop p ks) = S (length ks)).
  { rewrite length_app, length_take. simpl. rewrite length_drop. lia. }
  unfold node_matches. cbn [bnode_n bnode_elems bnode_children]. rewrite Hlen.
  split; [lia|]. split.
  { rewrite length_insert, !length_app, !length_take, !length_drop. lia. }
  split; [done|]. split; [|done].
  rewrite Hn, shift_insert_take by lia. by rewrite Hks.
Qed.

Lemma split_children_matches nd (ks : list Z) cs p c l r sib :
  node_matches nd ks cs -> length cs = S (length ks) -> length ks <= 4 ->
  cs !! p = Some c -> addr l = addr c -> addr r = sib ->
  length (split_children (bnode_children nd) p (bnode_n nd) sib) = 6 /\
  take (S (S (length ks))) (split_children (bnode_children nd) p (bnode_n nd) sib)
  = (fun c => Some (addr c)) <$> (take p cs ++ l :: r :: drop (S p) cs).
Proof.
  intros (Hn & Hes & Hch & Hks & _ & Hint) Hlen Hle Hc Hl Hr. rewrite Hn.
  pose proof (lookup_lt_Some _ _ _ Hc) as Hp.
  assert (cs <> []) as Hne by (intros ->; done).
  specialize (Hint Hne). unfold split_children. split.
  { rewrite length_insert, !length_app, !length_take, !length_drop. lia. }
  replace (length ks - p) with (S (length ks) - (p + 1)) by lia.
  rewrite (shift_insert_take (bnode_children nd) (p + 1) (S (length ks))) by lia.
  rewrite Hint, <- fmap_take, <- fmap_drop, Nat.add_1_r.
  rewrite (take_S_r cs p c Hc). rewrite !fmap_app. simpl.
  rewrite <- app_assoc. simpl. by rewrite Hl, Hr.
Qed.

Lemma split_left_matches cn (ks : list Z) cs :
  node_matches cn ks cs -> length ks = 5 -> (cs = [] \/ length cs = 6) ->
  node_matches (mk_bnode 2 (bnode_elems cn) (bnode_children cn)) (take 2 ks) (take 3 cs).
Proof.
  intros (Hn & Hes & Hch & Hks & Hleaf & Hint) Hlen Hcs.
  unfold node_matches. cbn [bnode_n bnode_elems bnode_children].
  rewrite length_take, Hlen. simpl Nat.min.
  split; [done|]. split; [done|]. split; [done|]. split.
  { transitivity (take 2 (take (length ks) (bnode_elems cn)));
      [by rewrite take_take, Hlen | by rewrite Hks]. }
  destruct Hcs as [->|Hcs].
  - split; [auto|]. intros Hne. by rewrite take_nil in Hne.
  - assert (cs <> []) as Hne by (intros ->; done).
    split; [intros Hnil; apply (f_equal length) in Hnil;
            rewrite length_take, Hcs in Hnil; done|].
    intros _. rewrite fmap_take, <- (Hint Hne), take_take, Hlen. done.
Qed.

Lemma split_sibling_matches cn (ks : list Z) cs :
  node_matches cn ks cs -> length ks = 5 -> (cs = [] \/ length cs = 6) ->
  node_matches (split_sibling cn) (drop 3 ks) (drop 3 cs).
Proof.
  intros (Hn & Hes & Hch & Hks & Hleaf & Hint) Hlen Hcs.
  unfold node_matches, split_sibling. cbn [bnode_n bnode_elems bnode_children].
  rewrite length_drop, Hlen. simpl Nat.sub.
  split; [done|]. split.
  { rewrite length_app, length_take, length_drop, length_replicate. lia. }
  assert (Hes2 : take 2 (take 2 (drop 3 (bnode_elems cn)) ++ replicate 3 0%Z) = drop 3 ks).
  { rewrite take_app_length' by (rewrite length_take, length_drop; lia).
    transitivity (drop 3 (take (length ks) (bnode_elems cn)));
      [by rewrite Hlen, take_drop_commute | by rewrite Hks]. }
  destruct Hcs as [->|Hcs].
  - rewrite (Hleaf eq_refl). simpl. split; [done|]. split; [exact Hes2|]. split; done.
  - assert (cs <> []) as Hne by (intros ->; done).
    specialize (Hint Hne). rewrite Hlen in Hint.
    destruct cs as [|c0 cs0]; [done|].
    assert (bnode_children cn !! 0 = Some (Some (addr c0))) as ->.
    { rewrite <- (lookup_take_lt _ 6) by lia. by rewrite Hint. }
    split. { rewrite length_app, length_take, length_drop, length_replicate. lia. }
    split; [exact Hes2|]. split.
    { intros Hnil. apply (f_equal length) in Hnil. rewrite length_drop, Hcs in Hnil.
      done. }
    intros _. rewrite take_app_length' by (rewrite length_take, length_drop; lia).
    rewrite fmap_drop, <- Hint. by rewrite take_drop_commute.
Qed.

(* ================================================================== *)
(** ** [bt_node_insert] on the store *)
(* ================================================================== *)

Lemma bt_node_insert_S fuel' h node elem prev :
  bt_node_insert (S fuel') h node elem prev =
    (nd ← load h (Some node);
     idx ← bt_node_bsearch nd elem;
     if (0 <=? idx)%Z then
       let idx := Z.to_nat idx in
       old ← aget (bnode_elems nd) idx;
       let prev' := match prev with Some _ => Some old | None => None end in
       h ← update h (Some node) (fun nd =>
              es ← aset (bnode_elems nd) idx elem; Ok (set_elems es nd));
       Ok (h, true, prev')
     else
       let idx := Z.to_nat (- idx - 1) in
       child ← aget (bnode_children nd) idx;
       r ← match child with
            | Some c =>
                '(h1, replaced, prev1) ← bt_node_insert fuel' h c elem prev;
                cn ← load h1 child;
                if bnode_n cn <=? 2 * 2 then Ok (inl (h1, replaced, prev1))
                else
                  '(h2, e) ← bt_split_node h1 node idx;
                  Ok (inr (h2, e, prev1))
            | None => Ok (inr (h, elem, prev))
            end;
       match r with
       | inl out => Ok out
       | inr (h, elem, prev) =>
           h ← update h (Some node) (fun nd =>
                  es ← shift_right (bnode_elems nd) idx (bnode_n nd) idx;
                  es ← aset es idx elem;
                  Ok (mk_bnode (bnode_n nd + 1) es (bnode_children nd)));
           Ok (h, false, prev)
       end).
Proof. reflexivity. Qed.

(** The last step of [bt_node_insert]: opening the gap and storing. *)
Lemma insert_key_update h a nd p x :
  h !! a = Some nd -> p <= bnode_n nd -> bnode_n nd + 1 <= length (bnode_elems nd) ->
  update h (Some a) (fun nd =>
      es ← shift_right (bnode_elems nd) p (bnode_n nd) p;
      es ← aset es p x;
      Ok (mk_bnode (bnode_n nd + 1) es (bnode_children nd)))
  = Ok (<[a := mk_bnode (bnode_n nd + 1)
               (<[p := x]> (take (p + 1) (bnode_elems nd)
                      ++ take (bnode_n nd - p) (drop p (bnode_elems nd))
                      ++ drop (p + (bnode_n nd - p) + 1) (bnode_elems nd)))
               (bnode_children nd)]> h).
Proof.
  intros Hnd Hp Hroom. eapply update_Some; [done|].
  rewrite shift_right_Ok by lia. cbn [mbind res_bind].
  rewrite aset_lt; [done|].
  rewrite !length_app, !length_take, !length_drop. lia.
Qed.

Lemma node_insert_refines t : forall lo d h x prev fuel t' nxt' r,
  1 <= lo -> wf lo 4 d t -> rep h t -> NoDup (footprint t) -> d <= fuel ->
  ains x t (length h) = (t', nxt', r) ->
  exists h', bt_node_insert fuel h (addr t) x prev = Ok (h', r, prev_after r x prev) /\
    rep h' t' /\ length h' = nxt' /\
    (forall b, b < length h -> b ∉ footprint t -> h' !! b = h !! b) /\
    (r = true -> h' = h).
Proof.
  induction t as [a ks cs IH] using atree_ind'.
  intros lo d h x prev fuel t' nxt' r Hlo Hwf Hrep Hnd Hfuel Hains.
  pose proof (wf_depth_pos _ _ _ _ Hwf) as Hd.
  destruct fuel as [|fuel]; [lia|].
  assert (Hn : 1 <= length ks) by (apply wf_keys in Hwf; simpl in Hwf; lia).
  assert (Hn4 : length ks <= 4) by (apply wf_keys in Hwf; simpl in Hwf; lia).
  pose proof Hrep as Hrep0.
  apply rep_inv in Hrep as (nd & Hh & Hm & Hkids).
  pose proof Hm as (Hnn & Hes & Hch & Hks & Hleaf & Hint).
  cbn [addr]. rewrite bt_node_insert_S.
  rewrite (load_Some _ _ _ Hh). cbn [mbind res_bind].
  rewrite (bsearch_key_search nd ks x Hn Hnn Hks).
  destruct (key_search_cases ks x Hn) as [(i & Hs & Hi & Hx)|(p & Hs & Hp)].
  { (* the key is in this node *)
    rewrite (ains_found _ _ _ _ _ i) in Hains by done. simplify_eq.
    rewrite Hs. cbn [mbind res_bind].
    assert ((0 <=? Z.of_nat i)%Z = true) as -> by (apply Z.leb_le; lia).
    cbv zeta. rewrite Nat2Z.id.
    pose proof (node_matches_key _ _ _ _ _ Hm Hx) as Hxi.
    rewrite (aget_Some _ _ _ Hxi). cbn [mbind res_bind].
    rewrite (update_Some h a nd nd); [|done|].
    2:{ rewrite aset_lt by lia. cbn [mbind res_bind].
        rewrite list_insert_id by done. by rewrite set_elems_id. }
    cbn [mbind res_bind]. rewrite list_insert_id by done.
    exists h. repeat split; done. }
  rewrite Hs. cbn [mbind res_bind]. rewrite key_search_notfound_pos.
  cbv zeta. rewrite key_search_decode.
  inversion Hwf as [? ? Hkl|? ? ? d' Hkl Hcs Hwkids]; subst.
  { (* a leaf *)
    rewrite (ains_leaf _ _ _ _ p) in Hains by done. simplify_eq.
    rewrite (aget_Some _ _ _ (node_matches_leaf_child _ _ p Hm ltac:(lia))).
    cbn [mbind res_bind].
    rewrite (insert_key_update h a nd p x) by (done || lia).
    cbn [mbind res_bind].
    eexists. split; [reflexivity|]. split; [|split; [by rewrite length_insert|split; [|done]]].
    - econstructor; [apply list_lookup_insert_eq; by eapply lookup_lt_Some| |constructor].
      eapply node_matches_insert_key; eauto. intros Hne; done.
    - intros b Hb Hnin. apply list_lookup_insert_ne. intros ->. apply Hnin. simpl. left. }
  (* an internal node: descend into child [p] *)
  destruct (node_cut ks cs p Hcs Hp) as (c & Hc & _).
  rewrite (ains_child _ _ _ _ _ p c) in Hains by done.
  rewrite Forall_lookup in IH, Hkids, Hwkids.
  destruct (NoDup_footprint_child _ _ _ _ _ Hnd Hc) as [Hndc Hac].
  pose proof (rep_bound _ _ Hrep0) as Hbound.
  pose proof (Forall_footprint_child _ _ _ _ _ _ Hbound Hc) as Hboundc.
  destruct (ains_shape c 2 d' x (length h))
    as (c' & nxt1 & rc & Hac' & Hwf' & Haddr & Hnxt & Hnd' & Hfp' & Hrt);
    [lia|eauto|done|done|].
  rewrite Hac' in Hains.
  destruct (IH p c Hc 2 d' h x prev fuel c' nxt1 rc)
    as (h1 & Hrun & Hrep1 & Hlen1 & Hframe1 & Hsame1); [lia|eauto|eauto|done|lia|done|].
  rewrite (aget_Some _ _ _ (node_matches_child _ _ _ _ _ Hm Hcs Hc)).
  cbn [mbind res_bind]. rewrite Hrun. cbn [mbind res_bind].
  destruct (rep_root _ _ Hrep1) as (cn' & Hcn' & Hm'). rewrite Haddr in Hcn'.
  rewrite (load_Some _ _ _ Hcn'). cbn [mbind res_bind].
  pose proof Hm' as (Hnn' & Hes' & Hch' & _).
  rewrite Hnn'. change (2 * 2) with 4.
  pose proof (lookup_lt_Some _ _ _ Hh) as Hal.
  assert (Hh1a : h1 !! a = Some nd).
  { rewrite Hframe1; done. }
  assert (Hsib : forall j cj, cs !! j = Some cj -> j <> p -> rep h1 cj).
  { intros j cj Hj Hjp. eapply rep_frame; [eauto|].
    intros b Hb. apply Hframe1.
    - pose proof (Forall_footprint_child _ _ _ _ _ _ Hbound Hj) as Hbj.
      rewrite Forall_forall in Hbj. by apply Hbj.
    - by eapply (footprint_siblings_disjoint a ks cs j p cj c). }
  assert (Hnota : forall j cj, cs !! j = Some cj -> a ∉ footprint cj).
  { intros j cj Hj. by destruct (NoDup_footprint_child _ _ _ _ _ Hnd Hj). }
  destruct (length (akeys c') <=? 4) eqn:Hov.
  - (* the child did not overflow *)
    simplify_eq. exists h1. split; [done|]. split.
    { econstructor; [exact Hh1a| |].
      - split; [done|]. split; [done|]. split; [done|]. split; [done|]. split.
        + intros Hnil. apply (f_equal length) in Hnil. rewrite length_insert in Hnil.
          rewrite Hcs in Hnil. done.
        + intros _. rewrite list_fmap_insert, Haddr, list_insert_id.
          * apply Hint. intros ->. done.
          * by rewrite list_lookup_fmap, Hc.
      - apply Forall_lookup. intros j cj Hj.
        destruct (decide (j = p)) as [->|Hne].
        + rewrite list_lookup_insert_eq in Hj by (by eapply lookup_lt_Some). by simplify_eq.
        + rewrite list_lookup_insert_ne in Hj by done. eauto. }
    split; [done|]. split.
    { intros b Hb Hnin. apply Hframe1; [done|]. intros Hin. apply Hnin.
      by eapply footprint_child_subset. }
    intros ->. by apply Hsame1.
  - (* the child holds five keys: split it and insert the promoted key *)
    apply Nat.leb_gt in Hov.
    assert (Hlen5 : length (akeys c') = 5) by (apply wf_keys in Hwf'; lia).
    assert (rc = false) as ->.
    { destruct rc; [|done]. destruct (Hrt eq_refl) as [-> _].
      specialize (Hwkids p c Hc). apply wf_keys in Hwkids. lia. }
    destruct (asplit nxt1 c') as [[l m] r'] eqn:Hsp.
    destruct (asplit_wf _ _ _ _ _ _ _ Hwf' Hlen5 Hsp)
      as (Hwl & Hwr & _ & Haddrl & Haddrr & _).
    simplify_eq.
    assert (Hca : addr c <> a).
    { intros Heq. apply Hac. rewrite <- Heq. apply addr_in_footprint. }
    destruct (bt_split_node_spec h1 a p nd (addr c) cn' Hh1a
                (node_matches_child _ _ _ _ _ Hm Hcs Hc) Hcn' Hca)
      as (h2 & m' & Hsplit & Hm2 & Hlen2 & Hh2a & Hh2c & Hh2s & Hframe2); [lia..|].
    rewrite Hsplit. cbn [mbind res_bind].
    destruct c' as [a' ks' cs']. cbn [addr akeys akids] in *. subst a'.
    cbn [asplit] in Hsp. simplify_eq.
    assert (nth 2 ks' 0%Z = m') as ->.
    { apply nth_lookup_Some. rewrite <- Hm2.
      destruct Hm' as (_ & _ & _ & Hks' & _). rewrite <- Hks' at 1.
      rewrite Hlen5. apply lookup_take_lt. lia. }
    rewrite (insert_key_update h2 a _ p m' Hh2a);
      cbn [set_children bnode_n bnode_elems bnode_children]; [|lia..].
    cbn [mbind res_bind].
    eexists. split; [reflexivity|].
    set (h3 := <[a := _]> h2).
    assert (Hfr3 : forall b, b <> a -> b <> addr c -> b < length h1 -> h3 !! b = h1 !! b).
    { intros b ? ? ?. unfold h3. rewrite list_lookup_insert_ne by done. by apply Hframe2. }
    assert (Hkidsc' : forall k, k ∈ cs' -> rep h3 k).
    { intros k Hk. apply list_elem_of_lookup in Hk as [j Hj].
      apply rep_inv in Hrep1 as (? & _ & _ & Hkids1).
      rewrite Forall_lookup in Hkids1. eapply rep_frame; [eauto|].
      intros b Hb. apply Hfr3.
      - intros ->. rewrite Forall_forall in Hfp'.
        destruct (Hfp' a) as [?|?]; [by eapply footprint_child_subset|done|lia].
      - intros ->. by destruct (NoDup_footprint_child _ _ _ _ _ Hnd' Hj).
      - pose proof (rep_bound _ _ (Hkids1 _ _ Hj)) as Hbk.
        rewrite Forall_forall in Hbk. by apply Hbk. }
    assert (Hkc' : cs' = [] \/ length cs' = 6).
    { apply wf_kids in Hwf'. simpl in Hwf'. rewrite Hlen5 in Hwf'. done. }
    split.
    { econstructor.
      - unfold h3. apply list_lookup_insert_eq. rewrite Hlen2. lia.
      - destruct (split_children_matches nd ks cs p c
                    (ANode (addr c) (take 2 ks') (take 3 cs'))
                    (ANode (length h1) (drop 3 ks') (drop 3 cs')) (length h1))
          as [Hl6 Htk]; try done.
        apply (node_matches_insert_key nd ks cs p m' _ _ Hm Hp Hn4 Hl6).
        + intros Hnil. by destruct (take p cs).
        + intros _. exact Htk.
      - apply Forall_app. split; [|constructor; [|constructor]].
        + apply Forall_lookup. intros j cj Hj.
          apply lookup_take_Some in Hj as [Hj Hjp].
          eapply rep_frame; [apply (Hsib j cj Hj); lia|].
          intros b Hb. apply Hfr3.
          * intros ->. by apply (Hnota j cj Hj).
          * intros ->. eapply (footprint_siblings_disjoint a ks cs p j c cj);
              eauto; [lia|apply addr_in_footprint].
          * pose proof (rep_bound _ _ (Hsib j cj Hj ltac:(lia))) as Hbj.
            rewrite Forall_forall in Hbj. by apply Hbj.
        + econstructor.
          * unfold h3. rewrite list_lookup_insert_ne by done. exact Hh2c.
          * by apply split_left_matches.
          * apply Forall_forall. intros k Hk. apply Hkidsc'.
            apply elem_of_take in Hk as (i & Hi & _). by eapply list_elem_of_lookup_2.
        + econstructor.
          * unfold h3. rewrite list_lookup_insert_ne by lia. exact Hh2s.
          * by apply split_sibling_matches.
          * apply Forall_forall. intros k Hk. apply Hkidsc'.
            by apply (subseteq_drop 3 cs').
        + apply Forall_lookup. intros j cj Hj.
          rewrite lookup_drop in Hj.
          eapply rep_frame; [apply (Hsib _ cj Hj); lia|].
          intros b Hb. apply Hfr3.
          * intros ->. by apply (Hnota _ cj Hj).
          * intros ->. eapply (footprint_siblings_disjoint a ks cs p (S p + j) c cj);
              eauto; [lia|apply addr_in_footprint].
          * pose proof (rep_bound _ _ (Hsib _ cj Hj ltac:(lia))) as Hbj.
            rewrite Forall_forall in Hbj. by apply Hbj. }
    split; [unfold h3; rewrite length_insert; lia|].
    split; [|done].
    intros b Hb Hnin. rewrite Hfr3.
    + apply Hframe1; [done|]. intros Hin. apply Hnin. by eapply footprint_child_subset.
    + intros ->. apply Hnin. simpl. left.
    + intros ->. apply Hnin. eapply footprint_child_subset; [done|apply addr_in_footprint].
    + lia.
Qed.

(** The two halves of a split node in a store [h2] that agrees with [h1]
    on the children of the node. *)
Lemma split_rep h1 h2 c' cn' lo d sib l m r :
  rep h1 c' -> NoDup (footprint c') -> wf lo 5 d c' -> length (akeys c') = 5 ->
  h1 !! addr c' = Some cn' ->
  h2 !! addr c' = Some (mk_bnode 2 (bnode_elems cn') (bnode_children cn')) ->
  h2 !! sib = Some (split_sibling cn') ->
  (forall b, b <> addr c' -> b < length h1 -> h2 !! b = h1 !! b) ->
  asplit sib c' = (l, m, r) ->
  rep h2 l /\ rep h2 r /\ bnode_elems cn' !! 2 = Some m.
Proof.
  intros Hrep Hnd Hwf Hlen5 Hcn Hl Hr Hframe Hsp.
  destruct c' as [a' ks' cs']. cbn [addr akeys] in *.
  apply rep_inv in Hrep as (cn & Hcn0 & Hm & Hkids). simplify_eq.
  assert (Hkc' : cs' = [] \/ length cs' = 6).
  { apply wf_kids in Hwf. simpl in Hwf. by rewrite Hlen5 in Hwf. }
  assert (Hk : forall k, k ∈ cs' -> rep h2 k).
  { intros k Hk. apply list_elem_of_lookup in Hk as [j Hj].
    rewrite Forall_lookup in Hkids. eapply rep_frame; [eauto|].
    intros b Hb. apply Hframe.
    - intros ->. by destruct (NoDup_footprint_child _ _ _ _ _ Hnd Hj).
    - pose proof (rep_bound _ _ (Hkids _ _ Hj)) as Hbk.
      rewrite Forall_forall in Hbk. by apply Hbk. }
  cbn [asplit] in Hsp. simplify_eq. split; [|split].
  - econstructor; [exact Hl|by apply split_left_matches|].
    apply Forall_forall. intros k Hk'. apply Hk.
    apply elem_of_take in Hk' as (i & Hi & _). by eapply list_elem_of_lookup_2.
  - econstructor; [exact Hr|by apply split_sibling_matches|].
    apply Forall_forall. intros k Hk'. apply Hk. by apply (subseteq_drop 3 cs').
  - destruct Hm as (_ & Hes & _ & Hks' & _).
    destruct (lookup_lt_is_Some_2 (bnode_elems cn) 2) as [m Hm]; [lia|].
    rewrite Hm. f_equal. symmetry. apply nth_lookup_Some. rewrite <- Hm.
    rewrite <- Hks' at 1. rewrite Hlen5. apply lookup_take_lt. lia.
Qed.

(* ================================================================== *)
(** ** [bt_insert] on the store *)
(* ================================================================== *)

Lemma atree_insert_shape x ot nxt t' nxt' r :
  match ot with
  | None => True
  | Some t => (exists d, wf 1 4 d t) /\ NoDup (footprint t) /\
              Forall (fun a => a < nxt) (footprint t)
  end ->
  atree_insert x ot nxt = (t', nxt', r) ->
  (exists d, wf 1 4 d t') /\ NoDup (footprint t') /\
  Forall (fun a => a < nxt') (footprint t') /\ nxt <= nxt' /\
  (r = true -> ot = Some t' /\ nxt' = nxt).
Proof.
  destruct ot as [t|]; simpl.
  2:{ intros _ ?. simplify_eq. split; [exists 1; constructor; simpl; lia|].
      simpl. split; [apply NoDup_singleton|]. split; [repeat constructor; lia|].
      split; [lia|done]. }
  intros ([d Hwf] & Hnd & Hlt) Hins.
  destruct (ains_shape t 1 d x nxt)
    as (t1 & nxt1 & r1 & Hains & Hwf1 & Haddr & Hnxt & Hnd1 & Hfp1 & Hrt); [lia|done..|].
  rewrite Hains in Hins.
  assert (Hlt1 : Forall (fun a => a < nxt1) (footprint t1)).
  { rewrite Forall_forall in Hfp1, Hlt |- *. intros b Hb.
    destruct (Hfp1 b Hb) as [Hin|?]; [apply Hlt in Hin|]; lia. }
  destruct (4 <? length (akeys t1)) eqn:Hov.
  - apply Nat.ltb_lt in Hov.
    assert (Hlen5 : length (akeys t1) = 5) by (apply wf_keys in Hwf1; lia).
    destruct (asplit (S nxt1) t1) as [[l m] r'] eqn:Hsp.
    destruct (asplit_wf _ _ _ _ _ _ _ Hwf1 Hlen5 Hsp) as (Hwl & Hwr & _ & _ & _ & Hperm).
    simplify_eq. split; [exists (S d); constructor; simpl; auto; lia|].
    assert (Hfp : footprint (ANode nxt1 [m] [l; r']) ≡ₚ nxt1 :: S nxt1 :: footprint t1).
    { simpl. rewrite app_nil_r. by rewrite Hperm. }
    rewrite Hfp. split; [|split; [|split; [lia|]]].
    + rewrite Forall_forall in Hlt1.
      apply NoDup_cons. split.
      { rewrite elem_of_cons. intros [?|Hin]; [lia|]. apply Hlt1 in Hin. lia. }
      apply NoDup_cons. split; [|done]. intros Hin. apply Hlt1 in Hin. lia.
    + constructor; [lia|]. constructor; [lia|].
      eapply Forall_impl; [exact Hlt1|]. simpl. lia.
    + intros ->. destruct (Hrt eq_refl) as [-> _]. apply wf_keys in Hwf. lia.
  - simplify_eq. split; [|split; [done|split; [done|split; [done|]]]].
    + exists d. eapply wf_tighten; [exact Hwf1|]. apply Nat.ltb_ge in Hov. lia.
    + intros ->. by destruct (Hrt eq_refl) as [-> ->].
Qed.

Lemma wf_height lo hi d t : wf lo hi d t -> height t = d.
Proof.
  revert lo hi d. induction t as [a ks cs IH] using atree_ind'.
  intros lo hi d Hwf. inversion Hwf as [|? ? ? d' Hks Hcs Hkids]; subst; [done|].
  simpl. f_equal.
  assert (Hall : Forall (fun n => n = d') (height <$> cs)).
  { apply Forall_fmap. rewrite Forall_forall in IH, Hkids |- *.
    intros c Hc. simpl. eapply IH; eauto. }
  destruct cs as [|c cs]; [done|]. clear -Hall.
  simpl in *. apply Forall_cons in Hall as [-> Hall].
  induction Hall as [|n l -> _ IHl]; simpl; lia.
Qed.

(** [bt_insert] follows [atree_insert], and writes only nodes of the tree
    and nodes it allocates. *)
Lemma bt_insert_refines_frame h t ot x prev fuel t' nxt' r :
  tree_ok h t ot ->
  (forall tr, ot = Some tr -> height tr <= fuel) ->
  atree_insert x ot (length h) = (t', nxt', r) ->
  exists h',
    bt_insert fuel h t x prev
      = Ok (h', mk_bt (Some (addr t')) (bt_size t), r, prev_after r x prev) /\
    tree_ok h' (mk_bt (Some (addr t')) (bt_size t)) (Some t') /\
    length h' = nxt' /\
    (r = true -> h' = h /\ bt_root t = Some (addr t')) /\
    (forall b, b < length h -> b ∉ nodes_of ot -> h' !! b = h !! b).
Proof.
  intros Hok Hfuel Hins.
  assert (Hshape : match ot with
                   | None => True
                   | Some t0 => (exists d, wf 1 4 d t0) /\ NoDup (footprint t0) /\
                                Forall (fun a => a < length h) (footprint t0)
                   end).
  { destruct ot as [tr|]; [|done]. destruct Hok as (_ & Hrep & Hnd & Hwf).
    split; [done|]. split; [done|]. by apply rep_bound. }
  destruct (atree_insert_shape _ _ _ _ _ _ Hshape Hins) as (Hwf' & Hnd' & _ & _ & Hrt).
  unfold bt_insert. destruct ot as [tr|]; simpl in Hok.
  2:{ (* the empty tree *)
    rewrite Hok. simpl in Hins. simplify_eq. cbn [mbind res_bind].
    unfold calloc_bnode.
    rewrite (update_Some (h ++ [bnode_zero]) (length h) bnode_zero
               (mk_bnode 1 (bnode_elems bnode_zero) (bnode_children bnode_zero)));
      [|by apply list_lookup_middle|done].
    cbn [mbind res_bind].
    erewrite update_Some;
      [|apply list_lookup_insert_eq; rewrite length_app; simpl; lia|reflexivity].
    cbn [mbind res_bind].
    erewrite update_Some;
      [|apply list_lookup_insert_eq; rewrite length_insert, length_app; simpl; lia
       |reflexivity].
    cbn [mbind res_bind].
    eexists. split; [reflexivity|]. split; [|split; [|split; [done|]]].
    - split; [done|]. split; [|done].
      econstructor; [apply list_lookup_insert_eq;
                     rewrite !length_insert, length_app; simpl; lia| |constructor].
      repeat split; done.
    - rewrite !length_insert, length_app. simpl. lia.
    - intros b Hb _. rewrite !list_lookup_insert_ne by lia. by rewrite lookup_app_l. }
  destruct Hok as (Hroot & Hrep & Hnd & [d Hwf]).
  rewrite Hroot. simpl in Hins.
  pose proof (wf_height _ _ _ _ Hwf) as Hh.
  destruct (ains_shape tr 1 d x (length h))
    as (t1 & nxt1 & r1 & Hains & Hwf1 & Haddr & Hnxt & Hnd1 & Hfp1 & Hrt1);
    [lia|done|done|by apply rep_bound|].
  rewrite Hains in Hins.
  destruct (node_insert_refines tr 1 d h x prev fuel t1 nxt1 r1)
    as (h1 & Hrun & Hrep1 & Hlen1 & Hframe1 & Hsame1); [lia|done..| |done|].
  { rewrite <- Hh. by apply Hfuel. }
  rewrite Hrun. cbn [mbind res_bind].
  destruct (rep_root _ _ Hrep1) as (rn & Hrn & Hm1). rewrite Haddr in Hrn.
  rewrite (load_Some _ _ _ Hrn). cbn [mbind res_bind].
  pose proof Hm1 as (Hnn1 & Hes1 & Hch1 & _). rewrite Hnn1. change (2 * 2) with 4.
  destruct (4 <? length (akeys t1)) eqn:Hov.
  2:{ (* the root did not overflow *)
    simplify_eq. exists h1. rewrite Haddr.
    split; [destruct t as [rt sz]; simpl in *; by subst|].
    split; [|split; [done|split]].
    - split; [by rewrite Haddr|]. done.
    - intros ->. split; [by apply Hsame1|done].
    - done. }
  (* the root holds five keys: a new root above it *)
  apply Nat.ltb_lt in Hov.
  assert (Hlen5 : length (akeys t1) = 5) by (apply wf_keys in Hwf1; lia).
  destruct (asplit (S nxt1) t1) as [[l m] r'] eqn:Hsp. simplify_eq.
  unfold calloc_bnode.
  set (nr := length h1).
  rewrite (update_Some (h1 ++ [bnode_zero]) nr bnode_zero
             (mk_bnode 1 (bnode_elems bnode_zero) (bnode_children bnode_zero)));
    [|by apply list_lookup_middle|done].
  cbn [mbind res_bind].
  set (pn0 := mk_bnode 1 (bnode_elems bnode_zero) (bnode_children bnode_zero)).
  set (pn := mk_bnode 1 (replicate 5 0%Z) (<[0 := Some (addr tr)]> (replicate 6 None))).
  rewrite (update_Some (<[nr := pn0]> (h1 ++ [bnode_zero])) nr pn0 pn);
    [|apply list_lookup_insert_eq; rewrite length_app; simpl; lia|reflexivity].
  cbn [mbind res_bind].
  set (h4 := <[nr := pn]> (<[nr := pn0]> (h1 ++ [bnode_zero]))).
  assert (Hlen4 : length h4 = S nr).
  { unfold h4. rewrite !length_insert, length_app. simpl. lia. }
  assert (Hh4 : forall b, b < nr -> h4 !! b = h1 !! b).
  { intros b Hb. unfold h4. rewrite !list_lookup_insert_ne by lia.
    by rewrite lookup_app_l. }
  assert (Hh4n : h4 !! nr = Some pn).
  { unfold h4. apply list_lookup_insert_eq. rewrite length_insert, length_app. simpl. lia. }
  pose proof (lookup_lt_Some _ _ _ Hrn) as Hrl.
  destruct (bt_split_node_spec h4 nr 0 pn (addr tr) rn Hh4n)
    as (h5 & m' & Hsplit & Hm2 & Hlen5' & Hh5n & Hh5c & Hh5s & Hframe5);
    [done|by rewrite Hh4|unfold nr; lia|simpl; lia|simpl; lia|done|done|].
  rewrite Hsplit. cbn [mbind res_bind].
  erewrite (update_Some h5 nr _ _ _ Hh5n); [|reflexivity]. cbn [mbind res_bind].
  rewrite Hlen4 in Hh5s, Hlen5'.
  set (h6 := <[nr := _]> h5).
  destruct (split_rep h1 h6 t1 rn 1 _ (S nr) l m r' Hrep1 Hnd1 Hwf1 Hlen5)
    as (Hrl' & Hrr & Hm3).
  { by rewrite Haddr. }
  { rewrite Haddr. unfold h6. rewrite list_lookup_insert_ne by (unfold nr; lia). done. }
  { unfold h6. rewrite list_lookup_insert_ne by lia. done. }
  { intros b Hb1 Hb2. unfold h6. rewrite list_lookup_insert_ne by (unfold nr; lia).
    rewrite Hframe5; [by apply Hh4|unfold nr; lia|by rewrite <- Haddr|lia]. }
  { done. }
  assert (m' = m) as -> by congruence.
  destruct (asplit_wf _ _ _ _ _ _ _ Hwf1 Hlen5 Hsp) as (_ & _ & _ & Haddrl & Haddrr & _).
  exists h6. split; [done|]. split; [|split; [|split]].
  - split; [done|]. split; [|done].
    econstructor; [apply list_lookup_insert_eq; lia| |by repeat constructor].
    cbn [set_elems set_children bnode_n bnode_elems bnode_children pn].
    repeat split; try done.
    intros _. rewrite Hlen4. simpl. by rewrite Haddrl, Haddrr, Haddr.
  - unfold h6. rewrite length_insert. lia.
  - intros ->. destruct (Hrt1 eq_refl) as [-> _]. apply wf_keys in Hwf. lia.
  - intros b Hb Hnin. simpl in Hnin.
    assert (b <> addr tr) by (intros ->; apply Hnin, addr_in_footprint).
    unfold h6. rewrite list_lookup_insert_ne by (unfold nr; lia).
    rewrite Hframe5; [|unfold nr; lia|done|lia].
    rewrite Hh4 by (unfold nr; lia). by apply Hframe1.
Qed.

Lemma bt_insert_refines h t ot x prev fuel t' nxt' r :
  tree_ok h t ot ->
  (forall tr, ot = Some tr -> height tr <= fuel) ->
  atree_insert x ot (length h) = (t', nxt', r) ->
  exists h',
    bt_insert fuel h t x prev
      = Ok (h', mk_bt (Some (addr t')) (bt_size t), r, prev_after r x prev) /\
    tree_ok h' (mk_bt (Some (addr t')) (bt_size t)) (Some t') /\
    length h' = nxt' /\
    (r = true -> h' = h /\ bt_root t = Some (addr t')).
Proof.
  intros Hok Hfuel Hins.
  destruct (bt_insert_refines_frame h t ot x prev fuel t' nxt' r Hok Hfuel Hins)
    as (h' & ? & ? & ? & ? & _).
  by exists h'.
Qed.

(* ================================================================== *)
(** ** Order of the keys after [bt_insert] *)
(* ================================================================== *)

Lemma atree_insert_order x ot nxt t' nxt' r :
  match ot with
  | None => True
  | Some t => (exists d, wf 1 4 d t) /\ NoDup (footprint t) /\
              Forall (fun a => a < nxt) (footprint t)
  end ->
  StronglySorted Z.lt (keys_of ot) ->
  atree_insert x ot nxt = (t', nxt', r) ->
  (r = true /\ ot = Some t' /\ x ∈ keys_of ot) \/
  (r = false /\ ins_rel x (keys_of ot) (inorder t')).
Proof.
  destruct ot as [t|]; simpl.
  2:{ intros _ _ ?. simplify_eq. right. split; [done|].
      exists [], []. rewrite inorder_leaf. repeat split; constructor. }
  intros ([d Hwf] & Hnd & Hlt) Hs Hins.
  destruct (ains_shape t 1 d x nxt)
    as (t1 & nxt1 & r1 & Hains & Hwf1 & _); [lia|done..|].
  rewrite Hains in Hins.
  pose proof (ains_order t 1 d x nxt ltac:(lia) Hwf Hnd Hlt Hs t1 nxt1 r1 Hains) as Hord.
  destruct (4 <? length (akeys t1)) eqn:Hov.
  - apply Nat.ltb_lt in Hov.
    assert (Hlen5 : length (akeys t1) = 5) by (apply wf_keys in Hwf1; lia).
    destruct (asplit (S nxt1) t1) as [[l m] r'] eqn:Hsp.
    destruct (asplit_wf _ _ _ _ _ _ _ Hwf1 Hlen5 Hsp) as (_ & _ & Hin & _).
    simplify_eq.
    assert (inorder (ANode nxt1 [m] [l; r']) = inorder t1) as ->.
    { by rewrite Hin. }
    destruct Hord as [(-> & -> & _ & _)|Hord]; [|by right].
    apply wf_keys in Hwf. lia.
  - simplify_eq. destruct Hord as [(-> & -> & _ & ?)|?]; auto.
Qed.

(* ================================================================== *)
(** ** The invariants in the words of the specification *)
(* ================================================================== *)

Lemma wf_leaves_at lo hi d t : wf lo hi d t -> leaves_at d t.
Proof.
  revert lo hi d. induction t as [a ks cs IH] using atree_ind'.
  intros lo hi d Hwf. inversion Hwf as [|? ? ? d' Hks Hcs Hkids]; subst; [constructor|].
  destruct cs as [|c cs]; [done|]. constructor.
  rewrite Forall_forall in IH, Hkids |- *. intros k Hk. eapply IH; eauto.
Qed.

Lemma wf_fill_nonroot d t : wf 2 4 d t -> fill false t.
Proof.
  revert d. induction t as [a ks cs IH] using atree_ind'.
  intros d Hwf. inversion Hwf as [|? ? ? d' Hks Hcs Hkids]; subst.
  - constructor; [simpl; lia|constructor].
  - constructor; [simpl; lia|].
    rewrite Forall_forall in IH, Hkids |- *. intros k Hk. eapply IH; eauto.
Qed.

Lemma wf_fill_root lo d t : wf lo 4 d t -> fill true t.
Proof.
  intros Hwf. inversion Hwf as [|? ? ? d' Hks Hcs Hkids]; subst.
  - constructor; [simpl; lia|constructor].
  - constructor; [simpl; lia|].
    eapply Forall_impl; [exact Hkids|]. intros k. apply wf_fill_nonroot.
Qed.

Lemma wf_slots lo hi d t : wf lo hi d t -> slots t.
Proof.
  revert lo hi d. induction t as [a ks cs IH] using atree_ind'.
  intros lo hi d Hwf. inversion Hwf as [|? ? ? d' Hks Hcs Hkids]; subst.
  - constructor; [by left|constructor].
  - constructor; [by right|].
    rewrite Forall_forall in IH, Hkids |- *. intros k Hk. eapply IH; eauto.
Qed.

Lemma sorted_ordered lo hi d t :
  wf lo hi d t -> StronglySorted Z.lt (inorder t) -> ordered t.
Proof.
  revert lo hi d. induction t as [a ks cs IH] using atree_ind'.
  intros lo hi d Hwf Hs.
  pose proof (sorted_inorder_keys _ _ _ _ Hwf Hs) as Hsk. simpl in Hsk.
  inversion Hwf as [|? ? ? d' Hks Hcs Hkids]; subst.
  { constructor; [done| | |constructor]; intros i k c y _ Hc; done. }
  constructor; [done| | |].
  - intros i k c y Hk Hc Hy.
    assert (Hi : i <= length ks) by (apply lookup_lt_Some in Hk; lia).
    rewrite (inorder_cut a ks cs i c Hcs Hi Hc) in Hs.
    apply StronglySorted_app_1_r in Hs.
    eapply (StronglySorted_app_1_elem_of Z.lt); [exact Hs|exact Hy|].
    apply elem_of_zip_post_key.
    + rewrite length_fmap, !length_drop. lia.
    + apply (list_elem_of_lookup_2 _ 0). by rewrite lookup_drop, Nat.add_0_r.
  - intros i k c y Hk Hc Hy.
    assert (Hi : S i <= length ks) by (apply lookup_lt_Some in Hk; lia).
    rewrite (inorder_cut a ks cs (S i) c Hcs Hi Hc) in Hs.
    rewrite app_assoc in Hs. apply StronglySorted_app_1_l in Hs.
    eapply (StronglySorted_app_1_elem_of Z.lt); [exact Hs| |exact Hy].
    apply elem_of_zip_pre_key.
    + rewrite length_fmap, !length_take. lia.
    + apply elem_of_take. exists i. split; [done|lia].
  - rewrite Forall_lookup in IH, Hkids |- *. intros i c Hc.
    eapply (IH i c Hc); [eauto|].
    assert (Hi : i <= length ks) by (apply lookup_lt_Some in Hc; lia).
    rewrite (inorder_cut a ks cs i c Hcs Hi Hc) in Hs.
    apply StronglySorted_app_1_r in Hs. by apply StronglySorted_app_1_l in Hs.
Qed.

Lemma elem_of_interleave ls ks y :
  y ∈ interleave ls ks ->
  y ∈ ks \/ exists j l, ls !! j = Some l /\ y ∈ l.
Proof.
  revert ks. induction ls as [|l ls IH]; intros ks Hy.
  - rewrite interleave_nil in Hy. by left.
  - destruct ks as [|k ks]; simpl in Hy.
    + right. exists 0, l. done.
    + apply elem_of_app in Hy as [Hy|Hy]; [right; by exists 0, l|].
      apply elem_of_cons in Hy as [->|Hy]; [left; left|].
      destruct (IH ks Hy) as [Hk|(j & l' & Hj & Hl')].
      * left. by right.
      * right. by exists (S j), l'.
Qed.

Lemma interleave_sorted ls ks :
  length ls = S (length ks) ->
  Forall (StronglySorted Z.lt) ls -> StronglySorted Z.lt ks ->
  (forall i k l y, ks !! i = Some k -> ls !! i = Some l -> y ∈ l -> (y < k)%Z) ->
  (forall i k l y, ks !! i = Some k -> ls !! (S i) = Some l -> y ∈ l -> (k < y)%Z) ->
  StronglySorted Z.lt (interleave ls ks).
Proof.
  revert ls. induction ks as [|k ks IH]; intros ls Hlen Hls Hks Hlt Hgt.
  - destruct ls as [|l [|? ?]]; try done. simpl. by apply Forall_cons in Hls as [? _].
  - destruct ls as [|l ls]; [done|]. simpl in Hlen.
    apply Forall_cons in Hls as [Hl Hls]. apply StronglySorted_inv in Hks as [Hks Hk].
    rewrite Forall_forall in Hk.
    assert (Hrest : StronglySorted Z.lt (interleave ls ks)).
    { apply IH; [lia|done|done| |].
      - intros i k' l' y Hk' Hl' Hy. by apply (Hlt (S i) k' l' y).
      - intros i k' l' y Hk' Hl' Hy. by apply (Hgt (S i) k' l' y). }
    assert (Hall : Forall (Z.lt k) (interleave ls ks)).
    { apply Forall_forall. intros y Hy.
      destruct (elem_of_interleave _ _ _ Hy) as [Hyk|(j & l' & Hj & Hl')]; [by apply Hk|].
      destruct j as [|j].
      - by apply (Hgt 0 k l' y).
      - assert (Hjl : j < length ks) by (apply lookup_lt_Some in Hj; lia).
        destruct (lookup_lt_is_Some_2 ks j Hjl) as [kj Hkj].
        assert (k < kj)%Z by (apply Hk; by eapply list_elem_of_lookup_2).
        assert (kj < y)%Z by (by apply (Hgt (S j) kj l' y)). lia. }
    simpl. apply StronglySorted_app. split; [|split; [done|by constructor]].
    intros x1 x2 Hx1 Hx2.
    assert (x1 < k)%Z by (by apply (Hlt 0 k l x1)).
    apply elem_of_cons in Hx2 as [->|Hx2]; [done|].
    rewrite Forall_forall in Hall. specialize (Hall x2 Hx2). lia.
Qed.

(** The invariants on the keys of the nodes say the same as: the keys in
    order are strictly increasing. *)
Lemma ordered_sorted lo hi d t :
  wf lo hi d t -> ordered t -> StronglySorted Z.lt (inorder t).
Proof.
  revert lo hi d. induction t as [a ks cs IH] using atree_ind'.
  intros lo hi d Hwf Hord.
  inversion Hord as [? ? ? Hsk Hlt Hgt Hkids]; subst.
  inversion Hwf as [|? ? ? d' Hks Hcs Hwkids]; subst.
  { by rewrite inorder_leaf. }
  simpl. apply interleave_sorted; [by rewrite length_fmap| |done| |].
  - apply Forall_fmap. rewrite Forall_forall in IH, Hkids, Hwkids |- *.
    intros c Hc. simpl. eapply IH; eauto.
  - intros i k l y Hk Hl Hy. rewrite list_lookup_fmap in Hl.
    destruct (cs !! i) as [c|] eqn:Hc; [|done]. simpl in Hl. simplify_eq.
    by apply (Hlt i k c y).
  - intros i k l y Hk Hl Hy. rewrite list_lookup_fmap in Hl.
    destruct (cs !! S i) as [c|] eqn:Hc; [|done]. simpl in Hl. simplify_eq.
    by apply (Hgt i k c y).
Qed.

(* ================================================================== *)
(** ** Height of a tree of C [int]s *)
(* ================================================================== *)

Lemma interleave_length ls ks :
  length ls = S (length ks) ->
  length (interleave ls ks) = length ks + length (concat ls).
Proof.
  revert ks. induction ls as [|l ls IH]; intros ks Hlen; [done|].
  destruct ks as [|k ks]; simpl in *.
  - destruct ls; [|done]. simpl. rewrite app_nil_r. lia.
  - rewrite !length_app. simpl. rewrite IH by lia. lia.
Qed.

Lemma concat_length_ge (ls : list (list Z)) b :
  Forall (fun l => b <= length l) ls -> length ls * b <= length (concat ls).
Proof.
  induction 1 as [|l ls Hl _ IH]; simpl; [lia|]. rewrite length_app. lia.
Qed.

Lemma wf_count_inner d t :
  wf 2 4 d t -> (3 ^ Z.of_nat d - 1 <= Z.of_nat (length (inorder t)))%Z.
Proof.
  revert d. induction t as [a ks cs IH] using atree_ind'.
  intros d Hwf. inversion Hwf as [|? ? ? d' Hks Hcs Hkids]; subst.
  - rewrite inorder_leaf. simpl. lia.
  - simpl inorder. rewrite interleave_length by (by rewrite length_fmap).
    rewrite Nat2Z.inj_succ, Z.pow_succ_r by lia.
    assert (Hpos : (0 < 3 ^ Z.of_nat d')%Z) by (apply Z.pow_pos_nonneg; lia).
    pose proof (concat_length_ge (inorder <$> cs) (Z.to_nat (3 ^ Z.of_nat d' - 1))) as Hc.
    rewrite length_fmap in Hc.
    assert (Hall : Forall (fun l => Z.to_nat (3 ^ Z.of_nat d' - 1) <= length l)
                     (inorder <$> cs)).
    { apply Forall_fmap. rewrite Forall_forall in IH, Hkids |- *. intros c Hc'. simpl.
      specialize (IH c Hc' d' (Hkids c Hc')). lia. }
    specialize (Hc Hall). rewrite Hcs in Hc. nia.
Qed.

Lemma wf_count_root d t :
  wf 1 4 d t -> (2 * 3 ^ (Z.of_nat d - 1) - 1 <= Z.of_nat (length (inorder t)))%Z.
Proof.
  intros Hwf. inversion Hwf as [|? ? ? d' Hks Hcs Hkids]; subst.
  - rewrite inorder_leaf. simpl. lia.
  - simpl inorder. rewrite interleave_length by (by rewrite length_fmap).
    replace (Z.of_nat (S d') - 1)%Z with (Z.of_nat d') by lia.
    assert (Hpos : (0 < 3 ^ Z.of_nat d')%Z) by (apply Z.pow_pos_nonneg; lia).
    pose proof (concat_length_ge (inorder <$> cs) (Z.to_nat (3 ^ Z.of_nat d' - 1))) as Hc.
    rewrite length_fmap in Hc.
    assert (Hall : Forall (fun l => Z.to_nat (3 ^ Z.of_nat d' - 1) <= length l)
                     (inorder <$> cs)).
    { apply Forall_fmap. rewrite Forall_forall in Hkids |- *. intros c Hc'. simpl.
      pose proof (wf_count_inner d' c (Hkids c Hc')). lia. }
    specialize (Hc Hall). rewrite Hcs in Hc. nia.
Qed.

Lemma sorted_range_length (l : list Z) lo hi :
  StronglySorted Z.lt l -> Forall (fun x => (lo <= x < hi)%Z) l ->
  (Z.of_nat (length l) <= Z.max 0 (hi - lo))%Z.
Proof.
  intros Hs. revert lo. induction Hs as [|x l Hs IH Hx]; intros lo Hr; simpl length; [lia|].
  apply Forall_cons in Hr as [Hxr Hr].
  assert (Hr' : Forall (fun y => (x + 1 <= y < hi)%Z) l).
  { rewrite Forall_forall in Hx, Hr |- *. intros y Hy.
    specialize (Hx y Hy). specialize (Hr y Hy). simpl in *. lia. }
  specialize (IH (x + 1)%Z Hr'). lia.
Qed.

(** A well-shaped tree of increasing C [int]s fits the iterator's stack. *)
Lemma wf_height_bound d t :
  wf 1 4 d t -> StronglySorted Z.lt (inorder t) -> Forall int_range (inorder t) ->
  d <= 32.
Proof.
  intros Hwf Hs Hr.
  pose proof (wf_count_root d t Hwf) as Hc.
  pose proof (sorted_range_length _ (- 2 ^ 31) (2 ^ 31) Hs Hr) as Hl.
  destruct (le_gt_dec d 32) as [|Hgt]; [done|exfalso].
  assert (3 ^ 32 <= 3 ^ (Z.of_nat d - 1))%Z as Hp by (apply Z.pow_le_mono_r; lia).
  assert (3 ^ 32 = 1853020188851841)%Z as Hp3 by reflexivity.
  assert (2 ^ 31 = 2147483648)%Z as Hp2 by reflexivity.
  lia.
Qed.

(* ================================================================== *)
(** ** Trees built by insertions *)
(* ================================================================== *)

Lemma built_height xs h t ot tr :
  built xs h t ot -> Forall int_range xs -> ot = Some tr -> height tr <= 32.
Proof.
  intros (Hok & Hs & Hkeys & _) Hr ->. simpl in *.
  destruct Hok as (_ & _ & _ & [d Hwf]).
  rewrite (wf_height _ _ _ _ Hwf). eapply wf_height_bound; eauto.
  rewrite Forall_forall in Hr |- *. intros y Hy. apply Hr. by apply Hkeys.
Qed.

Lemma built_shape xs h t ot :
  built xs h t ot ->
  match ot with
  | None => True
  | Some t0 => (exists d, wf 1 4 d t0) /\ NoDup (footprint t0) /\
               Forall (fun a => a < length h) (footprint t0)
  end.
Proof.
  intros (Hok & _). destruct ot as [tr|]; [|done].
  destruct Hok as (_ & Hrep & Hnd & Hwf). split; [done|]. split; [done|].
  by apply rep_bound.
Qed.

(** One [bt_insert] on a tree that holds the keys [xs]: what it returns,
    the tree afterwards, and the nodes it leaves alone. *)
Lemma bt_insert_step xs h t ot x prev fuel :
  built xs h t ot -> Forall int_range xs -> 32 <= fuel ->
  exists h' tr' r,
    atree_insert x ot (length h) = (tr', length h', r) /\
    bt_insert fuel h t x prev
      = Ok (h', mk_bt (Some (addr tr')) (bt_size t), r, prev_after r x prev) /\
    built (xs ++ [x]) h' (mk_bt (Some (addr tr')) (bt_size t)) (Some tr') /\
    (r = true <-> x ∈ xs) /\
    (r = true -> h' = h /\ mk_bt (Some (addr tr')) (bt_size t) = t /\ ot = Some tr') /\
    (r = false -> ins_rel x (keys_of ot) (inorder tr')) /\
    (forall b, b < length h -> b ∉ nodes_of ot -> h' !! b = h !! b).
Proof.
  intros Hb Hr Hfuel.
  pose proof (built_shape _ _ _ _ Hb) as Hshape.
  pose proof Hb as (Hok & Hs & Hkeys & Hklen).
  destruct (atree_insert x ot (length h)) as [[tr' nxt'] r] eqn:Hins.
  destruct (bt_insert_refines_frame h t ot x prev fuel tr' nxt' r Hok)
    as (h' & Hrun & Hok' & Hlen & Hsame & Hframe); [|done|].
  { intros tr Htr. pose proof (built_height _ _ _ _ _ Hb Hr Htr). lia. }
  pose proof (atree_insert_order _ _ _ _ _ _ Hshape Hs Hins) as Hord.
  exists h', tr', r. rewrite Hlen.
  split; [done|]. split; [done|].
  assert (Hkeys' : forall y, y ∈ inorder tr' <-> y ∈ xs ++ [x]).
  { intros y. rewrite elem_of_app, list_elem_of_singleton.
    destruct Hord as [(_ & -> & Hx)|(_ & Hrel)].
    - simpl in Hkeys, Hx. rewrite Hkeys. split; [auto|].
      intros [? | ->]; [done|]. by apply Hkeys.
    - rewrite (ins_rel_elem _ _ _ y Hrel), Hkeys. tauto. }
  split; [|split; [|split; [|split; [|done]]]].
  - split; [done|]. split; [|split; [done|]]; simpl.
    + destruct Hord as [(_ & -> & _)|(_ & Hrel)]; [done|].
      by eapply ins_rel_sorted.
    + rewrite length_app. simpl.
      destruct Hord as [(_ & -> & _)|(_ & Hrel)]; [simpl in Hklen; lia|].
      rewrite (ins_rel_length _ _ _ Hrel). lia.
  - destruct Hord as [(-> & -> & Hx)|(-> & Hrel)].
    + split; [intros _|done]. by apply Hkeys.
    + split; [done|]. intros Hx. apply Hkeys in Hx.
      by apply ins_rel_notin in Hrel.
  - intros ->. destruct (Hsame eq_refl) as [-> Hroot].
    destruct Hord as [(_ & -> & _)|(? & _)]; [|done].
    split; [done|]. split; [|done]. destruct t as [rt sz]. simpl in *. by subst.
  - intros ->. by destruct Hord as [(? & _)|(_ & ?)].
Qed.

Lemma bt_insert_built xs h t ot x prev fuel :
  built xs h t ot -> Forall int_range xs -> 32 <= fuel ->
  exists h' t' tr' r,
    bt_insert fuel h t x prev = Ok (h', t', r, prev_after r x prev) /\
    built (xs ++ [x]) h' t' (Some tr') /\
    (r = true <-> x ∈ xs) /\
    (r = true -> h' = h /\ t' = t /\ ot = Some tr') /\
    (r = false -> ins_rel x (keys_of ot) (inorder tr')) /\
    bt_size t' = bt_size t.
Proof.
  intros Hb Hr Hfuel.
  destruct (bt_insert_step xs h t ot x prev fuel Hb Hr Hfuel)
    as (h' & tr' & r & _ & Hrun & Hb' & Hrx & Hsame & Hrel & _).
  by exists h', (mk_bt (Some (addr tr')) (bt_size t)), tr', r.
Qed.

Lemma bt_insert_all_built calls : forall pre h t ot fuel,
  built pre h t ot -> Forall int_range (pre ++ calls.*1) -> 32 <= fuel ->
  exists h' t' ot',
    bt_insert_all fuel h t calls = Ok (h', t') /\ built (pre ++ calls.*1) h' t' ot' /\
    bt_size t' = bt_size t.
Proof.
  induction calls as [|[x prev] calls IH]; intros pre h t ot fuel Hb Hr Hfuel.
  - simpl. rewrite app_nil_r. by exists h, t, ot.
  - rewrite fmap_cons in Hr |- *. cbn [fst] in Hr |- *. cbn [bt_insert_all].
    destruct (bt_insert_built pre h t ot x prev fuel Hb)
      as (h1 & t1 & tr1 & r & Hrun & Hb1 & _ & _ & _ & Hsz1); [|done|].
    { apply Forall_app in Hr. tauto. }
    rewrite Hrun. cbn [mbind res_bind].
    replace (pre ++ x :: calls.*1) with ((pre ++ [x]) ++ calls.*1) in *
      by (by rewrite <- app_assoc).
    destruct (IH (pre ++ [x]) h1 t1 (Some tr1) fuel Hb1 Hr Hfuel)
      as (h' & t' & ot' & Hrun' & Hb' & Hsz').
    exists h', t', ot'. split; [done|]. split; [done|]. congruence.
Qed.

Lemma built_empty : built [] [] bt_mk None.
Proof. repeat split; try done; constructor. Qed.

Lemma bt_build_built calls fuel :
  Forall int_range calls.*1 -> 32 <= fuel ->
  exists h t ot, bt_build fuel calls = Ok (h, t) /\ built calls.*1 h t ot /\
    bt_size t = 0.
Proof.
  intros Hr Hfuel. unfold bt_build.
  by apply (bt_insert_all_built calls [] [] bt_mk None fuel built_empty).
Qed.

(* ================================================================== *)
(** ** Lookup *)
(* ================================================================== *)

Lemma not_elem_of_split (x : Z) l1 l2 :
  Forall (fun k => (k < x)%Z) l1 -> Forall (fun k => (x < k)%Z) l2 -> x ∉ l1 ++ l2.
Proof.
  rewrite !Forall_forall. intros H1 H2 Hin.
  apply elem_of_app in Hin as [Hin|Hin]; [apply H1 in Hin|apply H2 in Hin]; lia.
Qed.

Lemma lookup_loop_S fuel' h a elem node :
  lookup_loop (S fuel') h (Some a) elem node =
    (let node' := match node with Some _ => Some (Some a) | None => None end in
     nd ← load h (Some a);
     idx ← bt_node_bsearch nd elem;
     if (0 <=? idx)%Z then Ok (Some (a, Z.to_nat idx), node')
     else
       next ← aget (bnode_children nd) (Z.to_nat (- idx - 1));
       lookup_loop fuel' h next elem node').
Proof. reflexivity. Qed.

Lemma lookup_loop_spec t : forall lo d h x fuel,
  1 <= lo -> wf lo 4 d t -> rep h t -> StronglySorted Z.lt (inorder t) -> d <= fuel ->
  match lookup_loop fuel h (Some (addr t)) x None with
  | Ok (res, None) =>
      (x ∈ inorder t /\ exists p, res = Some p /\ stored_at h t p /\ deref h p = Ok x) \/
      ((x ∉ inorder t) /\ res = None)
  | _ => False
  end.
Proof.
  induction t as [a ks cs IH] using atree_ind'.
  intros lo d h x fuel Hlo Hwf Hrep Hsort Hfuel.
  pose proof (wf_depth_pos _ _ _ _ Hwf) as Hd.
  destruct fuel as [|fuel]; [lia|].
  assert (Hn : 1 <= length ks) by (apply wf_keys in Hwf; simpl in Hwf; lia).
  assert (Hn4 : length ks <= 4) by (apply wf_keys in Hwf; simpl in Hwf; lia).
  pose proof (sorted_inorder_keys _ _ _ _ Hwf Hsort) as Hsk. simpl in Hsk.
  apply rep_inv in Hrep as (nd & Hh & Hm & Hkids).
  pose proof Hm as (Hnn & Hes & Hch & Hks & Hleaf & Hint).
  cbn [addr]. rewrite lookup_loop_S. cbv zeta.
  pose proof (load_Some _ _ _ Hh) as E. rewrite E. cbn [mbind res_bind].
  rewrite (bsearch_key_search nd ks x Hn Hnn Hks).
  destruct (key_search_sorted ks x Hsk Hn)
    as [(i & Hs & Hi & Hx)|(p & Hs & Hp & Hlo1 & Hhi1)].
  { rewrite Hs. cbn [mbind res_bind].
    assert ((0 <=? Z.of_nat i)%Z = true) as -> by (apply Z.leb_le; lia).
    rewrite Nat2Z.id. left. split.
    - simpl. apply elem_of_interleave_key.
      + apply wf_kids in Hwf as [Hk|Hk]; simpl in Hk; [left; by rewrite Hk|right].
        by rewrite length_fmap.
      + by eapply list_elem_of_lookup_2.
    - exists (a, i). split; [done|]. split.
      + split; [simpl; left|]. exists nd. simpl. split; [done|lia].
      + unfold deref. cbn [fst snd]. rewrite E. cbn [mbind res_bind].
        apply aget_Some. by eapply node_matches_key. }
  rewrite Hs. cbn [mbind res_bind]. rewrite key_search_notfound_pos, key_search_decode.
  inversion Hwf as [? ? Hkl|? ? ? d' Hkl Hcs Hwkids]; subst.
  { rewrite (aget_Some _ _ _ (node_matches_leaf_child _ _ p Hm ltac:(lia))).
    cbn [mbind res_bind].
    assert (lookup_loop fuel h None x None = Ok (None, None)) as -> by (by destruct fuel).
    right. split; [|done]. rewrite inorder_leaf, <- (take_drop p ks).
    by apply not_elem_of_split. }
  destruct (node_cut ks cs p Hcs Hp) as (c & Hc & _).
  rewrite (aget_Some _ _ _ (node_matches_child _ _ _ _ _ Hm Hcs Hc)).
  cbn [mbind res_bind].
  rewrite Forall_lookup in IH, Hkids, Hwkids.
  pose proof (inorder_cut a ks cs p c Hcs Hp Hc) as Hcut.
  rewrite Hcut in Hsort |- *.
  set (pre := zip_pre (inorder <$> take p cs) (take p ks)) in *.
  set (post := zip_post (drop p ks) (inorder <$> drop (S p) cs)) in *.
  assert (Hpre : Forall (fun k => (k < x)%Z) pre).
  { eapply zip_pre_below; [|exact Hsort|done].
    rewrite length_fmap, !length_take. lia. }
  assert (Hpost : Forall (fun k => (x < k)%Z) post).
  { apply zip_post_above; [|by do 2 apply StronglySorted_app_1_r in Hsort|done].
    rewrite length_fmap, !length_drop. lia. }
  assert (Hsc : StronglySorted Z.lt (inorder c)).
  { apply StronglySorted_app_1_r in Hsort. by apply StronglySorted_app_1_l in Hsort. }
  specialize (IH p c Hc 2 d' h x fuel ltac:(lia) ltac:(eauto) ltac:(eauto) Hsc ltac:(lia)).
  destruct (lookup_loop fuel h (Some (addr c)) x None) as [[res [|]]|]; try done.
  rewrite Forall_forall in Hpre, Hpost.
  destruct IH as [(Hin & q & -> & (Hq1 & Hq2) & Hq3)|(Hnin & ->)]; [left|right].
  - split; [rewrite !elem_of_app; auto|]. exists q. split; [done|]. split; [|done].
    split; [|done]. by eapply footprint_child_subset.
  - split; [|done]. rewrite !elem_of_app. intros [Hx|[Hx|Hx]]; [|done|].
    + apply Hpre in Hx. lia.
    + apply Hpost in Hx. lia.
Qed.

(** [bt_lookup] on a tree that satisfies the invariants. *)
Lemma bt_lookup_valid h t ot x fuel :
  tree_ok h t ot -> keys_ordered ot -> height_of ot <= fuel ->
  (x ∈ keys_of ot /\
   exists tr p, ot = Some tr /\ bt_lookup fuel h t x = Ok (Some p) /\
                stored_at h tr p /\ deref h p = Ok x) \/
  ((x ∉ keys_of ot) /\ bt_lookup fuel h t x = Ok None).
Proof.
  intros Hok Hord Hfuel. unfold bt_lookup, bt_lookup_node.
  destruct ot as [tr|]; simpl in Hok, Hord, Hfuel.
  2:{ rewrite Hok. right. split; [apply not_elem_of_nil|]. by destruct fuel. }
  destruct Hok as (Hroot & Hrep & Hnd & [d Hwf]). rewrite Hroot.
  pose proof (ordered_sorted _ _ _ _ Hwf Hord) as Hs.
  rewrite (wf_height _ _ _ _ Hwf) in Hfuel.
  pose proof (lookup_loop_spec tr 1 d h x fuel ltac:(lia) Hwf Hrep Hs Hfuel) as Hl.
  destruct (lookup_loop fuel h (Some (addr tr)) x None) as [[res [?|]]|]; try done.
  cbn [mbind res_bind fst]. simpl keys_of.
  destruct Hl as [(Hin & p & -> & Hst & Hp)|(Hnx & ->)]; [left|right]; [|done].
  split; [done|]. by exists tr, p.
Qed.

Lemma bt_lookup_found h t ot x fuel :
  tree_ok h t ot -> keys_ordered ot -> height_of ot <= fuel ->
  found (bt_lookup fuel h t x) = true <-> x ∈ keys_of ot.
Proof.
  intros Hok Hord Hfuel.
  destruct (bt_lookup_valid h t ot x fuel Hok Hord Hfuel)
    as [(Hin & tr & p & _ & -> & _)|(Hnin & ->)]; simpl; [done|].
  split; [done|]. intros Hin. by destruct Hnin.
Qed.

Lemma built_ordered xs h t ot : built xs h t ot -> keys_ordered ot.
Proof.
  intros (Hok & Hs & _). destruct ot as [tr|]; [|done]. simpl in *.
  destruct Hok as (_ & _ & _ & [d Hwf]). by eapply sorted_ordered.
Qed.

(* ================================================================== *)
(** ** The iterator *)
(* ================================================================== *)

Lemma iter_loop_S fuel' h iter fp visited_child :
  iter_loop (S fuel') h iter fp visited_child =
    (fr ← aget (iter_stack iter) fp;
     match frame_node fr with
     | None => Ok (iter, None)
     | Some a =>
         nd ← load h (frame_node fr);
         if bnode_n nd <? frame_i fr then
           if iter_top iter =? 1 then Ok (iter, None)
           else
             match fp with
             | 0 => Err OutOfBounds
             | S fp' => iter_loop fuel' h (mk_iter (iter_top iter - 1) (iter_stack iter)) fp' true
             end
         else
           c ← aget (bnode_children nd) (frame_i fr);
           match c, visited_child with
           | Some _, false =>
               st ← aset (iter_stack iter) (fp + 1) (mk_frame 0 c);
               iter_loop fuel' h (mk_iter (iter_top iter + 1) st) (fp + 1) false
           | _, _ =>
               st ← aset (iter_stack iter) fp (mk_frame (frame_i fr + 1) (frame_node fr));
               if frame_i fr <? bnode_n nd
               then Ok (mk_iter (iter_top iter) st, Some (a, frame_i fr))
               else iter_loop fuel' h (mk_iter (iter_top iter) st) fp visited_child
           end
     end).
Proof. reflexivity. Qed.

Lemma seq_from_0 lo hi d t : wf lo hi d t -> seq_from t 0 = inorder t.
Proof. intros _. by destruct t. Qed.

Lemma seq_from_end lo hi d t i :
  wf lo hi d t -> length (akeys t) < i -> seq_from t i = [].
Proof.
  intros Hwf Hi. unfold seq_from.
  rewrite !drop_ge; [done|lia|].
  rewrite length_fmap. destruct (wf_kids _ _ _ _ Hwf) as [-> | ->]; simpl; lia.
Qed.

Lemma seq_after_end t i : length (akeys t) <= i -> seq_after t i = [].
Proof. intros Hi. unfold seq_after. by rewrite lookup_ge_None_2. Qed.

Lemma seq_from_leaf a ks i : seq_from (ANode a ks []) i = drop i ks.
Proof. unfold seq_from. simpl. rewrite drop_nil. apply interleave_nil. Qed.

Lemma seq_after_key t i k : akeys t !! i = Some k -> seq_after t i = k :: seq_from t (S i).
Proof. unfold seq_after. by intros ->. Qed.

Lemma seq_from_leaf_key a ks i k :
  ks !! i = Some k -> seq_from (ANode a ks []) i = k :: seq_from (ANode a ks []) (S i).
Proof. intros Hk. rewrite !seq_from_leaf. by apply drop_S. Qed.

Lemma seq_from_child lo hi d t i c :
  wf lo hi d t -> akids t !! i = Some c -> seq_from t i = inorder c ++ seq_after t i.
Proof.
  intros Hwf Hc. destruct t as [a ks cs]. simpl in *.
  inversion Hwf as [|? ? ? d' Hks Hcs Hkids]; subst; [done|].
  unfold seq_from, seq_after. simpl.
  rewrite (drop_S (inorder <$> cs) (inorder c) i) by (by rewrite list_lookup_fmap, Hc).
  destruct (ks !! i) as [k|] eqn:Hk.
  - rewrite (drop_S ks k i Hk). simpl. done.
  - apply lookup_ge_None in Hk. apply lookup_lt_Some in Hc.
    assert (i = length ks) as -> by lia.
    rewrite !drop_ge by (rewrite ?length_fmap; lia). simpl. by rewrite app_nil_r.
Qed.

Lemma frames_ok_depth h D d fs : frames_ok h D d fs -> length fs + d = S D.
Proof. induction 1; simpl in *; lia. Qed.

Lemma frames_ok_top h D d s i below :
  frames_ok h D d ((s, i) :: below) ->
  rep h s /\ exists lo, 1 <= lo /\ wf lo 4 d s.
Proof. intros H. inversion H; subst; split; eauto. Qed.

Lemma frames_ok_cursor h D d s i i' below :
  frames_ok h D d ((s, i) :: below) -> frames_ok h D d ((s, i') :: below).
Proof. intros H. inversion H; subst; econstructor; eauto. Qed.

Lemma frames_ok_pop h D d f s i below :
  frames_ok h D d (f :: (s, i) :: below) ->
  frames_ok h D (S d) ((s, i) :: below) /\ i <= length (akeys s).
Proof.
  intros H. inversion H as [|? ? ? ? ? ? Hb Hc Hwf Hrep]; subst. split; [done|].
  apply frames_ok_top in Hb as (_ & lo & _ & Hwfs).
  apply lookup_lt_Some in Hc.
  destruct (wf_kids _ _ _ _ Hwfs) as [Hk|Hk]; rewrite Hk in Hc; simpl in Hc; lia.
Qed.

Lemma stack_holds_top iter s i below :
  stack_holds iter ((s, i) :: below) ->
  iter_stack iter !! length below = Some (mk_frame i (Some (addr s))).
Proof.
  intros (_ & _ & H). specialize (H 0 (s, i) eq_refl).
  replace (length ((s, i) :: below) - 1 - 0) with (length below) in H by (simpl; lia).
  exact H.
Qed.

Lemma stack_holds_pop iter f below :
  stack_holds iter (f :: below) ->
  stack_holds (mk_iter (iter_top iter - 1) (iter_stack iter)) below.
Proof.
  intros (Ht & Hl & H). unfold stack_holds. simpl in *.
  split; [lia|]. split; [done|].
  intros j g Hg. specialize (H (S j) g Hg).
  replace (length below - 0 - S j) with (length below - 1 - j) in H by lia. done.
Qed.

Lemma stack_holds_push iter fs f :
  stack_holds iter fs -> length fs < 32 ->
  stack_holds (mk_iter (iter_top iter + 1) (<[length fs := frame_of f]> (iter_stack iter)))
    (f :: fs).
Proof.
  intros (Ht & Hl & H) Hlt. unfold stack_holds. simpl.
  split; [lia|]. split; [by rewrite length_insert|].
  intros j g Hg. destruct j as [|j]; simpl in Hg.
  - simplify_eq. replace (length fs - 0 - 0) with (length fs) by lia.
    apply list_lookup_insert_eq. lia.
  - pose proof (lookup_lt_Some _ _ _ Hg).
    rewrite list_lookup_insert_ne by lia.
    replace (length fs - 0 - S j) with (length fs - 1 - j) by lia. by apply H.
Qed.

Lemma stack_holds_set iter s i i' below :
  stack_holds iter ((s, i) :: below) ->
  stack_holds (mk_iter (iter_top iter)
                 (<[length below := mk_frame i' (Some (addr s))]> (iter_stack iter)))
    ((s, i') :: below).
Proof.
  intros (Ht & Hl & H). unfold stack_holds. simpl in *.
  split; [done|]. split; [by rewrite length_insert|].
  intros j g Hg. destruct j as [|j]; simpl in Hg.
  - simplify_eq. replace (length below - 0 - 0) with (length below) by lia.
    apply list_lookup_insert_eq.
    specialize (H 0 (s, i) eq_refl). apply lookup_lt_Some in H. lia.
  - pose proof (lookup_lt_Some _ _ _ Hg).
    rewrite list_lookup_insert_ne by lia. by apply (H (S j)).
Qed.

Lemma frames_ok_nonempty h D d fs : frames_ok h D d fs -> fs <> [].
Proof. by inversion 1. Qed.

Lemma seq_from_leaf_after a ks i :
  seq_from (ANode a ks []) i = seq_after (ANode a ks []) i.
Proof.
  unfold seq_after. simpl. destruct (ks !! i) as [k|] eqn:Hk.
  - by apply seq_from_leaf_key.
  - rewrite seq_from_leaf. apply drop_ge. by apply lookup_ge_None.
Qed.

(** One call of the loop: it returns; NULL when nothing is left, and
    otherwise a pointer to the next element, leaving a stack that stands
    for the elements after it. *)
Lemma iter_loop_spec fuel : forall h iter D d fs visited,
  frames_ok h D d fs -> D <= 32 -> stack_holds iter fs ->
  iter_measure visited d fs < fuel ->
  match iter_loop fuel h iter (length fs - 1) visited with
  | Ok (iter', r) =>
      match (if visited then rem_below fs else rem_unvisited fs) with
      | [] => r = None
      | x :: R =>
          exists p d' fs', r = Some p /\ deref h p = Ok x /\
            frames_ok h D d' fs' /\ stack_holds iter' fs' /\ rem_unvisited fs' = R
      end
  | Err _ => False
  end.
Proof.
  induction fuel as [|fuel IH]; intros h iter D d fs visited Hfs HD Hst Hm; [lia|].
  destruct fs as [|[s i] below]; [by apply frames_ok_nonempty in Hfs|].
  replace (length ((s, i) :: below) - 1) with (length below) by (simpl; lia).
  rewrite iter_loop_S.
  rewrite (aget_Some _ _ _ (stack_holds_top _ _ _ _ Hst)). cbn [mbind res_bind frame_node frame_i].
  destruct (frames_ok_top _ _ _ _ _ _ Hfs) as (Hrep & lo & Hlo & Hwf).
  destruct (rep_root _ _ Hrep) as (nd & Hnd & Hmatch).
  pose proof (load_Some _ _ _ Hnd) as E. rewrite E. cbn [mbind res_bind].
  pose proof Hmatch as (Hnn & Hes & Hch & Hks & Hleaf & Hint). rewrite Hnn.
  pose proof (wf_keys _ _ _ _ Hwf) as Hn.
  pose proof (frames_ok_depth _ _ _ _ Hfs) as Hdep. simpl in Hdep.
  pose proof Hst as (Htop & Hlen & _). simpl in Htop.
  pose proof (lookup_lt_Some _ _ _ (stack_holds_top _ _ _ _ Hst)) as Hlt32.
  destruct (length (akeys s) <? i) eqn:Hi.
  { (* the cursor is past the last child *)
    apply Nat.ltb_lt in Hi.
    assert (HR : (if visited then rem_below ((s, i) :: below)
                  else rem_unvisited ((s, i) :: below)) = rem_below below).
    { destruct visited; simpl.
      - rewrite seq_after_end by lia. done.
      - by rewrite (seq_from_end lo 4 d s i). }
    rewrite HR.
    destruct below as [|[s0 i0] below].
    - assert ((iter_top iter =? 1) = true) as -> by (by rewrite Htop). done.
    - assert ((iter_top iter =? 1) = false) as -> by (by rewrite Htop).
      cbn [length].
      destruct (frames_ok_pop _ _ _ _ _ _ _ Hfs) as [Hfs' Hi0].
      pose proof (stack_holds_pop _ _ _ Hst) as Hst'.
      specialize (IH h _ D (S d) _ true Hfs' HD Hst').
      replace (length ((s0, i0) :: below) - 1) with (length below) in IH by (simpl; lia).
      apply IH.
      simpl in Hm |- *. destruct visited; destruct (i0 <=? length (akeys s0));
        destruct (i <=? length (akeys s)); lia. }
  apply Nat.ltb_ge in Hi.
  (* the steps taken when the cursor does not descend *)
  assert (Hother : forall v : bool,
    (if v then rem_below ((s, i) :: below) else rem_unvisited ((s, i) :: below))
      = seq_after s i ++ rem_below below ->
    iter_measure v d ((s, i) :: below) < S fuel ->
    match
      (st ← aset (iter_stack iter) (length below) (mk_frame (i + 1) (Some (addr s)));
       (if i <? length (akeys s)
        then Ok (mk_iter (iter_top iter) st, Some (addr s, i))
        else iter_loop fuel h (mk_iter (iter_top iter) st) (length below) v))
      : res (bt_iter_dfs * option (nat * nat))
    with
    | Ok (iter', r) =>
        match (if v then rem_below ((s, i) :: below)
               else rem_unvisited ((s, i) :: below)) with
        | [] => r = None
        | x :: R =>
            exists p d' fs', r = Some p /\ deref h p = Ok x /\
              frames_ok h D d' fs' /\ stack_holds iter' fs' /\ rem_unvisited fs' = R
        end
    | Err _ => False
    end).
  { intros v HR Hmv. rewrite aset_lt by lia. cbn [mbind res_bind].
    pose proof (stack_holds_set _ _ _ (i + 1) _ Hst) as Hst'.
    pose proof (frames_ok_cursor _ _ _ _ _ (i + 1) _ Hfs) as Hfs'.
    destruct (i <? length (akeys s)) eqn:Hlt.
    - apply Nat.ltb_lt in Hlt.
      destruct (lookup_lt_is_Some_2 (akeys s) i Hlt) as [k Hk].
      rewrite HR, (seq_after_key _ _ _ Hk). simpl.
      exists (addr s, i), d, ((s, i + 1) :: below).
      split; [done|]. split; [|split; [done|split; [done|]]].
      + unfold deref. cbn [fst snd]. rewrite E. cbn [mbind res_bind].
        apply aget_Some. by eapply node_matches_key.
      + simpl. by rewrite Nat.add_1_r.
    - apply Nat.ltb_ge in Hlt. assert (i = length (akeys s)) as Heq by lia.
      specialize (IH h _ D d _ v Hfs' HD Hst').
      replace (length ((s, i + 1) :: below) - 1) with (length below) in IH by (simpl; lia).
      assert (HR' : (if v then rem_below ((s, i + 1) :: below)
                     else rem_unvisited ((s, i + 1) :: below))
                    = (if v then rem_below ((s, i) :: below)
                       else rem_unvisited ((s, i) :: below))).
      { rewrite HR. rewrite (seq_after_end s i) by lia.
        destruct v; simpl.
        - by rewrite seq_after_end by lia.
        - by rewrite (seq_from_end lo 4 d s (i + 1)) by (done || lia). }
      rewrite HR' in IH. apply IH.
      simpl in Hmv |- *.
      assert ((i + 1 <=? length (akeys s)) = false) as -> by (apply Nat.leb_gt; lia).
      assert ((i <=? length (akeys s)) = true) as Hle by (apply Nat.leb_le; lia).
      rewrite Hle in Hmv. lia. }
  destruct s as [a ks cs]. cbn [addr akeys akids] in *.
  inversion Hwf as [? ? Hkl|? ? ? d' Hkl Hcs Hwkids]; subst.
  { (* a leaf *)
    rewrite (aget_Some _ _ _ (node_matches_leaf_child _ _ i Hmatch ltac:(lia))).
    cbn [mbind res_bind].
    apply Hother; [|done].
    destruct visited; [done|]. simpl. by rewrite seq_from_leaf_after. }
  destruct (lookup_lt_is_Some_2 cs i) as [c Hc]; [lia|].
  rewrite (aget_Some _ _ _ (node_matches_child _ _ _ _ _ Hmatch Hcs Hc)).
  cbn [mbind res_bind].
  destruct visited.
  { apply Hother; done. }
  (* descend into child [i] *)
  rewrite Forall_lookup in Hwkids.
  pose proof (wf_depth_pos _ _ _ _ (Hwkids i c Hc)) as Hd'.
  rewrite aset_lt by lia. cbn [mbind res_bind].
  apply rep_inv in Hrep as (? & _ & _ & Hkids). rewrite Forall_lookup in Hkids.
  assert (Hfs' : frames_ok h D d' ((c, 0) :: (ANode a ks cs, i) :: below)).
  { constructor; eauto. }
  pose proof (stack_holds_push iter _ (c, 0) Hst ltac:(simpl; lia)) as Hst'.
  specialize (IH h _ D d' _ false Hfs' HD Hst').
  replace (length ((c, 0) :: (ANode a ks cs, i) :: below) - 1)
    with (length below + 1) in IH by (simpl; lia).
  simpl length in IH. simpl length in Hst'.
  replace (S (length below)) with (length below + 1) in IH by lia.
  assert (HR : rem_unvisited ((c, 0) :: (ANode a ks cs, i) :: below)
               = rem_unvisited ((ANode a ks cs, i) :: below)).
  { simpl. rewrite (seq_from_0 2 4 d' c) by eauto.
    rewrite (seq_from_child lo 4 (S d') (ANode a ks cs) i c Hwf Hc).
    by rewrite <- app_assoc. }
  rewrite HR in IH. apply IH.
  simpl in Hm |- *.
  assert ((i <=? length ks) = true) as Hle by (apply Nat.leb_le; lia).
  rewrite Hle in Hm. lia.
Qed.

Lemma iter_measure_bound h D d fs v :
  frames_ok h D d fs -> D <= 32 -> iter_measure v d fs <= 100.
Proof.
  intros Hfs HD. pose proof (frames_ok_depth _ _ _ _ Hfs) as Hdep.
  destruct fs as [|[s i] below]; simpl in *; [lia|].
  destruct v; destruct (i <=? length (akeys s)); lia.
Qed.

Lemma bt_iter_dfs_next_spec fuel h iter D d fs :
  frames_ok h D d fs -> D <= 32 -> stack_holds iter fs -> 100 < fuel ->
  match bt_iter_dfs_next fuel h iter with
  | Ok (iter', r) =>
      match rem_unvisited fs with
      | [] => r = None
      | x :: R =>
          exists p d' fs', r = Some p /\ deref h p = Ok x /\
            frames_ok h D d' fs' /\ stack_holds iter' fs' /\ rem_unvisited fs' = R
      end
  | Err _ => False
  end.
Proof.
  intros Hfs HD Hst Hfuel. unfold bt_iter_dfs_next.
  pose proof Hst as (Htop & _). rewrite Htop.
  destruct fs as [|f below]; [by apply frames_ok_nonempty in Hfs|].
  pose proof (iter_loop_spec fuel h iter D d (f :: below) false Hfs HD Hst) as H.
  replace (length (f :: below) - 1) with (length below) in H by (simpl; lia).
  apply H. pose proof (iter_measure_bound _ _ _ _ false Hfs HD). lia.
Qed.

Lemma bt_iter_collect_spec calls : forall fuel h iter D d fs,
  frames_ok h D d fs -> D <= 32 -> stack_holds iter fs -> 100 < fuel ->
  length (rem_unvisited fs) < calls ->
  bt_iter_collect calls fuel h iter = Ok (rem_unvisited fs).
Proof.
  induction calls as [|calls IH]; intros fuel h iter D d fs Hfs HD Hst Hfuel Hc; [lia|].
  simpl. pose proof (bt_iter_dfs_next_spec fuel h iter D d fs Hfs HD Hst Hfuel) as H.
  destruct (bt_iter_dfs_next fuel h iter) as [[iter' r]|]; [|done].
  cbn [mbind res_bind].
  destruct (rem_unvisited fs) as [|x R] eqn:HR.
  - by subst r.
  - destruct H as (p & d' & fs' & -> & Hp & Hfs' & Hst' & HR').
    rewrite Hp. cbn [mbind res_bind].
    rewrite (IH fuel h iter' D d' fs'); try done.
    + cbn [mbind res_bind]. by rewrite HR'.
    + rewrite HR'. simpl in Hc. lia.
Qed.

(** The iterator over a built tree yields its keys in order. *)
Lemma iter_collect_built xs h t ot fuel calls :
  built xs h t ot -> Forall int_range xs -> 100 < fuel ->
  length (keys_of ot) < calls ->
  bt_iter_collect calls fuel h (bt_iter_dfs_mk t) = Ok (keys_of ot).
Proof.
  intros Hb Hr Hfuel Hc. pose proof Hb as (Hok & Hs & Hkeys & _).
  destruct ot as [tr|]; simpl in *.
  - destruct Hok as (Hroot & Hrep & Hnd & [d Hwf]).
    assert (HD : d <= 32).
    { eapply wf_height_bound; eauto.
      rewrite Forall_forall in Hr |- *. intros y Hy. apply Hr. by apply Hkeys. }
    assert (Hfs : frames_ok h d d [(tr, 0)]) by (by apply (frames_root h d tr 0 1)).
    assert (Hst : stack_holds (bt_iter_dfs_mk t) [(tr, 0)]).
    { unfold stack_holds, bt_iter_dfs_mk. rewrite Hroot. simpl.
      split; [done|]. split; [done|]. intros [|j] f Hf; simpl in *; by simplify_eq. }
    rewrite (bt_iter_collect_spec calls fuel h _ d d [(tr, 0)]); try done.
    + simpl. by rewrite app_nil_r, (seq_from_0 1 4 d tr).
    + simpl. by rewrite app_nil_r, (seq_from_0 1 4 d tr).
  - destruct calls as [|calls]; [lia|]. destruct fuel as [|fuel]; [lia|].
    unfold bt_iter_dfs_mk. rewrite Hok. reflexivity.
Qed.

(* ================================================================== *)
(** ** An exhausted iterator stays exhausted *)
(* ================================================================== *)

Lemma iter_loop_none_exhausted fuel : forall h iter fp v iter',
  iter_top iter = S fp ->
  iter_loop fuel h iter fp v = Ok (iter', None) ->
  exhausted h iter'.
Proof.
  induction fuel as [|fuel IH]; intros h iter fp v iter' Htop Hrun; [done|].
  rewrite iter_loop_S in Hrun.
  destruct (aget (iter_stack iter) fp) as [fr|] eqn:Hfr; [|done].
  cbn [mbind res_bind] in Hrun. apply aget_Ok in Hfr.
  destruct (frame_node fr) as [a|] eqn:Hnode.
  2:{ simplify_eq. exists fp, fr. auto. }
  unfold load in Hrun. destruct (h !! a) as [nd|] eqn:Hnd; [|done].
  cbn [mbind res_bind] in Hrun.
  destruct (bnode_n nd <? frame_i fr) eqn:Hlt.
  { apply Nat.ltb_lt in Hlt.
    destruct (iter_top iter =? 1) eqn:Hone.
    - simplify_eq. apply Nat.eqb_eq in Hone.
      exists fp, fr. split; [done|]. split; [done|]. right. exists a, nd. auto.
    - destruct fp as [|fp']; [done|].
      eapply IH; [|exact Hrun]. simpl. lia. }
  destruct (aget (bnode_children nd) (frame_i fr)) as [c|] eqn:Hc; [|done].
  cbn [mbind res_bind] in Hrun.
  assert (Hother :
    (st ← aset (iter_stack iter) fp (mk_frame (frame_i fr + 1) (Some a));
     (if frame_i fr <? bnode_n nd
      then Ok (mk_iter (iter_top iter) st, Some (a, frame_i fr))
      else iter_loop fuel h (mk_iter (iter_top iter) st) fp v)) = Ok (iter', None) ->
    exhausted h iter').
  { intros Hrun'.
    destruct (aset (iter_stack iter) fp _) as [st|]; [|done].
    cbn [mbind res_bind] in Hrun'.
    destruct (frame_i fr <? bnode_n nd); [done|].
    eapply IH; [|exact Hrun']. done. }
  destruct c as [ca|]; [destruct v|]; try (by apply Hother).
  destruct (aset (iter_stack iter) (fp + 1) _) as [st|]; [|done].
  cbn [mbind res_bind] in Hrun.
  eapply IH; [|exact Hrun]. simpl. lia.
Qed.

Lemma exhausted_next h iter fuel :
  exhausted h iter -> 1 <= fuel -> bt_iter_dfs_next fuel h iter = Ok (iter, None).
Proof.
  intros (fp & fr & Htop & Hfr & Hcase) Hfuel.
  destruct fuel as [|fuel]; [lia|].
  unfold bt_iter_dfs_next. rewrite Htop, iter_loop_S.
  rewrite (aget_Some _ _ _ Hfr). cbn [mbind res_bind].
  destruct Hcase as [->|(a & nd & -> & Hnd & Hlt & Hone)]; [done|].
  pose proof (load_Some _ _ _ Hnd) as E. rewrite E. cbn [mbind res_bind].
  apply Nat.ltb_lt in Hlt. rewrite Hlt. rewrite Hone. done.
Qed.

Lemma exhausted_nexts h iter fuel k :
  exhausted h iter -> 1 <= fuel ->
  bt_iter_nexts k fuel h iter = Ok (iter, replicate k None).
Proof.
  intros Hex Hfuel. induction k as [|k IH]; [done|].
  simpl. rewrite (exhausted_next _ _ _ Hex Hfuel). cbn [mbind res_bind].
  rewrite IH. done.
Qed.

(* ================================================================== *)
(** ** The parent's child array after a split *)
(* ================================================================== *)

Lemma split_children_length (ch : list (option nat)) idx n sib :
  idx <= n -> n + 2 <= length ch -> length (split_children ch idx n sib) = length ch.
Proof.
  intros H1 H2. unfold split_children.
  rewrite length_insert, !length_app, !length_take, !length_drop. lia.
Qed.

Lemma split_children_lookup_le (ch : list (option nat)) idx n sib j :
  idx <= n -> n + 2 <= length ch -> j <= idx ->
  split_children ch idx n sib !! j = ch !! j.
Proof.
  intros H1 H2 Hj. unfold split_children.
  rewrite list_lookup_insert_ne by lia.
  rewrite lookup_app_l by (rewrite length_take; lia).
  apply lookup_take_lt. lia.
Qed.

Lemma split_children_lookup_new (ch : list (option nat)) idx n sib :
  idx <= n -> n + 2 <= length ch ->
  split_children ch idx n sib !! (idx + 1) = Some (Some sib).
Proof.
  intros H1 H2. unfold split_children. apply list_lookup_insert_eq.
  rewrite !length_app, !length_take, !length_drop. lia.
Qed.

Lemma split_children_lookup_gt (ch : list (option nat)) idx n sib j :
  idx <= n -> n + 2 <= length ch -> idx < j <= n ->
  split_children ch idx n sib !! (j + 1) = ch !! j.
Proof.
  intros H1 H2 Hj. unfold split_children.
  rewrite list_lookup_insert_ne by lia.
  rewrite lookup_app_r by (rewrite length_take; lia).
  rewrite length_take, Nat.min_l by lia.
  rewrite lookup_app_l by (rewrite length_take, length_drop; lia).
  rewrite lookup_take_lt by lia. rewrite lookup_drop. f_equal. lia.
Qed.

Lemma sorted_NoDup (l : list Z) : StronglySorted Z.lt l -> NoDup l.
Proof.
  induction 1 as [|x l Hs IH Hx]; constructor; [|done].
  intros Hin. rewrite Forall_forall in Hx. apply Hx in Hin. lia.
Qed.

Lemma bt_build_inv calls fuel h t :
  Forall int_range calls.*1 -> 32 <= fuel -> bt_build fuel calls = Ok (h, t) ->
  exists ot, built calls.*1 h t ot.
Proof.
  intros Hr Hfuel Hrun.
  destruct (bt_build_built calls fuel Hr Hfuel) as (h0 & t0 & ot & Hrun0 & Hb & _).
  rewrite Hrun in Hrun0. simplify_eq. eauto.
Qed.

(* ================================================================== *)
(** ** Running the model *)
(* ================================================================== *)

(** Factor 2: inserting 10, 20, 5, 6, 12, 30, 7, 17 splits the root once;
    the iterator then yields the keys in order. *)
Example run_scenario :
  match bt_build 32 [(10, None); (20, None); (5, None); (6, None); (12, None);
                     (30, None); (7, None); (17, None)]%Z with
  | Ok (h, t) =>
      bt_root t = Some 1 /\
      h !! 1 = Some (mk_bnode 1 [10; 0; 0; 0; 0]%Z [Some 0; Some 2; None; None; None; None]) /\
      bt_iter_collect 9 101 h (bt_iter_dfs_mk t) = Ok [5; 6; 7; 10; 12; 17; 20; 30]%Z /\
      (p ← bt_lookup 32 h t 6; match p with Some q => deref h q | None => Ok 0%Z end)
        = Ok 6%Z /\
      bt_lookup 32 h t 8 = Ok None /\
      bt_insert 32 h t 10 (Some 0%Z) = Ok (h, t, true, Some 10%Z)
  | Err _ => False
  end.
Proof. vm_compute. repeat split; reflexivity. Qed.

(** Inserting into the empty tree makes one node with one key. *)
Example run_first_insert :
  bt_insert 1 [] bt_mk 7 None
    = Ok ([mk_bnode 1 [7; 0; 0; 0; 0]%Z (replicate 6 None)], mk_bt (Some 0) 0, false, None).
Proof. reflexivity. Qed.

(** After a split the left node keeps its old upper half in the slots past
    [n]: they are stale, and no function reads them. *)
Example run_stale_slots :
  match bt_build 32 [(1, None); (2, None); (3, None); (4, None); (5, None)]%Z with
  | Ok (h, t) =>
      h !! 0 = Some (mk_bnode 2 [1; 2; 3; 4; 5]%Z (replicate 6 None)) /\
      h !! 2 = Some (mk_bnode 2 [4; 5; 0; 0; 0]%Z (replicate 6 None)) /\
      h !! 1 = Some (mk_bnode 1 [3; 0; 0; 0; 0]%Z [Some 0; Some 2; None; None; None; None])
  | Err _ => False
  end.
Proof. vm_compute. repeat split; reflexivity. Qed.

(* ================================================================== *)
(** ** The claims *)
(* ================================================================== *)

(** C7.  On a node that holds at least one key and whose keys are strictly
    increasing, [bt_node_bsearch] returns the index of the key equal to
    [x] when there is one, and otherwise the negative value [- p - 1] where
    [p] is the number of keys less than [x]. *)
Theorem C7_bsearch_result (nd : bnode) (x : Z) :
  1 <= bnode_n nd <= length (bnode_elems nd) ->
  StronglySorted Z.lt (take (bnode_n nd) (bnode_elems nd)) ->
  (forall i, i < bnode_n nd -> bnode_elems nd !! i = Some x ->
     bt_node_bsearch nd x = Ok (Z.of_nat i)) /\
  (x ∉ take (bnode_n nd) (bnode_elems nd) ->
     bt_node_bsearch nd x
       = Ok (- Z.of_nat (count_lt x (take (bnode_n nd) (bnode_elems nd))) - 1)%Z).
Proof.
  intros Hn Hs.
  set (ks := take (bnode_n nd) (bnode_elems nd)) in *.
  assert (Hlen : length ks = bnode_n nd) by (unfold ks; rewrite length_take; lia).
  assert (Hb : bt_node_bsearch nd x = key_search ks x).
  { apply bsearch_key_search; [lia|done|by rewrite Hlen]. }
  rewrite Hb.
  destruct (key_search_sorted ks x Hs ltac:(lia))
    as [(i' & Hr & Hi' & Hx')|(p & Hr & Hp & Hlo & Hhi)]; rewrite Hr.
  - split.
    + intros i Hi Hx. do 2 f_equal.
      assert (Hxi : ks !! i = Some x) by (unfold ks; by rewrite lookup_take_lt).
      destruct (Nat.lt_trichotomy i i') as [Hlt|[->|Hlt]]; [|done|].
      * pose proof (sorted_lookup_lt ks i i' x x Hs Hlt Hxi Hx'). lia.
      * pose proof (sorted_lookup_lt ks i' i x x Hs Hlt Hx' Hxi). lia.
    + intros Hnin. exfalso. apply Hnin. by eapply list_elem_of_lookup_2.
  - split.
    + intros i Hi Hx. exfalso.
      assert (Hxi : x ∈ ks).
      { apply (list_elem_of_lookup_2 _ i). unfold ks. by rewrite lookup_take_lt. }
      rewrite <- (take_drop p ks) in Hxi. by apply not_elem_of_split in Hxi.
    + intros _. do 3 f_equal. rewrite <- (take_drop p ks) at 1.
      rewrite count_lt_split; [rewrite length_take; lia|done|].
      eapply Forall_impl; [exact Hhi|]. simpl. lia.
Qed.

Lemma C7_bsearch_result_witness :
  let nd := mk_bnode 3 [5; 10; 20; 0; 0]%Z (replicate 6 None) in
  (1 <= bnode_n nd <= length (bnode_elems nd)) /\
  StronglySorted Z.lt (take (bnode_n nd) (bnode_elems nd)) /\
  ((forall i, i < bnode_n nd -> bnode_elems nd !! i = Some 12%Z ->
      bt_node_bsearch nd 12 = Ok (Z.of_nat i)) /\
   (12%Z ∉ take (bnode_n nd) (bnode_elems nd) ->
      bt_node_bsearch nd 12
        = Ok (- Z.of_nat (count_lt 12 (take (bnode_n nd) (bnode_elems nd))) - 1)%Z)).
Proof.
  simpl.
  assert (H1 : 1 <= 3 <= 5) by lia.
  assert (H2 : StronglySorted Z.lt [5; 10; 20]%Z).
  { repeat constructor; lia. }
  split; [exact H1|]. split; [exact H2|].
  exact (C7_bsearch_result (mk_bnode 3 [5; 10; 20; 0; 0]%Z (replicate 6 None)) 12%Z H1 H2).
Defined.

(** C8.  On a node with at least one key, [bt_node_bsearch] reads [elems]
    only at indices below [n], its assertion holds and it returns; on an
    empty node it reads index [0], which is not below [n], and the assertion
    can fail: the precondition is needed. *)
Theorem C8_bsearch_safe :
  (forall (nd : bnode) (x : Z),
     1 <= bnode_n nd <= length (bnode_elems nd) ->
     Forall (fun mid => mid < bnode_n nd) (bt_node_bsearch_reads nd x).1 /\
     exists r, bt_node_bsearch nd x = Ok r) /\
  bt_node_bsearch_reads bnode_zero 1 = ([0], Err AssertFail).
Proof.
  split; [|reflexivity].
  intros nd x Hn. unfold bt_node_bsearch, bt_node_bsearch_reads.
  destruct (bsearch_loop_safe (S (bnode_n nd)) (bnode_elems nd) x 0 (bnode_n nd))
    as [Hreads Hres]; [lia..|].
  split.
  - eapply Forall_impl; [exact Hreads|]. simpl. lia.
  - destruct Hres as [(i & -> & _)|(p & -> & _)]; eauto.
Qed.

Lemma C8_bsearch_safe_witness :
  let nd := mk_bnode 3 [5; 10; 20; 0; 0]%Z (replicate 6 None) in
  (1 <= bnode_n nd <= length (bnode_elems nd)) /\
  Forall (fun mid => mid < bnode_n nd) (bt_node_bsearch_reads nd 12).1 /\
  exists r, bt_node_bsearch nd 12 = Ok r.
Proof.
  simpl.
  assert (H1 : 1 <= 3 <= 5) by lia.
  split; [exact H1|].
  exact (proj1 C8_bsearch_safe (mk_bnode 3 [5; 10; 20; 0; 0]%Z (replicate 6 None)) 12%Z H1).
Defined.

(** C6.  When [parent->children[idx]] is a node [c] of five keys, distinct
    from [parent], and [parent] has room for one more child,
    [bt_split_node (parent, idx)] allocates a sibling (at an address that was
    not in the store), puts it at [parent->children[idx + 1]] with the later
    child references moved one slot to the right, copies the child's keys
    [3, 4] and, when the child is internal, its children [3..5] into the
    sibling, sets both key counts to [2], returns the child's key [2], and
    leaves [parent->elems], [parent->n] and every other node unchanged. *)
Theorem C6_split_node (h : list bnode) (parent idx c : nat) (pn cn : bnode) :
  h !! parent = Some pn ->
  bnode_children pn !! idx = Some (Some c) ->
  h !! c = Some cn -> c <> parent ->
  bnode_n cn = 2 * 2 + 1 ->
  length (bnode_elems cn) = 5 -> length (bnode_children cn) = 6 ->
  length (bnode_children pn) = 6 ->
  idx <= bnode_n pn -> bnode_n pn + 1 < 6 ->
  exists h' m pn' cn' sn,
    bt_split_node h parent idx = Ok (h', m) /\
    bnode_elems cn !! 2 = Some m /\
    length h' = S (length h) /\
    h' !! parent = Some pn' /\ h' !! c = Some cn' /\ h' !! length h = Some sn /\
    (forall b, b <> parent -> b <> c -> b < length h -> h' !! b = h !! b) /\
    (* the parent *)
    bnode_elems pn' = bnode_elems pn /\ bnode_n pn' = bnode_n pn /\
    (forall j, j <= idx -> bnode_children pn' !! j = bnode_children pn !! j) /\
    bnode_children pn' !! (idx + 1) = Some (Some (length h)) /\
    (forall j, idx < j <= bnode_n pn ->
       bnode_children pn' !! (j + 1) = bnode_children pn !! j) /\
    (* the child and the sibling *)
    bnode_n cn' = 2 /\ bnode_n sn = 2 /\
    bnode_elems cn' = bnode_elems cn /\ bnode_children cn' = bnode_children cn /\
    take 2 (bnode_elems sn) = take 2 (drop 3 (bnode_elems cn)) /\
    (bnode_children cn !! 0 <> Some None ->
       take 3 (bnode_children sn) = drop 3 (bnode_children cn)).
Proof.
  intros Hp Hidx Hc Hne Hn5 Hes Hcs Hpcs Hle Hroom.
  destruct (bt_split_node_spec h parent idx pn c cn Hp Hidx Hc Hne Hle)
    as (h' & m & Hrun & Hm & Hlen & Hhp & Hhc & Hhs & Hframe); [lia|done|done|].
  eexists h', m, _, _, _.
  split; [exact Hrun|]. split; [exact Hm|]. split; [exact Hlen|].
  split; [exact Hhp|]. split; [exact Hhc|]. split; [exact Hhs|]. split; [exact Hframe|].
  cbn [set_children bnode_n bnode_elems bnode_children split_sibling].
  split; [done|]. split; [done|].
  split; [intros j Hj; apply split_children_lookup_le; lia|].
  split; [apply split_children_lookup_new; lia|].
  split; [intros j Hj; apply split_children_lookup_gt; lia|].
  split; [done|]. split; [done|]. split; [done|]. split; [done|].
  split.
  - apply take_app_length'. rewrite length_take, length_drop. lia.
  - intros Hint.
    destruct (bnode_children cn !! 0) as [[c0|]|] eqn:Hc0.
    + rewrite take_app_length' by (rewrite length_take, length_drop; lia).
      apply take_ge. rewrite length_drop. lia.
    + done.
    + apply lookup_ge_None in Hc0. lia.
Qed.

Lemma C6_split_node_witness :
  let cn := mk_bnode 5 [1; 2; 3; 4; 5]%Z (replicate 6 None) in
  let pn := mk_bnode 1 [0; 0; 0; 0; 0]%Z [Some 0; None; None; None; None; None] in
  let h := [cn; pn] in
  exists h' m pn' cn' sn,
    bt_split_node h 1 0 = Ok (h', m) /\
    bnode_elems cn !! 2 = Some m /\
    length h' = S (length h) /\
    h' !! 1 = Some pn' /\ h' !! 0 = Some cn' /\ h' !! length h = Some sn /\
    (forall b, b <> 1 -> b <> 0 -> b < length h -> h' !! b = h !! b) /\
    bnode_elems pn' = bnode_elems pn /\ bnode_n pn' = bnode_n pn /\
    (forall j, j <= 0 -> bnode_children pn' !! j = bnode_children pn !! j) /\
    bnode_children pn' !! (0 + 1) = Some (Some (length h)) /\
    (forall j, 0 < j <= bnode_n pn ->
       bnode_children pn' !! (j + 1) = bnode_children pn !! j) /\
    bnode_n cn' = 2 /\ bnode_n sn = 2 /\
    bnode_elems cn' = bnode_elems cn /\ bnode_children cn' = bnode_children cn /\
    take 2 (bnode_elems sn) = take 2 (drop 3 (bnode_elems cn)) /\
    (bnode_children cn !! 0 <> Some None ->
       take 3 (bnode_children sn) = drop 3 (bnode_children cn)).
Proof.
  intros cn pn h.
  apply (C6_split_node h 1 0 0 pn cn); try reflexivity.
  - intros Heq. discriminate Heq.
  - simpl. lia.
  - simpl. lia.
Defined.

(** C1.  After any sequence of [bt_insert] calls on the tree made by
    [bt_mk], the store holds a tree below [bt->root] (no node shared or
    reached twice) in which the keys of every node are strictly increasing,
    the keys below [children[i]] are less than [elems[i]] and those below
    [children[i+1]] greater, all leaves are at the same depth, every node
    other than the root has between [2] and [4] keys and the root at most
    [4]. *)
Theorem C1_insert_keeps_invariants (calls : list (Z * option Z)) (fuel : nat) :
  Forall int_range calls.*1 -> 32 <= fuel ->
  exists h t ot,
    bt_build fuel calls = Ok (h, t) /\
    tree_ok h t ot /\
    match ot with
    | None => calls = []
    | Some tr =>
        ordered tr /\ leaves_at (height tr) tr /\ fill true tr /\ slots tr
    end.
Proof.
  intros Hr Hfuel.
  destruct (bt_build_built calls fuel Hr Hfuel) as (h & t & ot & Hrun & Hb & _).
  exists h, t, ot. split; [done|].
  destruct Hb as (Hok & Hs & Hkeys & _). split; [done|].
  destruct ot as [tr|]; simpl in *.
  - destruct Hok as (_ & _ & _ & [d Hwf]).
    rewrite (wf_height _ _ _ _ Hwf).
    split; [by eapply sorted_ordered|]. split; [by eapply wf_leaves_at|].
    split; [by eapply wf_fill_root|by eapply wf_slots].
  - destruct calls as [|[x prev] calls]; [done|].
    exfalso. specialize (Hkeys x). rewrite fmap_cons in Hkeys. simpl in Hkeys.
    apply (not_elem_of_nil x). apply Hkeys. left.
Qed.

Lemma C1_insert_keeps_invariants_witness :
  let calls := [(10, None); (20, None); (5, None); (6, None); (12, None); (30, None);
                (7, None); (17, None)]%Z in
  Forall int_range calls.*1 /\ 32 <= 32 /\
  exists h t ot,
    bt_build 32 calls = Ok (h, t) /\
    tree_ok h t ot /\
    match ot with
    | None => calls = []
    | Some tr =>
        ordered tr /\ leaves_at (height tr) tr /\ fill true tr /\ slots tr
    end.
Proof.
  intros calls.
  assert (H1 : Forall int_range calls.*1).
  { unfold calls. simpl. repeat constructor; unfold int_range; simpl; lia. }
  assert (H2 : 32 <= 32) by lia.
  split; [exact H1|]. split; [exact H2|].
  exact (C1_insert_keeps_invariants calls 32 H1 H2).
Defined.

(** C2.  For a tree built by any sequence of [bt_insert] calls, the calls
    of [bt_iter_dfs_next] on the iterator made by [bt_iter_dfs_mk], up to the
    first NULL, yield the keys stored in the tree in strictly increasing
    order, each once: exactly the keys that were inserted. *)
Theorem C2_iterator_yields_sorted_keys (calls : list (Z * option Z)) (fuel n : nat) :
  Forall int_range calls.*1 -> 100 < fuel -> length calls < n ->
  exists h t ot ys,
    bt_build fuel calls = Ok (h, t) /\
    tree_ok h t ot /\
    bt_iter_collect n fuel h (bt_iter_dfs_mk t) = Ok ys /\
    ys = keys_of ot /\
    StronglySorted Z.lt ys /\ NoDup ys /\
    (forall y, y ∈ ys <-> y ∈ calls.*1).
Proof.
  intros Hr Hfuel Hn.
  destruct (bt_build_built calls fuel Hr ltac:(lia)) as (h & t & ot & Hrun & Hb & _).
  exists h, t, ot, (keys_of ot).
  pose proof Hb as (Hok & Hs & Hkeys & Hlen).
  split; [done|]. split; [done|]. split; [|by auto using sorted_NoDup].
  apply (iter_collect_built calls.*1); try done.
  rewrite length_fmap in Hlen. lia.
Qed.

Lemma C2_iterator_yields_sorted_keys_witness :
  let calls := [(10, None); (20, None); (5, None); (6, None); (12, None); (30, None);
                (7, None); (17, None)]%Z in
  Forall int_range calls.*1 /\ 100 < 101 /\ length calls < 9 /\
  exists h t ot ys,
    bt_build 101 calls = Ok (h, t) /\
    tree_ok h t ot /\
    bt_iter_collect 9 101 h (bt_iter_dfs_mk t) = Ok ys /\
    ys = keys_of ot /\
    StronglySorted Z.lt ys /\ NoDup ys /\
    (forall y, y ∈ ys <-> y ∈ calls.*1).
Proof.
  intros calls.
  assert (H1 : Forall int_range calls.*1).
  { unfold calls. simpl. repeat constructor; unfold int_range; simpl; lia. }
  assert (H2 : 100 < 101) by lia.
  assert (H3 : length calls < 9) by (simpl; lia).
  split; [exact H1|]. split; [exact H2|]. split; [exact H3|].
  exact (C2_iterator_yields_sorted_keys calls 101 9 H1 H2 H3).
Defined.

(** C5 (as stated, refuted).  After one insertion the iterator yields one
    element while [bt.size] is still [0]. *)
Lemma C5_size_counterexample :
  exists h t ys,
    bt_build 101 [(1%Z, None)] = Ok (h, t) /\
    bt_iter_collect 2 101 h (bt_iter_dfs_mk t) = Ok ys /\
    length ys <> bt_size t.
Proof.
  eexists _, _, _. split; [vm_compute; reflexivity|].
  split; [vm_compute; reflexivity|]. simpl. lia.
Qed.

(** C5 (amended).  For a tree built by any sequence of [bt_insert] calls,
    [bt.size] is [0], as [bt_insert] never writes it, and the number of
    elements the iterator yields before the first NULL is the number of
    distinct keys inserted. *)
Theorem C5_iterator_count (calls : list (Z * option Z)) (fuel n : nat) :
  Forall int_range calls.*1 -> 100 < fuel -> length calls < n ->
  exists h t ys,
    bt_build fuel calls = Ok (h, t) /\
    bt_iter_collect n fuel h (bt_iter_dfs_mk t) = Ok ys /\
    bt_size t = 0 /\
    length ys = length (remove_dups calls.*1).
Proof.
  intros Hr Hfuel Hn.
  destruct (bt_build_built calls fuel Hr ltac:(lia)) as (h & t & ot & Hrun & Hb & Hsz).
  exists h, t, (keys_of ot).
  pose proof Hb as (Hok & Hs & Hkeys & Hlen).
  split; [done|]. split; [|split; [done|]].
  - apply (iter_collect_built calls.*1); try done.
    rewrite length_fmap in Hlen. lia.
  - apply Permutation_length. apply NoDup_Permutation.
    + by apply sorted_NoDup.
    + apply NoDup_remove_dups.
    + intros y. rewrite elem_of_remove_dups. apply Hkeys.
Qed.

Lemma C5_iterator_count_witness :
  let calls := [(10, None); (20, None); (5, None); (10, Some 0); (12, None)]%Z in
  Forall int_range calls.*1 /\ 100 < 101 /\ length calls < 6 /\
  exists h t ys,
    bt_build 101 calls = Ok (h, t) /\
    bt_iter_collect 6 101 h (bt_iter_dfs_mk t) = Ok ys /\
    bt_size t = 0 /\
    length ys = length (remove_dups calls.*1).
Proof.
  intros calls.
  assert (H1 : Forall int_range calls.*1).
  { unfold calls. simpl. repeat constructor; unfold int_range; simpl; lia. }
  assert (H2 : 100 < 101) by lia.
  assert (H3 : length calls < 6) by (simpl; lia).
  split; [exact H1|]. split; [exact H2|]. split; [exact H3|].
  exact (C5_iterator_count calls 101 6 H1 H2 H3).
Defined.

(** C3.  On the tree built by any sequence of [bt_insert] calls, a key is
    stored (the logical tree holds it and [bt_lookup] returns a pointer to
    an element equal to it) exactly when it was inserted.  When [x] is
    stored, [bt_insert (bt, x, prev)] returns true, writes the element that
    was stored into [*prev] when [prev] is not NULL, and leaves the store and
    the handle as they were (the element written over the old one is equal
    to it, and no key count, child reference or other key changes); when
    [x] is not stored, [bt_lookup] returns NULL and [bt_insert] returns
    false, leaving [*prev] as it was. *)
Theorem C3_insert_replaces (calls : list (Z * option Z)) (fuel : nat)
    (x : Z) (prev : option Z) :
  Forall int_range calls.*1 -> 32 <= fuel ->
  exists h t ot,
    bt_build fuel calls = Ok (h, t) /\ tree_ok h t ot /\
    (forall y, y ∈ keys_of ot <-> y ∈ calls.*1) /\
    (x ∈ calls.*1 ->
       (exists p, bt_lookup fuel h t x = Ok (Some p) /\ deref h p = Ok x) /\
       bt_insert fuel h t x prev
         = Ok (h, t, true, match prev with Some _ => Some x | None => None end)) /\
    (x ∉ calls.*1 ->
       bt_lookup fuel h t x = Ok None /\
       exists h' t', bt_insert fuel h t x prev = Ok (h', t', false, prev)).
Proof.
  intros Hr Hfuel.
  destruct (bt_build_built calls fuel Hr Hfuel) as (h & t & ot & Hrun & Hb & _).
  exists h, t, ot. pose proof Hb as (Hok & _ & Hkeys & _).
  split; [done|]. split; [done|]. split; [done|].
  destruct (bt_insert_built calls.*1 h t ot x prev fuel Hb Hr Hfuel)
    as (h' & t' & tr' & r & Hins & _ & Hiff & Hsame & _).
  assert (Hh : height_of ot <= fuel).
  { destruct ot as [tr|]; simpl; [|lia].
    pose proof (built_height _ _ _ _ _ Hb Hr eq_refl). lia. }
  pose proof (bt_lookup_valid h t ot x fuel Hok (built_ordered _ _ _ _ Hb) Hh) as Hl.
  split.
  - intros Hx. split.
    + destruct Hl as [(_ & tr & p & _ & Hp & _ & Hd)|(Hnin & _)]; [by exists p|].
      exfalso. by apply Hnin, Hkeys.
    + apply Hiff in Hx. subst r.
      destruct (Hsame eq_refl) as (-> & -> & _). exact Hins.
  - intros Hx. split.
    + destruct Hl as [(Hin & _)|(_ & Hn)]; [|done].
      exfalso. by apply Hx, Hkeys.
    + destruct r; [|by eauto].
      exfalso. apply Hx, Hiff. done.
Qed.

Lemma C3_insert_replaces_witness :
  let calls := [(10, None); (20, None); (5, None); (6, None); (12, None); (30, None);
                (7, None); (17, None)]%Z in
  Forall int_range calls.*1 /\ 32 <= 32 /\
  10%Z ∈ calls.*1 /\ (8%Z ∉ calls.*1) /\
  (exists h t,
     bt_build 32 calls = Ok (h, t) /\
     (exists p, bt_lookup 32 h t 10 = Ok (Some p) /\ deref h p = Ok 10%Z) /\
     bt_insert 32 h t 10 (Some 99%Z) = Ok (h, t, true, Some 10%Z)) /\
  (exists h t h' t',
     bt_build 32 calls = Ok (h, t) /\
     bt_lookup 32 h t 8 = Ok None /\
     bt_insert 32 h t 8 (Some 99%Z) = Ok (h', t', false, Some 99%Z)).
Proof.
  intros calls.
  assert (H1 : Forall int_range calls.*1).
  { unfold calls. simpl. repeat constructor; unfold int_range; simpl; lia. }
  assert (H2 : 32 <= 32) by lia.
  assert (H3 : 10%Z ∈ calls.*1) by (apply (bool_decide_unpack _); vm_compute; exact I).
  assert (H4 : 8%Z ∉ calls.*1) by (apply (bool_decide_unpack _); vm_compute; exact I).
  split; [exact H1|]. split; [exact H2|]. split; [exact H3|]. split; [exact H4|].
  split.
  - destruct (C3_insert_replaces calls 32 10%Z (Some 99%Z) H1 H2)
      as (h & t & ot & Hb & _ & _ & Hin & _).
    exists h, t. split; [exact Hb|]. exact (Hin H3).
  - destruct (C3_insert_replaces calls 32 8%Z (Some 99%Z) H1 H2)
      as (h & t & ot & Hb & _ & _ & _ & Hnin).
    destruct (Hnin H4) as (Hl & h' & t' & Hi).
    exists h, t, h', t'. split; [exact Hb|]. split; [exact Hl|exact Hi].
Defined.

(** C4.  On a tree that satisfies the invariants (the store holds a tree
    below [bt->root] with all leaves at one depth, between [1] and [4] keys
    in the root and between [2] and [4] in every other node, and the keys
    ordered as C1 says), [bt_lookup] returns a pointer to a stored element
    equal to the key when there is one and NULL otherwise; on the tree made
    by [bt_mk] it returns NULL for every key, whatever the store. *)
Theorem C4_lookup (h : list bnode) (t : bt) (ot : option atree) (x : Z) (fuel : nat) :
  tree_ok h t ot -> keys_ordered ot ->
  (forall tr, ot = Some tr -> height tr <= fuel) ->
  (x ∈ keys_of ot ->
     exists tr p, ot = Some tr /\ bt_lookup fuel h t x = Ok (Some p) /\
                  stored_at h tr p /\ deref h p = Ok x) /\
  (x ∉ keys_of ot -> bt_lookup fuel h t x = Ok None) /\
  (forall h0 k fuel0, bt_lookup fuel0 h0 bt_mk k = Ok None).
Proof.
  intros Hok Hord Hfuel.
  assert (Hmk : forall h0 k fuel0, bt_lookup fuel0 h0 bt_mk k = Ok None).
  { intros h0 k fuel0. by destruct fuel0. }
  unfold bt_lookup, bt_lookup_node.
  destruct ot as [tr|]; simpl in Hok, Hord.
  2:{ rewrite Hok. simpl. split; [intros Hx; by apply elem_of_nil in Hx|].
      split; [|exact Hmk]. intros _. by destruct fuel. }
  destruct Hok as (Hroot & Hrep & Hnd & [d Hwf]). rewrite Hroot.
  pose proof (ordered_sorted _ _ _ _ Hwf Hord) as Hs.
  pose proof (Hfuel tr eq_refl) as Hh. rewrite (wf_height _ _ _ _ Hwf) in Hh.
  pose proof (lookup_loop_spec tr 1 d h x fuel ltac:(lia) Hwf Hrep Hs Hh) as Hl.
  destruct (lookup_loop fuel h (Some (addr tr)) x None) as [[res [?|]]|]; try done.
  cbn [mbind res_bind fst]. simpl keys_of.
  split; [|split; [|exact Hmk]].
  - intros Hx. destruct Hl as [(_ & p & -> & Hst & Hp)|(Hnx & _)]; [|done].
    exists tr, p. done.
  - intros Hx. destruct Hl as [(Hin & _)|(_ & ->)]; done.
Qed.

Lemma C4_lookup_witness :
  let h := [mk_bnode 2 [5; 10; 0; 0; 0]%Z (replicate 6 None)] in
  let t := mk_bt (Some 0) 0 in
  let tr := ANode 0 [5; 10]%Z [] in
  tree_ok h t (Some tr) /\ keys_ordered (Some tr) /\
  (forall tr0, Some tr = Some tr0 -> height tr0 <= 1) /\
  (10%Z ∈ keys_of (Some tr) ->
     exists tr0 p, Some tr = Some tr0 /\ bt_lookup 1 h t 10 = Ok (Some p) /\
                   stored_at h tr0 p /\ deref h p = Ok 10%Z) /\
  (10%Z ∉ keys_of (Some tr) -> bt_lookup 1 h t 10 = Ok None) /\
  (forall h0 k fuel0, bt_lookup fuel0 h0 bt_mk k = Ok None).
Proof.
  intros h t tr.
  assert (H1 : tree_ok h t (Some tr)).
  { split; [reflexivity|]. split; [|split].
    - apply (rep_node h 0 [5; 10]%Z [] (mk_bnode 2 [5; 10; 0; 0; 0]%Z (replicate 6 None)));
        [reflexivity| |constructor].
      repeat split; try reflexivity. intros Hne. exfalso. apply Hne. reflexivity.
    - simpl. apply NoDup_singleton.
    - exists 1. constructor. simpl. lia. }
  assert (H2 : keys_ordered (Some tr)).
  { simpl. constructor; [repeat constructor| | |constructor].
    - intros i k c y _ Hc. discriminate Hc.
    - intros i k c y _ Hc. discriminate Hc. }
  assert (H3 : forall tr0, Some tr = Some tr0 -> height tr0 <= 1).
  { intros tr0 Heq. injection Heq as <-. simpl. lia. }
  split; [exact H1|]. split; [exact H2|]. split; [exact H3|].
  exact (C4_lookup h t (Some tr) 10%Z 1 H1 H2 H3).
Defined.

(** C9.  Whatever the store and the state of the iterator, once
    [bt_iter_dfs_next] has returned NULL it returns NULL on every later call
    and leaves the iterator as it is; the iterator over the tree made by
    [bt_mk] returns NULL on every call. *)
Theorem C9_iterator_stays_exhausted (h : list bnode) (iter iter' : bt_iter_dfs)
    (fuel : nat) :
  bt_iter_dfs_next fuel h iter = Ok (iter', None) ->
  (forall k fuel', 1 <= fuel' ->
     bt_iter_nexts k fuel' h iter' = Ok (iter', replicate k None)) /\
  (forall h0 k fuel', 1 <= fuel' ->
     bt_iter_nexts k fuel' h0 (bt_iter_dfs_mk bt_mk)
       = Ok (bt_iter_dfs_mk bt_mk, replicate k None)).
Proof.
  intros Hrun. split.
  - intros k fuel' Hfuel. apply exhausted_nexts; [|done].
    unfold bt_iter_dfs_next in Hrun.
    destruct (iter_top iter) as [|fp] eqn:Htop; [done|].
    by eapply iter_loop_none_exhausted.
  - intros h0 k fuel' Hfuel. apply exhausted_nexts; [|done].
    exists 0, (mk_frame 0 None). simpl. auto.
Qed.

Lemma C9_iterator_stays_exhausted_witness :
  let h := [mk_bnode 1 [7; 0; 0; 0; 0]%Z (replicate 6 None)] in
  let it := mk_iter 1 (mk_frame 1 (Some 0) :: replicate 31 (mk_frame 0 None)) in
  let it' := mk_iter 1 (mk_frame 2 (Some 0) :: replicate 31 (mk_frame 0 None)) in
  bt_iter_dfs_next 5 h it = Ok (it', None) /\
  (forall k fuel', 1 <= fuel' ->
     bt_iter_nexts k fuel' h it' = Ok (it', replicate k None)) /\
  (forall h0 k fuel', 1 <= fuel' ->
     bt_iter_nexts k fuel' h0 (bt_iter_dfs_mk bt_mk)
       = Ok (bt_iter_dfs_mk bt_mk, replicate k None)).
Proof.
  intros h it it'.
  assert (H1 : bt_iter_dfs_next 5 h it = Ok (it', None)) by reflexivity.
  split; [exact H1|].
  exact (C9_iterator_stays_exhausted h it it' 5 H1).
Defined.

(** C10.  On every tree that satisfies the invariants, whatever the
    element: when [bt_insert] returns false, the content of [*prev] (a cell
    of the caller, apart from the nodes) is what it was before the call. *)
Theorem C10_prev_untouched (fuel : nat) (h h' : list bnode) (t t' : bt)
    (ot : option atree) (x : Z) (prev prev' : option Z) :
  tree_ok h t ot -> keys_ordered ot -> Forall int_range (keys_of ot) ->
  32 <= fuel ->
  bt_insert fuel h t x prev = Ok (h', t', false, prev') ->
  prev' = prev.
Proof.
  intros Hok Hord Hr Hfuel Hins.
  assert (Hb : built (keys_of ot) h t ot).
  { split; [done|]. split; [|done].
    destruct ot as [tr|]; simpl in *; [|constructor].
    destruct Hok as (_ & _ & _ & [d Hwf]). by eapply ordered_sorted. }
  destruct (bt_insert_built (keys_of ot) h t ot x prev fuel Hb Hr Hfuel)
    as (h1 & t1 & tr1 & r & Hins1 & _).
  rewrite Hins in Hins1. by simplify_eq.
Qed.

Lemma C10_prev_untouched_witness :
  let h := [mk_bnode 2 [5; 10; 0; 0; 0]%Z (replicate 6 None)] in
  let t := mk_bt (Some 0) 0 in
  let tr := ANode 0 [5; 10]%Z [] in
  let h' := [mk_bnode 3 [5; 7; 10; 0; 0]%Z (replicate 6 None)] in
  tree_ok h t (Some tr) /\ keys_ordered (Some tr) /\
  Forall int_range (keys_of (Some tr)) /\ 32 <= 32 /\
  bt_insert 32 h t 7 (Some 99%Z) = Ok (h', t, false, Some 99%Z) /\
  Some 99%Z = Some 99%Z.
Proof.
  intros h t tr h'.
  assert (H1 : tree_ok h t (Some tr)).
  { split; [reflexivity|]. split; [|split].
    - apply (rep_node h 0 [5; 10]%Z [] (mk_bnode 2 [5; 10; 0; 0; 0]%Z (replicate 6 None)));
        [reflexivity| |constructor].
      repeat split; try reflexivity. intros Hne. exfalso. apply Hne. reflexivity.
    - simpl. apply NoDup_singleton.
    - exists 1. constructor. simpl. lia. }
  assert (H2 : keys_ordered (Some tr)).
  { simpl. constructor; [repeat constructor| | |constructor].
    - intros i k c y _ Hc. discriminate Hc.
    - intros i k c y _ Hc. discriminate Hc. }
  assert (H3 : Forall int_range (keys_of (Some tr))).
  { simpl. repeat constructor; unfold int_range; simpl; lia. }
  assert (H4 : 32 <= 32) by lia.
  assert (H5 : bt_insert 32 h t 7 (Some 99%Z) = Ok (h', t, false, Some 99%Z))
    by reflexivity.
  split; [exact H1|]. split; [exact H2|]. split; [exact H3|]. split; [exact H4|].
  split; [exact H5|].
  exact (C10_prev_untouched 32 h h' t t (Some tr) 7%Z (Some 99%Z) (Some 99%Z)
           H1 H2 H3 H4 H5).
Defined.

(* ================================================================== *)
(** ** Freeing a tree *)
(* ================================================================== *)

Lemma load_live_ok h freed a nd :
  h !! a = Some nd -> a ∉ freed -> load_live h freed (Some a) = MOk nd.
Proof.
  intros Hh Hf. unfold load_live. rewrite bool_decide_eq_false_2 by done.
  by rewrite (load_Some _ _ _ Hh).
Qed.

Lemma free_ok h freed a :
  a < length h -> a ∉ freed -> free h freed a = MOk (freed ++ [a]).
Proof.
  intros Hl Hf. unfold free. rewrite bool_decide_eq_false_2 by done.
  apply Nat.ltb_lt in Hl. by rewrite Hl.
Qed.

Lemma bt_node_free_null fuel h freed : bt_node_free fuel h freed None = MOk freed.
Proof. by destruct fuel. Qed.

Lemma bt_node_free_S fuel' h freed a :
  bt_node_free (S fuel') h freed (Some a) =
    (freed ← free_loop (bt_node_free fuel' h) 7 h a 0 freed;
     nd ← load_live h freed (Some a);
     c ← lift (aget (bnode_children nd) (bnode_n nd));
     freed ← bt_node_free fuel' h freed c;
     free h freed a).
Proof. reflexivity. Qed.

Lemma free_loop_eq rec k h node i freed :
  free_loop rec k h node i freed =
    (nd ← load_live h freed (Some node);
     if i <? bnode_n nd then
       match k with
       | 0 => MErr (Plain OutOfFuel)
       | S k' =>
           c ← lift (aget (bnode_children nd) i);
           freed ← rec freed c;
           free_loop rec k' h node (i + 1) freed
       end
     else MOk freed).
Proof. by destruct k. Qed.

Lemma concat_perm_fmap {A B} (f g : A -> list B) (l : list A) :
  Forall (fun x => f x ≡ₚ g x) l -> concat (f <$> l) ≡ₚ concat (g <$> l).
Proof.
  induction 1 as [|x l Hx _ IH]; [done|]. simpl. by rewrite Hx, IH.
Qed.

Lemma postorder_perm t : postorder t ≡ₚ footprint t.
Proof.
  induction t as [a ks cs IH] using atree_ind'. simpl.
  rewrite <- Permutation_cons_append. constructor. by apply concat_perm_fmap.
Qed.

Lemma elem_of_postorder t x : x ∈ postorder t <-> x ∈ footprint t.
Proof. by rewrite postorder_perm. Qed.

Lemma elem_of_concat {A} (ls : list (list A)) x :
  x ∈ concat ls <-> exists l, x ∈ l /\ l ∈ ls.
Proof.
  rewrite list_elem_of_In, in_concat. split.
  - intros (l & Hl & Hx). exists l. by rewrite !list_elem_of_In.
  - intros (l & Hx & Hl). exists l. by rewrite <- !list_elem_of_In.
Qed.

Lemma elem_of_concat_take {A B} (f : A -> list B) (l : list A) i x :
  x ∈ concat (f <$> take i l) -> exists j c, j < i /\ l !! j = Some c /\ x ∈ f c.
Proof.
  intros Hx. apply elem_of_concat in Hx as (fp & Hx & Hfp).
  apply list_elem_of_fmap in Hfp as (c & -> & Hc).
  apply list_elem_of_lookup in Hc as (j & Hj).
  apply lookup_take_Some in Hj as [Hj Hlt]. eauto.
Qed.

(** The loop over the children of a leaf frees nothing. *)
Lemma free_loop_leaf fuel' h a nd k : forall i freed,
  h !! a = Some nd -> bnode_children nd = replicate 6 None ->
  a ∉ freed -> bnode_n nd <= 5 -> bnode_n nd <= k + i ->
  free_loop (bt_node_free fuel' h) k h a i freed = MOk freed.
Proof.
  induction k as [|k IH]; intros i freed Hh Hch Hf Hn Hk;
    rewrite free_loop_eq, (load_live_ok _ _ _ _ Hh Hf); cbn [mbind mres_bind].
  - assert ((i <? bnode_n nd) = false) as -> by (apply Nat.ltb_ge; lia). done.
  - destruct (i <? bnode_n nd) eqn:Hi; [|done]. apply Nat.ltb_lt in Hi.
    rewrite Hch, (aget_Some _ _ None) by (apply lookup_replicate_2; lia).
    cbn [lift mbind mres_bind]. rewrite bt_node_free_null. cbn [mbind mres_bind].
    apply IH; [done..|lia].
Qed.

(** The loop over the first [n] children of an internal node frees what is
    below them, from left to right. *)
Lemma free_loop_internal fuel' h a ks cs nd freed k : forall i,
  h !! a = Some nd -> node_matches nd ks cs -> length cs = S (length ks) ->
  NoDup (footprint (ANode a ks cs)) ->
  (forall x, x ∈ footprint (ANode a ks cs) -> x ∉ freed) ->
  (forall j c fr, cs !! j = Some c -> (forall x, x ∈ footprint c -> x ∉ fr) ->
     bt_node_free fuel' h fr (Some (addr c)) = MOk (fr ++ postorder c)) ->
  i <= length ks -> length ks <= k + i ->
  free_loop (bt_node_free fuel' h) k h a i (freed ++ concat (postorder <$> take i cs))
    = MOk (freed ++ concat (postorder <$> take (length ks) cs)).
Proof.
  intros i Hh Hm Hlen Hnd Hfr Hrec. revert i.
  assert (Ha : forall i, a ∉ freed ++ concat (postorder <$> take i cs)).
  { intros i. rewrite elem_of_app. intros [Hin|Hin].
    - apply (Hfr a); [|done]. simpl. left.
    - apply elem_of_concat_take in Hin as (j & c & _ & Hc & Hin).
      apply elem_of_postorder in Hin.
      by destruct (NoDup_footprint_child _ _ _ _ _ Hnd Hc) as [_ Hac]. }
  pose proof Hm as (Hnn & _).
  induction k as [|k IH]; intros i Hi Hk;
    rewrite free_loop_eq, (load_live_ok _ _ _ _ Hh (Ha i)); cbn [mbind mres_bind];
    rewrite Hnn.
  - assert (i = length ks) as -> by lia. by rewrite Nat.ltb_irrefl.
  - destruct (i <? length ks) eqn:Hlt.
    2:{ apply Nat.ltb_ge in Hlt. by assert (i = length ks) as -> by lia. }
    apply Nat.ltb_lt in Hlt.
    destruct (lookup_lt_is_Some_2 cs i) as [c Hc]; [lia|].
    rewrite (aget_Some _ _ _ (node_matches_child _ _ _ _ _ Hm Hlen Hc)).
    cbn [lift mbind mres_bind].
    rewrite (Hrec i c _ Hc).
    2:{ intros x Hx. rewrite elem_of_app. intros [Hin|Hin].
        - apply (Hfr x); [|done]. by eapply footprint_child_subset.
        - apply elem_of_concat_take in Hin as (j & cj & Hj & Hcj & Hin).
          apply elem_of_postorder in Hin.
          assert (Hji : j <> i) by lia.
          apply (footprint_siblings_disjoint _ _ _ _ _ _ _ _ Hnd Hji Hcj Hc Hin Hx). }
    cbn [mbind mres_bind].
    replace (_ ++ postorder c) with (freed ++ concat (postorder <$> take (i + 1) cs)).
    + apply IH; lia.
    + rewrite Nat.add_1_r, (take_S_r _ _ _ Hc), fmap_app, concat_app. simpl.
      by rewrite app_nil_r, app_assoc.
Qed.

(** [bt_node_free] on a node of a tree frees the nodes below it and then
    the node, and nothing else. *)
Lemma bt_node_free_spec t : forall lo d h freed fuel,
  wf lo 4 d t -> rep h t -> NoDup (footprint t) ->
  (forall x, x ∈ footprint t -> x ∉ freed) -> d <= fuel ->
  bt_node_free fuel h freed (Some (addr t)) = MOk (freed ++ postorder t).
Proof.
  induction t as [a ks cs IH] using atree_ind'.
  intros lo d h freed fuel Hwf Hrep Hnd Hfr Hfuel.
  pose proof (wf_depth_pos _ _ _ _ Hwf) as Hd.
  destruct fuel as [|fuel]; [lia|].
  assert (Hn4 : length ks <= 4) by (apply wf_keys in Hwf; simpl in Hwf; lia).
  pose proof (rep_bound _ _ Hrep) as Hbound.
  apply rep_inv in Hrep as (nd & Hh & Hm & Hkids).
  pose proof Hm as (Hnn & Hes & Hch & Hks & Hleaf & Hint).
  pose proof (lookup_lt_Some _ _ _ Hh) as Hal.
  assert (Haf : a ∉ freed) by (apply Hfr; simpl; left).
  cbn [addr]. rewrite bt_node_free_S.
  inversion Hwf as [? ? Hkl|? ? ? d' Hkl Hcs Hwkids]; subst.
  { (* a leaf *)
    rewrite (free_loop_leaf fuel h a nd 7 0 freed Hh (Hleaf eq_refl) Haf) by lia.
    cbn [mbind mres_bind]. rewrite (load_live_ok _ _ _ _ Hh Haf). cbn [mbind mres_bind].
    rewrite (aget_Some _ _ None)
      by (rewrite (Hleaf eq_refl); apply lookup_replicate_2; lia).
    cbn [lift mbind mres_bind]. rewrite bt_node_free_null. cbn [mbind mres_bind].
    by rewrite free_ok. }
  (* an internal node *)
  rewrite Forall_lookup in IH, Hkids, Hwkids.
  assert (Hrec : forall j c fr, cs !! j = Some c ->
            (forall x, x ∈ footprint c -> x ∉ fr) ->
            bt_node_free fuel h fr (Some (addr c)) = MOk (fr ++ postorder c)).
  { intros j c fr Hc Hdis.
    destruct (NoDup_footprint_child _ _ _ _ _ Hnd Hc) as [Hndc _].
    apply (IH j c Hc 2 d'); eauto. lia. }
  pose proof (free_loop_internal fuel h a ks cs nd freed 7 0 Hh Hm Hcs Hnd Hfr Hrec
                ltac:(lia) ltac:(lia)) as Hloop.
  rewrite take_0, fmap_nil in Hloop. cbn [concat] in Hloop. rewrite app_nil_r in Hloop.
  rewrite Hloop. cbn [mbind mres_bind].
  set (fr := freed ++ concat (postorder <$> take (length ks) cs)).
  assert (Hafr : a ∉ fr).
  { unfold fr. rewrite elem_of_app. intros [Hin|Hin]; [done|].
    apply elem_of_concat_take in Hin as (j & c & _ & Hc & Hin).
    apply elem_of_postorder in Hin.
    by destruct (NoDup_footprint_child _ _ _ _ _ Hnd Hc) as [_ Hac]. }
  rewrite (load_live_ok _ _ _ _ Hh Hafr). cbn [mbind mres_bind]. rewrite Hnn.
  destruct (lookup_lt_is_Some_2 cs (length ks)) as [c Hc]; [lia|].
  rewrite (aget_Some _ _ _ (node_matches_child _ _ _ _ _ Hm Hcs Hc)).
  cbn [lift mbind mres_bind].
  rewrite (Hrec (length ks) c fr Hc).
  2:{ intros x Hx. unfold fr. rewrite elem_of_app. intros [Hin|Hin].
      - apply (Hfr x); [|done]. by eapply footprint_child_subset.
      - apply elem_of_concat_take in Hin as (j & cj & Hj & Hcj & Hin).
        apply elem_of_postorder in Hin.
        assert (Hji : j <> length ks) by lia.
        apply (footprint_siblings_disjoint _ _ _ _ _ _ _ _ Hnd Hji Hcj Hc Hin Hx). }
  cbn [mbind mres_bind].
  assert (Hall : fr ++ postorder c = freed ++ concat (postorder <$> cs)).
  { unfold fr. rewrite <- (take_drop_middle cs (length ks) c Hc) at 2.
    rewrite drop_ge by lia. rewrite fmap_app, concat_app. simpl.
    by rewrite !app_nil_r, app_assoc. }
  rewrite Hall, free_ok; [by rewrite <- app_assoc|done|].
  rewrite elem_of_app. intros [Hin|Hin]; [done|].
  apply elem_of_concat in Hin as (fp & Hx & Hfp).
  apply list_elem_of_fmap in Hfp as (cj & -> & Hcj).
  apply list_elem_of_lookup in Hcj as (j & Hj).
  apply elem_of_postorder in Hx.
  by destruct (NoDup_footprint_child _ _ _ _ _ Hnd Hj) as [_ Hac].
Qed.

(* ================================================================== *)
(** ** The nodes [bt_insert] allocates *)
(* ================================================================== *)

Lemma asplit_footprint nxt c l m r :
  asplit nxt c = (l, m, r) -> footprint l ++ footprint r ≡ₚ nxt :: footprint c.
Proof.
  destruct c as [a ks cs]. intros Hsp. simpl in Hsp. simplify_eq. simpl.
  rewrite <- (take_drop 3 cs) at 3. rewrite fmap_app, concat_app.
  rewrite <- Permutation_middle. by apply perm_swap.
Qed.

Lemma seq_snoc_range nxt nxt' :
  nxt <= nxt' -> seq nxt (S nxt' - nxt) = seq nxt (nxt' - nxt) ++ [nxt'].
Proof.
  intros H. replace (S nxt' - nxt) with (S (nxt' - nxt)) by lia.
  rewrite seq_S. do 2 f_equal. lia.
Qed.

(** The nodes of the tree after [ains] are those before and the addresses
    handed out meanwhile, at most one for every level above the leaves. *)
Lemma ains_alloc t : forall lo d x nxt t' nxt' r,
  1 <= lo -> wf lo 4 d t -> ains x t nxt = (t', nxt', r) ->
  nxt <= nxt' /\ nxt' - nxt <= d - 1 /\
  footprint t' ≡ₚ footprint t ++ seq nxt (nxt' - nxt).
Proof.
  induction t as [a ks cs IH] using atree_ind'.
  intros lo d x nxt t' nxt' r Hlo Hwf Hains.
  assert (Hn : 1 <= length ks) by (apply wf_keys in Hwf; simpl in Hwf; lia).
  destruct (key_search_cases ks x Hn) as [(i & Hs & Hi & Hx)|(p & Hs & Hp)].
  { rewrite (ains_found _ _ _ _ _ i) in Hains by done. simplify_eq.
    rewrite Nat.sub_diag. simpl. rewrite app_nil_r. split; [lia|]. split; [lia|done]. }
  inversion Hwf as [? ? Hks|? ? ? d' Hks Hcs Hkids]; subst.
  { rewrite (ains_leaf _ _ _ _ p) in Hains by done. simplify_eq.
    rewrite Nat.sub_diag. simpl. split; [lia|]. split; [lia|done]. }
  destruct (node_cut ks cs p Hcs Hp) as (c & Hc & Hkseq & Hcseq & Hl1 & Hl2).
  rewrite (ains_child _ _ _ _ _ p c) in Hains by done.
  rewrite Forall_lookup in IH, Hkids.
  destruct (ains x c nxt) as [[c' nxt1] r1] eqn:Hc'.
  destruct (IH p c Hc 2 d' x nxt c' nxt1 r1 ltac:(lia) ltac:(eauto) Hc')
    as (Hle & Hbound & Hperm).
  assert (Hfpt : footprint (ANode a ks cs) =
            a :: concat (footprint <$> take p cs) ++ footprint c ++
                 concat (footprint <$> drop (S p) cs)).
  { rewrite Hcseq at 1. apply footprint_middle. }
  rewrite Hfpt.
  pose proof (wf_depth_pos _ _ _ _ (Hkids p c Hc)) as Hd'.
  destruct (length (akeys c') <=? 4).
  - simplify_eq. split; [done|]. split; [lia|].
    rewrite insert_take_drop by (by eapply lookup_lt_Some). rewrite footprint_middle.
    rewrite Hperm. simpl. constructor. rewrite <- !app_assoc. do 2 f_equiv.
    apply Permutation_app_comm.
  - destruct (asplit nxt1 c') as [[l m] r'] eqn:Hsp. simplify_eq.
    split; [lia|]. split; [lia|].
    rewrite footprint_middle2, (asplit_footprint _ _ _ _ _ Hsp), Hperm.
    rewrite seq_snoc_range by done. simpl. constructor.
    rewrite <- !app_assoc. f_equiv. simpl.
    rewrite Permutation_middle. f_equiv.
    rewrite (Permutation_app_comm (concat _) (seq _ _ ++ [nxt1])).
    by rewrite <- Permutation_cons_append.
Qed.

Lemma atree_insert_alloc x ot nxt t' nxt' r :
  match ot with
  | None => True
  | Some t => exists d, wf 1 4 d t
  end ->
  atree_insert x ot nxt = (t', nxt', r) ->
  nxt <= nxt' /\ nxt' - nxt <= height_of ot + 1 /\
  footprint t' ≡ₚ nodes_of ot ++ seq nxt (nxt' - nxt).
Proof.
  destruct ot as [t|]; simpl.
  2:{ intros _ ?. simplify_eq. replace (S nxt - nxt) with 1 by lia. simpl.
      split; [lia|]. split; [lia|done]. }
  intros [d Hwf] Hins.
  destruct (ains x t nxt) as [[t1 nxt1] r1] eqn:Hains.
  destruct (ains_alloc t 1 d x nxt t1 nxt1 r1 ltac:(lia) Hwf Hains)
    as (Hle & Hbound & Hperm).
  rewrite (wf_height _ _ _ _ Hwf).
  pose proof (wf_depth_pos _ _ _ _ Hwf) as Hd.
  destruct (4 <? length (akeys t1)).
  - destruct (asplit (S nxt1) t1) as [[l m] r'] eqn:Hsp. simplify_eq.
    split; [lia|]. split; [lia|].
    simpl. rewrite app_nil_r, (asplit_footprint _ _ _ _ _ Hsp), Hperm.
    replace (S (S nxt1) - nxt) with (S (S nxt1 - nxt)) by lia.
    rewrite seq_S, seq_snoc_range by done.
    replace (nxt + (S nxt1 - nxt)) with (S nxt1) by lia.
    rewrite !app_assoc, <- !Permutation_cons_append. by apply perm_swap.
  - simplify_eq. split; [done|]. split; [lia|done].
Qed.

(** A tree with at least one key in every node has no more nodes than
    keys. *)
Lemma concat_length_le {A B} (f : A -> list B) (g : A -> list Z) (l : list A) :
  Forall (fun x => length (f x) <= length (g x)) l ->
  length (concat (f <$> l)) <= length (concat (g <$> l)).
Proof.
  induction 1 as [|x l Hx _ IH]; [done|].
  rewrite !fmap_cons. cbn [concat]. rewrite !length_app. lia.
Qed.

Lemma wf_nodes_keys t : forall lo hi d,
  1 <= lo -> wf lo hi d t -> length (footprint t) <= length (inorder t).
Proof.
  induction t as [a ks cs IH] using atree_ind'.
  intros lo hi d Hlo Hwf. inversion Hwf as [? ? Hks|? ? ? d' Hks Hcs Hkids]; subst.
  { rewrite inorder_leaf. simpl. lia. }
  cbn [footprint inorder]. rewrite interleave_length by (by rewrite length_fmap).
  cbn [length].
  assert (length (concat (footprint <$> cs)) <= length (concat (inorder <$> cs))); [|lia].
  apply concat_length_le. rewrite Forall_forall in IH, Hkids |- *.
  intros c Hc. apply (IH c Hc 2 4 d'); [lia|auto].
Qed.

(* ================================================================== *)
(** ** Trees that satisfy the invariants *)
(* ================================================================== *)

Lemma valid_built h t ot :
  tree_ok h t ot -> keys_ordered ot -> built (keys_of ot) h t ot.
Proof.
  intros Hok Hord. split; [done|]. split; [|done].
  destruct ot as [tr|]; simpl in *; [|constructor].
  destruct Hok as (_ & _ & _ & [d Hwf]). by eapply ordered_sorted.
Qed.

Lemma built_int_range xs h t ot :
  built xs h t ot -> Forall int_range xs -> Forall int_range (keys_of ot).
Proof.
  intros (_ & _ & Hkeys & _) Hr. rewrite Forall_forall in Hr |- *.
  intros y Hy. by apply Hr, Hkeys.
Qed.

(** The store of a tree built from the empty store holds the nodes of the
    tree and no other. *)
Lemma bt_insert_all_packed calls : forall pre h t ot fuel,
  built pre h t ot -> packed h ot -> Forall int_range (pre ++ calls.*1) -> 32 <= fuel ->
  exists h' t' ot',
    bt_insert_all fuel h t calls = Ok (h', t') /\ built (pre ++ calls.*1) h' t' ot' /\
    packed h' ot'.
Proof.
  induction calls as [|[x prev] calls IH]; intros pre h t ot fuel Hb Hp Hr Hfuel.
  - simpl. rewrite app_nil_r. by exists h, t, ot.
  - rewrite fmap_cons in Hr |- *. cbn [fst] in Hr |- *. cbn [bt_insert_all].
    destruct (bt_insert_step pre h t ot x prev fuel Hb)
      as (h1 & tr1 & r & Hins & Hrun & Hb1 & _); [|done|].
    { apply Forall_app in Hr. tauto. }
    rewrite Hrun. cbn [mbind res_bind].
    replace (pre ++ x :: calls.*1) with ((pre ++ [x]) ++ calls.*1) in *
      by (by rewrite <- app_assoc).
    apply (IH (pre ++ [x]) h1 _ (Some tr1) fuel Hb1); [|done..].
    destruct (atree_insert_alloc x ot (length h) tr1 (length h1) r) as (Hle & _ & Hperm).
    { pose proof (built_shape _ _ _ _ Hb) as Hshape.
      destruct ot; [|done]. tauto. }
    { done. }
    unfold packed in *. simpl. rewrite Hperm, Hp.
    replace (length h1) with (length h + (length h1 - length h)) at 2 by lia.
    by rewrite seq_app.
Qed.

Lemma bt_build_packed calls fuel :
  Forall int_range calls.*1 -> 32 <= fuel ->
  exists h t ot, bt_build fuel calls = Ok (h, t) /\ built calls.*1 h t ot /\ packed h ot.
Proof.
  intros Hr Hfuel. unfold bt_build.
  apply (bt_insert_all_packed calls [] [] bt_mk None fuel built_empty); [|done..].
  by unfold packed.
Qed.

(* ================================================================== *)
(** ** Lookup *)
(* ================================================================== *)

(** The out-parameter of [bt_lookup_node] does not change what is found. *)
Lemma lookup_loop_out fuel : forall h curr x n0 res out,
  lookup_loop fuel h curr x (Some n0) = Ok (res, out) ->
  lookup_loop fuel h curr x None = Ok (res, None).
Proof.
  induction fuel as [|fuel IH]; intros h curr x n0 res out; destruct curr as [a|];
    try (simpl; by intros [= <- <-]); try done.
  rewrite !lookup_loop_S. cbv zeta.
  destruct (load h (Some a)) as [nd|]; cbn [mbind res_bind]; [|done].
  destruct (bt_node_bsearch nd x) as [idx|]; cbn [mbind res_bind]; [|done].
  destruct (0 <=? idx)%Z; [by intros [= <- <-]|].
  destruct (aget (bnode_children nd) (Z.to_nat (- idx - 1))) as [next|];
    cbn [mbind res_bind]; [|done].
  apply IH.
Qed.

(** What [bt_lookup_node] leaves in [*node]: the node that holds the
    element, or the leaf at which the search ended. *)
Lemma lookup_loop_node_spec t : forall lo d h x fuel n0,
  1 <= lo -> wf lo 4 d t -> rep h t -> StronglySorted Z.lt (inorder t) -> d <= fuel ->
  match lookup_loop fuel h (Some (addr t)) x (Some n0) with
  | Ok (Some p, out) => out = Some (Some p.1)
  | Ok (None, out) =>
      (x ∉ inorder t) /\ out = Some (Some (search_leaf x t)) /\
      search_leaf x t ∈ footprint t /\
      exists nd, h !! search_leaf x t = Some nd /\
        bnode_children nd = replicate 6 None
  | Err _ => False
  end.
Proof.
  induction t as [a ks cs IH] using atree_ind'.
  intros lo d h x fuel n0 Hlo Hwf Hrep Hsort Hfuel.
  pose proof (wf_depth_pos _ _ _ _ Hwf) as Hd.
  destruct fuel as [|fuel]; [lia|].
  assert (Hn : 1 <= length ks) by (apply wf_keys in Hwf; simpl in Hwf; lia).
  assert (Hn4 : length ks <= 4) by (apply wf_keys in Hwf; simpl in Hwf; lia).
  pose proof (sorted_inorder_keys _ _ _ _ Hwf Hsort) as Hsk. simpl in Hsk.
  apply rep_inv in Hrep as (nd & Hh & Hm & Hkids).
  pose proof Hm as (Hnn & Hes & Hch & Hks & Hleaf & Hint).
  cbn [addr]. rewrite lookup_loop_S. cbv zeta.
  pose proof (load_Some _ _ _ Hh) as E. rewrite E. cbn [mbind res_bind].
  rewrite (bsearch_key_search nd ks x Hn Hnn Hks).
  destruct (key_search_sorted ks x Hsk Hn)
    as [(i & Hs & Hi & Hx)|(p & Hs & Hp & Hlo1 & Hhi1)].
  { rewrite Hs. cbn [mbind res_bind].
    assert ((0 <=? Z.of_nat i)%Z = true) as -> by (apply Z.leb_le; lia). done. }
  rewrite Hs. cbn [mbind res_bind]. rewrite key_search_notfound_pos, key_search_decode.
  inversion Hwf as [? ? Hkl|? ? ? d' Hkl Hcs Hwkids]; subst.
  { rewrite (aget_Some _ _ _ (node_matches_leaf_child _ _ p Hm ltac:(lia))).
    cbn [mbind res_bind].
    assert (lookup_loop fuel h None x (Some (Some a)) = Ok (None, Some (Some a))) as ->
      by (by destruct fuel).
    split.
    { rewrite inorder_leaf, <- (take_drop p ks). by apply not_elem_of_split. }
    split; [done|]. split; [simpl; left|]. exists nd. split; [done|by apply Hleaf]. }
  destruct (node_cut ks cs p Hcs Hp) as (c & Hc & _).
  rewrite (aget_Some _ _ _ (node_matches_child _ _ _ _ _ Hm Hcs Hc)).
  cbn [mbind res_bind].
  rewrite Forall_lookup in IH, Hkids, Hwkids.
  assert (Hsc : StronglySorted Z.lt (inorder c)).
  { rewrite (inorder_cut a ks cs p c Hcs Hp Hc) in Hsort.
    apply StronglySorted_app_1_r in Hsort. by apply StronglySorted_app_1_l in Hsort. }
  specialize (IH p c Hc 2 d' h x fuel (Some a)
                ltac:(lia) ltac:(eauto) ltac:(eauto) Hsc ltac:(lia)).
  destruct (lookup_loop fuel h (Some (addr c)) x (Some (Some a))) as [[[q|] out]|];
    [done| |done].
  destruct IH as (Hnin & -> & Hb & nb & Hnb & Hleafb).
  assert (Hcnt : count_lt x ks = p).
  { rewrite <- (take_drop p ks) at 1. rewrite count_lt_split; [rewrite length_take; lia|done|].
    eapply Forall_impl; [exact Hhi1|]. simpl. lia. }
  assert (Hsl : search_leaf x (ANode a ks cs) = search_leaf x c).
  { cbn [search_leaf]. by rewrite Hcnt, list_lookup_fmap, Hc. }
  rewrite Hsl. split.
  { rewrite (inorder_cut a ks cs p c Hcs Hp Hc), !elem_of_app.
    rewrite (inorder_cut a ks cs p c Hcs Hp Hc) in Hsort.
    assert (Hpre : Forall (fun k => (k < x)%Z) (zip_pre (inorder <$> take p cs) (take p ks))).
    { eapply zip_pre_below; [|exact Hsort|done]. rewrite length_fmap, !length_take. lia. }
    assert (Hpost : Forall (fun k => (x < k)%Z)
                      (zip_post (drop p ks) (inorder <$> drop (S p) cs))).
    { apply zip_post_above; [|by do 2 apply StronglySorted_app_1_r in Hsort|done].
      rewrite length_fmap, !length_drop. lia. }
    rewrite Forall_forall in Hpre, Hpost.
    intros [Hx|[Hx|Hx]]; [|done|].
    - apply Hpre in Hx. lia.
    - apply Hpost in Hx. lia. }
  split; [done|]. split; [by eapply footprint_child_subset|]. by exists nb.
Qed.

(* ================================================================== *)
(** ** The number of probes of the binary search *)
(* ================================================================== *)

Lemma log2_half q s : 1 <= q -> 2 * q <= s -> Nat.log2 q + 1 <= Nat.log2 s.
Proof.
  intros Hq Hs. pose proof (Nat.log2_double q ltac:(lia)) as Hd.
  pose proof (Nat.log2_le_mono (2 * q) s Hs). lia.
Qed.

Lemma bsearch_loop_probes fuel es x : forall left right,
  left < right -> right <= length es -> right - left <= fuel ->
  length (bsearch_loop fuel es x left right).1 <= Nat.log2 (right - left) + 1.
Proof.
  induction fuel as [|fuel IH]; intros left right Hlt Hlen Hfuel; [lia|].
  cbn [bsearch_loop]. pose proof (mid_bounds left right Hlt) as Hmid.
  assert (Hhalf : 2 * ((right - left) / 2) <= right - left)
    by (apply Nat.Div0.mul_div_le).
  assert (Hrest : right - left <= 2 * ((right - left) / 2) + 1).
  { pose proof (Nat.div_mod_eq (right - left) 2).
    pose proof (Nat.mod_upper_bound (right - left) 2 ltac:(lia)). lia. }
  set (mid := left + (right - left) / 2) in *.
  destruct (es !! mid) as [e|] eqn:He.
  2:{ apply lookup_ge_None in He. lia. }
  destruct (cmp_cases x e) as [(Hc & -> & ->)|[(Hc & -> & -> & ->)|(Hc & -> & -> & ->)]];
    simpl; [| |lia].
  - destruct (mid + 1 <? right) eqn:Hl; [|simpl; lia].
    apply Nat.ltb_lt in Hl.
    pose proof (IH (mid + 1) right ltac:(lia) ltac:(lia) ltac:(lia)) as Hb.
    destruct (bsearch_loop fuel es x (mid + 1) right) as [tr r]; simpl in *.
    pose proof (log2_half (right - (mid + 1)) (right - left) ltac:(lia) ltac:(lia)). lia.
  - destruct (left <? mid) eqn:Hl; [|simpl; lia].
    apply Nat.ltb_lt in Hl.
    pose proof (IH left mid ltac:(lia) ltac:(lia) ltac:(lia)) as Hb.
    destruct (bsearch_loop fuel es x left mid) as [tr r]; simpl in *.
    pose proof (log2_half (mid - left) (right - left) ltac:(lia) ltac:(lia)). lia.
Qed.

(* ================================================================== *)
(** ** Printing a tree *)
(* ================================================================== *)

Lemma string_app_nil_r (s : string) : s +:+ "" = s.
Proof.
  induction s as [|c s IH]; [done|].
  change (String c (s +:+ "") = String c s). by rewrite IH.
Qed.

Lemma print_elems_eq k nd i :
  print_elems k nd i =
    if i <? bnode_n nd then
      match k with
      | 0 => MErr (Plain OutOfFuel)
      | S k' =>
          e ← lift (aget (bnode_elems nd) i);
          rest ← print_elems k' nd (i + 1);
          MOk (" " +:+ fmt_d e +:+ rest)
      end
    else MOk "".
Proof. by destruct k. Qed.

Lemma print_children_eq rec k nd i :
  print_children rec k nd i =
    if i <=? bnode_n nd then
      match k with
      | 0 => MErr (Plain OutOfFuel)
      | S k' =>
          c ← lift (aget (bnode_children nd) i);
          s ← rec c;
          rest ← print_children rec k' nd (i + 1);
          MOk (s +:+ rest)
      end
    else MOk "".
Proof. by destruct k. Qed.

Lemma bt_print_S fuel' h a depth :
  bt_print (S fuel') h (Some a) depth =
    (nd ← lift (load h (Some a));
     es ← print_elems 6 nd 0;
     let line := indent depth +:+ "elems:" +:+ es +:+ nl in
     c0 ← lift (aget (bnode_children nd) 0);
     match c0 with
     | None => MOk line
     | Some _ =>
         if (depth + 1 <? 2 ^ 31)%Z then
           rest ← print_children (fun c => bt_print fuel' h c (depth + 1)) 7 nd 0;
           MOk (line +:+ rest)
         else MErr SignedOverflow
     end).
Proof. reflexivity. Qed.

Lemma print_elems_spec nd (ks : list Z) cs k : forall i,
  node_matches nd ks cs -> length ks <= k + i ->
  print_elems k nd i = MOk (foldr (fun e s => " " +:+ fmt_d e +:+ s) "" (drop i ks)).
Proof.
  induction k as [|k IH]; intros i Hm Hk; pose proof Hm as (Hnn & _);
    rewrite print_elems_eq, Hnn.
  - assert ((i <? length ks) = false) as -> by (apply Nat.ltb_ge; lia).
    by rewrite drop_ge by lia.
  - destruct (i <? length ks) eqn:Hi.
    2:{ apply Nat.ltb_ge in Hi. by rewrite drop_ge by lia. }
    apply Nat.ltb_lt in Hi.
    destruct (lookup_lt_is_Some_2 ks i Hi) as [e He].
    rewrite (aget_Some _ _ _ (node_matches_key _ _ _ _ _ Hm He)).
    cbn [lift mbind mres_bind]. rewrite IH by (done || lia). cbn [mbind mres_bind].
    by rewrite (drop_S _ _ _ He), Nat.add_1_r.
Qed.

Lemma print_children_spec rec nd (ks : list Z) cs (f : atree -> string) k : forall i,
  node_matches nd ks cs -> length cs = S (length ks) ->
  (forall j c, cs !! j = Some c -> rec (Some (addr c)) = MOk (f c)) ->
  i <= S (length ks) -> S (length ks) <= k + i ->
  print_children rec k nd i = MOk (foldr (fun c s => f c +:+ s) "" (drop i cs)).
Proof.
  induction k as [|k IH]; intros i Hm Hlen Hrec Hi Hk; pose proof Hm as (Hnn & _);
    rewrite print_children_eq, Hnn.
  - assert ((i <=? length ks) = false) as -> by (apply Nat.leb_gt; lia).
    by rewrite drop_ge by lia.
  - destruct (i <=? length ks) eqn:Hle.
    2:{ apply Nat.leb_gt in Hle. by rewrite drop_ge by lia. }
    apply Nat.leb_le in Hle.
    destruct (lookup_lt_is_Some_2 cs i) as [c Hc]; [lia|].
    rewrite (aget_Some _ _ _ (node_matches_child _ _ _ _ _ Hm Hlen Hc)).
    cbn [lift mbind mres_bind]. rewrite (Hrec i c Hc). cbn [mbind mres_bind].
    rewrite IH by (done || lia). cbn [mbind mres_bind].
    by rewrite (drop_S _ _ _ Hc), Nat.add_1_r.
Qed.

(** [bt_print] on a node of a tree writes the lines of the tree. *)
Lemma bt_print_spec t : forall lo d h fuel depth,
  wf lo 4 d t -> rep h t -> d <= fuel -> (depth + Z.of_nat d <= 2 ^ 31)%Z ->
  bt_print fuel h (Some (addr t)) depth = MOk (show depth t).
Proof.
  induction t as [a ks cs IH] using atree_ind'.
  intros lo d h fuel depth Hwf Hrep Hfuel Hdepth.
  pose proof (wf_depth_pos _ _ _ _ Hwf) as Hd.
  destruct fuel as [|fuel]; [lia|].
  assert (Hn4 : length ks <= 4) by (apply wf_keys in Hwf; simpl in Hwf; lia).
  apply rep_inv in Hrep as (nd & Hh & Hm & Hkids).
  pose proof Hm as (Hnn & Hes & Hch & Hks & Hleaf & Hint).
  cbn [addr]. rewrite bt_print_S, (load_Some _ _ _ Hh). cbn [lift mbind mres_bind].
  rewrite (print_elems_spec nd ks cs 6 0 Hm) by lia. cbn [mbind mres_bind]. cbv zeta.
  rewrite drop_0.
  inversion Hwf as [? ? Hkl|? ? ? d' Hkl Hcs Hwkids]; subst.
  { rewrite (aget_Some _ _ _ (node_matches_leaf_child _ _ 0 Hm ltac:(lia))).
    cbn [lift mbind mres_bind show foldr]. by rewrite string_app_nil_r. }
  destruct (lookup_lt_is_Some_2 cs 0) as [c0 Hc0]; [lia|].
  rewrite (aget_Some _ _ _ (node_matches_child _ _ _ _ _ Hm Hcs Hc0)).
  cbn [lift mbind mres_bind].
  rewrite Forall_lookup in IH, Hkids, Hwkids.
  pose proof (wf_depth_pos _ _ _ _ (Hwkids 0 c0 Hc0)) as Hd'.
  assert ((depth + 1 <? 2 ^ 31)%Z = true) as -> by (apply Z.ltb_lt; lia).
  rewrite (print_children_spec _ nd ks cs (show (depth + 1)) 7 0 Hm Hcs); [|  |lia|lia].
  - cbn [mbind mres_bind show]. by rewrite drop_0.
  - intros j c Hc. apply (IH j c Hc 2 d'); eauto; lia.
Qed.

(* ================================================================== *)
(** ** The keys determine what the iterator yields *)
(* ================================================================== *)

Lemma sorted_same_keys (l1 l2 : list Z) :
  StronglySorted Z.lt l1 -> StronglySorted Z.lt l2 ->
  (forall y, y ∈ l1 <-> y ∈ l2) -> l1 = l2.
Proof.
  intros H1 H2 Hk.
  apply (StronglySorted_unique_strong Z.lt); [|done|done|].
  - intros x1 x2 _ _ ? ?. lia.
  - apply NoDup_Permutation; [by apply sorted_NoDup|by apply sorted_NoDup|done].
Qed.

(* ================================================================== *)
(** ** Stopping the iterator early *)
(* ================================================================== *)

Lemma bt_iter_nexts_spec k : forall fuel h iter D d fs,
  frames_ok h D d fs -> D <= 32 -> stack_holds iter fs -> 100 < fuel ->
  k <= length (rem_unvisited fs) ->
  exists iter' ps d' fs',
    bt_iter_nexts k fuel h iter = Ok (iter', Some <$> ps) /\
    Forall2 (fun p v => deref h p = Ok v) ps (take k (rem_unvisited fs)) /\
    frames_ok h D d' fs' /\ stack_holds iter' fs' /\
    rem_unvisited fs' = drop k (rem_unvisited fs).
Proof.
  induction k as [|k IH]; intros fuel h iter D d fs Hfs HD Hst Hfuel Hk.
  { exists iter, [], d, fs. rewrite take_0, drop_0. simpl.
    split; [done|]. split; [constructor|done]. }
  cbn [bt_iter_nexts].
  pose proof (bt_iter_dfs_next_spec fuel h iter D d fs Hfs HD Hst Hfuel) as H.
  destruct (bt_iter_dfs_next fuel h iter) as [[iter1 r]|]; [|done].
  cbn [mbind res_bind].
  destruct (rem_unvisited fs) as [|x R] eqn:HR; [simpl in Hk; lia|].
  destruct H as (p & d1 & fs1 & -> & Hp & Hfs1 & Hst1 & HR1).
  destruct (IH fuel h iter1 D d1 fs1 Hfs1 HD Hst1 Hfuel)
    as (iter' & ps & d' & fs' & Hrun & Hps & Hfs' & Hst' & HR').
  { rewrite HR1. simpl in Hk. lia. }
  rewrite Hrun. cbn [mbind res_bind].
  exists iter', (p :: ps), d', fs'. rewrite HR1 in Hps, HR'.
  split; [done|]. split; [by constructor|]. done.
Qed.

Lemma iter_prefix_built xs h t ot fuel k n :
  built xs h t ot -> Forall int_range xs -> 100 < fuel ->
  k <= length (keys_of ot) -> length (keys_of ot) < n + k ->
  exists iter' ps,
    bt_iter_nexts k fuel h (bt_iter_dfs_mk t) = Ok (iter', Some <$> ps) /\
    Forall2 (fun p v => deref h p = Ok v) ps (take k (keys_of ot)) /\
    bt_iter_collect n fuel h iter' = Ok (drop k (keys_of ot)).
Proof.
  intros Hb Hr Hfuel Hk Hn. pose proof Hb as (Hok & Hs & Hkeys & _).
  destruct ot as [tr|]; simpl in *.
  - destruct Hok as (Hroot & Hrep & Hnd & [d Hwf]).
    assert (HD : d <= 32).
    { eapply wf_height_bound; eauto.
      rewrite Forall_forall in Hr |- *. intros y Hy. apply Hr. by apply Hkeys. }
    assert (Hfs : frames_ok h d d [(tr, 0)]) by (by apply (frames_root h d tr 0 1)).
    assert (Hst : stack_holds (bt_iter_dfs_mk t) [(tr, 0)]).
    { unfold stack_holds, bt_iter_dfs_mk. rewrite Hroot. simpl.
      split; [done|]. split; [done|]. intros [|j] f Hf; simpl in *; by simplify_eq. }
    assert (Hrem : rem_unvisited [(tr, 0)] = inorder tr).
    { simpl. by rewrite app_nil_r, (seq_from_0 1 4 d tr). }
    destruct (bt_iter_nexts_spec k fuel h _ d d [(tr, 0)] Hfs HD Hst Hfuel)
      as (iter' & ps & d' & fs' & Hrun & Hps & Hfs' & Hst' & HR'); [by rewrite Hrem|].
    rewrite Hrem in Hps, HR'.
    exists iter', ps. split; [done|]. split; [done|].
    rewrite <- HR'. apply (bt_iter_collect_spec n fuel h iter' d d' fs'); try done.
    rewrite HR', length_drop. lia.
  - assert (k = 0) as -> by lia. exists (bt_iter_dfs_mk t), []. simpl.
    split; [done|]. split; [constructor|].
    destruct n as [|n]; [lia|]. destruct fuel as [|fuel]; [lia|].
    unfold bt_iter_dfs_mk. rewrite Hok. reflexivity.
Qed.

(* ================================================================== *)
(** ** What [bt_split_node] needs *)
(* ================================================================== *)

Lemma bt_split_node_room h parent idx pn :
  h !! parent = Some pn -> length (bnode_children pn) = 6 -> idx < 6 ->
  bnode_n pn < idx \/ 5 <= bnode_n pn ->
  bt_split_node h parent idx = Err OutOfBounds.
Proof.
  intros Hp Hlen Hidx Hn. unfold bt_split_node.
  rewrite (load_Some _ _ _ Hp). cbn [mbind res_bind].
  destruct (lookup_lt_is_Some_2 (bnode_children pn) idx) as [c Hc]; [lia|].
  rewrite (aget_Some _ _ _ Hc). cbn [mbind res_bind].
  unfold update. rewrite (load_Some _ _ _ Hp). cbn [mbind res_bind].
  unfold shift_right.
  assert ((idx <=? bnode_n pn) && (idx + 1 + (bnode_n pn - idx) + 1 <=?
            length (bnode_children pn)) = false) as ->; [|done].
  apply andb_false_iff. destruct Hn as [Hn|Hn].
  - left. apply Nat.leb_gt. lia.
  - right. apply Nat.leb_gt. lia.
Qed.

Lemma bt_split_node_null h parent idx pn :
  h !! parent = Some pn -> length (bnode_children pn) = 6 ->
  idx <= bnode_n pn -> bnode_n pn <= 4 ->
  bnode_children pn !! idx = Some None ->
  bt_split_node h parent idx = Err NullDeref.
Proof.
  intros Hp Hlen Hidx Hn Hc.
  pose proof (lookup_lt_Some _ _ _ Hp) as Hpl.
  unfold bt_split_node.
  rewrite (load_Some _ _ _ Hp). cbn [mbind res_bind].
  rewrite (aget_Some _ _ _ Hc). cbn [mbind res_bind].
  set (ch1 := take (idx + 1 + 1) (bnode_children pn)
                ++ take (bnode_n pn - idx) (drop (idx + 1) (bnode_children pn))
                ++ drop (idx + 1 + (bnode_n pn - idx) + 1) (bnode_children pn)).
  assert (Hch1 : length ch1 = 6).
  { unfold ch1. rewrite !length_app, !length_take, !length_drop. lia. }
  rewrite (update_Some h parent pn (set_children ch1 pn)); [|done|].
  2:{ rewrite shift_right_Ok by lia. done. }
  cbn [mbind res_bind]. unfold calloc_bnode. rewrite length_insert.
  set (h1 := <[parent := set_children ch1 pn]> h ++ [bnode_zero]).
  rewrite (update_Some h1 parent (set_children ch1 pn)
             (set_children (<[idx + 1 := Some (length h)]> ch1) (set_children ch1 pn))).
  2:{ unfold h1. by heap_lookup. }
  2:{ cbn [set_children bnode_children]. rewrite aset_lt by lia. done. }
  reflexivity.
Qed.

(* ================================================================== *)
(** ** Freeing twice *)
(* ================================================================== *)

Lemma bt_node_free_frees fuel h freed a fr :
  bt_node_free fuel h freed (Some a) = MOk fr -> a ∈ fr.
Proof.
  destruct fuel as [|fuel]; [done|]. rewrite bt_node_free_S.
  destruct (free_loop (bt_node_free fuel h) 7 h a 0 freed) as [f1|];
    cbn [mbind mres_bind]; [|done].
  destruct (load_live h f1 (Some a)) as [nd|]; cbn [mbind mres_bind]; [|done].
  destruct (lift (aget (bnode_children nd) (bnode_n nd))) as [c|];
    cbn [mbind mres_bind]; [|done].
  destruct (bt_node_free fuel h f1 c) as [f2|]; cbn [mbind mres_bind]; [|done].
  unfold free. destruct (bool_decide (a ∈ f2)); [done|].
  destruct (a <? length h); [|done].
  intros [= <-]. rewrite elem_of_app, list_elem_of_singleton. by right.
Qed.

Lemma bt_node_free_again fuel h fr a :
  a ∈ fr -> 1 <= fuel -> bt_node_free fuel h fr (Some a) = MErr UseAfterFree.
Proof.
  intros Ha Hfuel. destruct fuel as [|fuel]; [lia|].
  rewrite bt_node_free_S, free_loop_eq. unfold load_live.
  by rewrite bool_decide_eq_true_2.
Qed.

(* ================================================================== *)
(** ** The height of a tree of C [int]s *)
(* ================================================================== *)

Lemma wf_height_int d t :
  wf 1 4 d t -> StronglySorted Z.lt (inorder t) -> Forall int_range (inorder t) ->
  d <= 20.
Proof.
  intros Hwf Hs Hr.
  pose proof (wf_count_root d t Hwf) as Hc.
  pose proof (sorted_range_length _ (- 2 ^ 31) (2 ^ 31) Hs Hr) as Hl.
  destruct (le_gt_dec d 20) as [|Hgt]; [done|exfalso].
  assert (3 ^ 20 <= 3 ^ (Z.of_nat d - 1))%Z as Hp by (apply Z.pow_le_mono_r; lia).
  assert (3 ^ 20 = 3486784401)%Z as Hp3 by reflexivity.
  assert (2 ^ 31 = 2147483648)%Z as Hp2 by reflexivity.
  lia.
Qed.

(** A tree of [m] keys is searched with [fuel] visits when
    [m + 1 < 2 * 3 ^ fuel]. *)
Lemma wf_height_log d t fuel :
  wf 1 4 d t ->
  (Z.of_nat (length (inorder t)) + 1 < 2 * 3 ^ Z.of_nat fuel)%Z -> d <= fuel.
Proof.
  intros Hwf Hm. pose proof (wf_count_root d t Hwf) as Hc.
  pose proof (wf_depth_pos _ _ _ _ Hwf) as Hd.
  destruct (le_gt_dec d fuel) as [|Hgt]; [done|exfalso].
  assert (3 ^ Z.of_nat fuel <= 3 ^ (Z.of_nat d - 1))%Z by (apply Z.pow_le_mono_r; lia).
  lia.
Qed.

(* ================================================================== *)
(** ** The height after [bt_insert] *)
(* ================================================================== *)

Lemma atree_insert_height x ot nxt t' nxt' r :
  match ot with
  | None => True
  | Some t => (exists d, wf 1 4 d t) /\ NoDup (footprint t) /\
              Forall (fun a => a < nxt) (footprint t)
  end ->
  atree_insert x ot nxt = (t', nxt', r) ->
  height_of ot <= height t' <= height_of ot + 1 /\
  (Some (addr t') = addr <$> ot -> height t' = height_of ot).
Proof.
  destruct ot as [t|]; simpl.
  2:{ intros _ ?. simplify_eq. simpl. split; [lia|done]. }
  intros ([d Hwf] & Hnd & Hlt) Hins.
  destruct (ains_shape t 1 d x nxt)
    as (t1 & nxt1 & r1 & Hains & Hwf1 & Haddr & Hnxt & Hnd1 & Hfp1 & Hrt); [lia|done..|].
  rewrite Hains in Hins. rewrite (wf_height _ _ _ _ Hwf).
  destruct (4 <? length (akeys t1)) eqn:Hov.
  - apply Nat.ltb_lt in Hov.
    assert (Hlen5 : length (akeys t1) = 5) by (apply wf_keys in Hwf1; lia).
    destruct (asplit (S nxt1) t1) as [[l m] r'] eqn:Hsp.
    destruct (asplit_wf _ _ _ _ _ _ _ Hwf1 Hlen5 Hsp) as (Hwl & Hwr & _).
    simplify_eq.
    assert (Hwf' : wf 1 4 (S d) (ANode nxt1 [m] [l; r'])).
    { constructor; simpl; auto; lia. }
    rewrite (wf_height _ _ _ _ Hwf'). split; [lia|].
    simpl. intros [= Heq]. rewrite Forall_forall in Hlt.
    pose proof (Hlt (addr t) (addr_in_footprint t)). lia.
  - simplify_eq.
    assert (Hwf' : wf 1 4 d t') by (eapply wf_tighten; [exact Hwf1|apply Nat.ltb_ge in Hov; lia]).
    rewrite (wf_height _ _ _ _ Hwf'). split; [lia|done].
Qed.

(* ================================================================== *)
(** ** Further properties: freeing and printing *)
(* ================================================================== *)

(** X1.  On a tree that satisfies the shape invariants and none of whose
    nodes has been freed, [bt_free] returns: it loads through no freed node
    and frees no node twice.  It hands to [free] the nodes of the tree and no
    other, each once, every node after the nodes below it; the slots past
    [n] that a split left behind are not followed. *)
Theorem X1_free_frees_tree (h : list bnode) (t : bt) (ot : option atree)
    (freed : list nat) (fuel : nat) :
  tree_ok h t ot -> (forall a, a ∈ nodes_of ot -> a ∉ freed) ->
  height_of ot <= fuel ->
  exists fr,
    bt_free fuel h freed t = MOk (freed ++ fr) /\
    fr ≡ₚ nodes_of ot /\ NoDup fr /\
    (forall tr, ot = Some tr -> fr = postorder tr).
Proof.
  intros Hok Hfr Hfuel. unfold bt_free. destruct ot as [tr|]; simpl in *.
  - destruct Hok as (Hroot & Hrep & Hnd & [d Hwf]). rewrite Hroot.
    rewrite (wf_height _ _ _ _ Hwf) in Hfuel.
    exists (postorder tr). split; [by apply (bt_node_free_spec tr 1 d)|].
    split; [apply postorder_perm|]. split; [by rewrite postorder_perm|].
    by intros ? [= <-].
  - rewrite Hok. exists []. rewrite app_nil_r, bt_node_free_null.
    split; [done|]. split; [done|]. split; [constructor|done].
Qed.

Lemma X1_free_frees_tree_witness :
  let h := [mk_bnode 2 [1; 2; 3; 4; 5]%Z (replicate 6 None);
            mk_bnode 1 [3; 0; 0; 0; 0]%Z [Some 0; Some 2; None; None; None; None];
            mk_bnode 2 [4; 5; 0; 0; 0]%Z (replicate 6 None)] in
  let t := mk_bt (Some 1) 0 in
  let tr := ANode 1 [3]%Z [ANode 0 [1; 2]%Z []; ANode 2 [4; 5]%Z []] in
  tree_ok h t (Some tr) /\ (forall a, a ∈ nodes_of (Some tr) -> a ∉ [7]) /\
  height_of (Some tr) <= 2 /\
  exists fr,
    bt_free 2 h [7] t = MOk ([7] ++ fr) /\
    fr ≡ₚ nodes_of (Some tr) /\ NoDup fr /\
    (forall tr0, Some tr = Some tr0 -> fr = postorder tr0).
Proof.
  intros h t tr.
  assert (H1 : tree_ok h t (Some tr)) by solve_tree_ok.
  assert (H2 : forall a, a ∈ nodes_of (Some tr) -> a ∉ [7]).
  { intros a Ha Hb. apply list_elem_of_singleton in Hb. subst a. revert Ha.
    apply (bool_decide_unpack _). vm_compute. exact I. }
  assert (H3 : height_of (Some tr) <= 2) by (simpl; lia).
  split; [exact H1|]. split; [exact H2|]. split; [exact H3|].
  exact (X1_free_frees_tree h t (Some tr) [7] 2 H1 H2 H3).
Defined.

(** X2.  After any sequence of [bt_insert] calls from [bt_mk] on an empty
    store, [bt_free] returns and frees every node that [calloc] handed out,
    each exactly once: no node is leaked and none is freed twice. *)
Theorem X2_build_then_free (calls : list (Z * option Z)) (fuel : nat)
    (h : list bnode) (t : bt) :
  Forall int_range calls.*1 -> 32 <= fuel -> bt_build fuel calls = Ok (h, t) ->
  exists fr, bt_free fuel h [] t = MOk fr /\ fr ≡ₚ seq 0 (length h) /\ NoDup fr.
Proof.
  intros Hr Hfuel Hrun.
  destruct (bt_build_packed calls fuel Hr Hfuel) as (h0 & t0 & ot & Hrun0 & Hb & Hp).
  rewrite Hrun in Hrun0. simplify_eq. unfold packed in Hp. unfold bt_free.
  pose proof Hb as (Hok & _).
  destruct ot as [tr|]; simpl in *.
  - destruct Hok as (Hroot & Hrep & Hnd & [d Hwf]). rewrite Hroot.
    pose proof (built_height _ _ _ _ _ Hb Hr eq_refl) as Hh.
    rewrite (wf_height _ _ _ _ Hwf) in Hh.
    rewrite (bt_node_free_spec tr 1 d h0 [] fuel Hwf Hrep Hnd); [|intros; apply not_elem_of_nil|lia].
    exists (postorder tr). split; [done|].
    split; [by rewrite postorder_perm|by rewrite postorder_perm].
  - rewrite Hok, bt_node_free_null. exists []. split; [done|].
    split; [done|constructor].
Qed.

Lemma X2_build_then_free_witness :
  let calls := [(10, None); (20, None); (5, None); (6, None); (12, None); (30, None);
                (7, None); (17, None)]%Z in
  exists h t,
    Forall int_range calls.*1 /\ 32 <= 32 /\
    bt_build 32 calls = Ok (h, t) /\
    exists fr, bt_free 32 h [] t = MOk fr /\ fr ≡ₚ seq 0 (length h) /\ NoDup fr.
Proof.
  intros calls.
  assert (H1 : Forall int_range calls.*1).
  { unfold calls. simpl. repeat constructor; unfold int_range; simpl; lia. }
  assert (H2 : 32 <= 32) by lia.
  eexists _, _.
  split; [exact H1|]. split; [exact H2|].
  assert (H3 : bt_build 32 calls = Ok (_, _)) by (vm_compute; reflexivity).
  split; [exact H3|].
  exact (X2_build_then_free calls 32 _ _ H1 H2 H3).
Defined.

(** X3.  [bt_free] takes the handle by value and cannot clear [root]: once
    it has returned on a tree that is not empty, a second [bt_free] on the
    same handle loads through a pointer to a freed node. *)
Theorem X3_free_twice (h : list bnode) (t : bt) (a : nat) (freed fr : list nat)
    (fuel fuel' : nat) :
  bt_root t = Some a -> 1 <= fuel' ->
  bt_free fuel h freed t = MOk fr ->
  bt_free fuel' h fr t = MErr UseAfterFree.
Proof.
  unfold bt_free. intros -> Hfuel Hrun.
  apply bt_node_free_again; [|done]. by eapply bt_node_free_frees.
Qed.

Lemma X3_free_twice_witness :
  let h := [mk_bnode 2 [5; 10; 0; 0; 0]%Z (replicate 6 None)] in
  let t := mk_bt (Some 0) 0 in
  bt_root t = Some 0 /\ 1 <= 1 /\ bt_free 1 h [] t = MOk [0] /\
  bt_free 1 h [0] t = MErr UseAfterFree.
Proof.
  intros h t.
  assert (H1 : bt_root t = Some 0) by reflexivity.
  assert (H2 : 1 <= 1) by lia.
  assert (H3 : bt_free 1 h [] t = MOk [0]) by reflexivity.
  split; [exact H1|]. split; [exact H2|]. split; [exact H3|].
  exact (X3_free_twice h t 0 [] [0] 1 1 H1 H2 H3).
Defined.

(** X4.  On a tree that satisfies the shape invariants, [bt_print]
    returns, and writes one line for every node, a node before its children
    and the children from left to right: two spaces for every level of
    depth, [elems:], and each of the node's [n] keys after a space.  For
    the empty tree it writes the indentation and [<empty>]. *)
Theorem X4_print_tree (h : list bnode) (t : bt) (tr : atree) (fuel : nat) (depth : Z) :
  tree_ok h t (Some tr) -> height tr <= fuel ->
  (depth + Z.of_nat (height tr) <= 2 ^ 31)%Z ->
  bt_print fuel h (bt_root t) depth = MOk (show depth tr) /\
  bt_print fuel h (bt_root bt_mk) depth = MOk (indent depth +:+ "<empty>" +:+ nl).
Proof.
  intros (Hroot & Hrep & Hnd & [d Hwf]) Hfuel Hdepth.
  rewrite (wf_height _ _ _ _ Hwf) in Hfuel, Hdepth.
  split; [|by destruct fuel].
  rewrite Hroot. by apply (bt_print_spec tr 1 d).
Qed.

Lemma X4_print_tree_witness :
  let h := [mk_bnode 2 [1; 2; 3; 4; 5]%Z (replicate 6 None);
            mk_bnode 1 [3; 0; 0; 0; 0]%Z [Some 0; Some 2; None; None; None; None];
            mk_bnode 2 [4; 5; 0; 0; 0]%Z (replicate 6 None)] in
  let t := mk_bt (Some 1) 0 in
  let tr := ANode 1 [3]%Z [ANode 0 [1; 2]%Z []; ANode 2 [4; 5]%Z []] in
  tree_ok h t (Some tr) /\ height tr <= 2 /\ (0 + Z.of_nat (height tr) <= 2 ^ 31)%Z /\
  bt_print 2 h (bt_root t) 0 = MOk (show 0 tr) /\
  bt_print 2 h (bt_root bt_mk) 0 = MOk (indent 0 +:+ "<empty>" +:+ nl).
Proof.
  intros h t tr.
  assert (H1 : tree_ok h t (Some tr)) by solve_tree_ok.
  assert (H2 : height tr <= 2) by (simpl; lia).
  assert (H3 : (0 + Z.of_nat (height tr) <= 2 ^ 31)%Z) by (vm_compute; discriminate).
  split; [exact H1|]. split; [exact H2|]. split; [exact H3|].
  exact (X4_print_tree h t tr 2 0 H1 H2 H3).
Defined.

(* ================================================================== *)
(** ** Further properties: insertion, lookup and the store *)
(* ================================================================== *)

(** X5.  On a tree that satisfies the invariants, [bt_insert] of [x]
    returns, and afterwards [bt_lookup] of [x] returns a pointer to an
    element equal to [x]; for every other key, [bt_lookup] finds it after
    the call exactly when it found it before. *)
Theorem X5_insert_then_lookup (h : list bnode) (t : bt) (ot : option atree)
    (x : Z) (prev : option Z) (fuel : nat) :
  tree_ok h t ot -> keys_ordered ot -> Forall int_range (keys_of ot) ->
  int_range x -> 32 <= fuel ->
  exists h' t' r prev',
    bt_insert fuel h t x prev = Ok (h', t', r, prev') /\
    (exists p, bt_lookup fuel h' t' x = Ok (Some p) /\ deref h' p = Ok x) /\
    (forall y, y <> x ->
       found (bt_lookup fuel h' t' y) = found (bt_lookup fuel h t y)).
Proof.
  intros Hok Hord Hr Hx Hfuel.
  pose proof (valid_built h t ot Hok Hord) as Hb.
  destruct (bt_insert_step _ h t ot x prev fuel Hb Hr Hfuel)
    as (h' & tr' & r & _ & Hrun & Hb' & _).
  set (t' := mk_bt (Some (addr tr')) (bt_size t)) in *.
  exists h', t', r, (prev_after r x prev). split; [done|].
  assert (Hr' : Forall int_range (keys_of ot ++ [x])).
  { apply Forall_app. split; [done|by constructor]. }
  pose proof Hb' as (Hok' & _ & Hkeys' & _).
  pose proof (built_ordered _ _ _ _ Hb') as Hord'.
  assert (Hh' : height_of (Some tr') <= fuel).
  { pose proof (built_height _ _ _ _ _ Hb' Hr' eq_refl). simpl. lia. }
  assert (Hh : height_of ot <= fuel).
  { destruct ot as [tr|]; simpl; [|lia].
    pose proof (built_height _ _ _ _ _ Hb Hr eq_refl). lia. }
  split.
  - destruct (bt_lookup_valid h' t' (Some tr') x fuel Hok' Hord' Hh')
      as [(_ & tr0 & p & _ & Hl & _ & Hd)|(Hnin & _)]; [by exists p|].
    exfalso. apply Hnin, Hkeys'. rewrite elem_of_app, list_elem_of_singleton. auto.
  - intros y Hy.
    pose proof (bt_lookup_found h' t' (Some tr') y fuel Hok' Hord' Hh') as H1.
    pose proof (bt_lookup_found h t ot y fuel Hok Hord Hh) as H2.
    assert (Hiff : y ∈ keys_of (Some tr') <-> y ∈ keys_of ot).
    { rewrite Hkeys', elem_of_app, list_elem_of_singleton. tauto. }
    destruct (found (bt_lookup fuel h' t' y)), (found (bt_lookup fuel h t y));
      try done; exfalso.
    + assert (true = true) as E by done. apply H1, Hiff, H2 in E. done.
    + assert (true = true) as E by done. apply H2, Hiff, H1 in E. done.
Qed.

Lemma X5_insert_then_lookup_witness :
  let h := [mk_bnode 2 [1; 2; 3; 4; 5]%Z (replicate 6 None);
            mk_bnode 1 [3; 0; 0; 0; 0]%Z [Some 0; Some 2; None; None; None; None];
            mk_bnode 2 [4; 5; 0; 0; 0]%Z (replicate 6 None)] in
  let t := mk_bt (Some 1) 0 in
  let tr := ANode 1 [3]%Z [ANode 0 [1; 2]%Z []; ANode 2 [4; 5]%Z []] in
  tree_ok h t (Some tr) /\ keys_ordered (Some tr) /\
  Forall int_range (keys_of (Some tr)) /\ int_range 7 /\ 32 <= 32 /\
  exists h' t' r prev',
    bt_insert 32 h t 7 None = Ok (h', t', r, prev') /\
    (exists p, bt_lookup 32 h' t' 7 = Ok (Some p) /\ deref h' p = Ok 7%Z) /\
    (forall y, y <> 7%Z ->
       found (bt_lookup 32 h' t' y) = found (bt_lookup 32 h t y)).
Proof.
  intros h t tr.
  assert (H1 : tree_ok h t (Some tr)) by solve_tree_ok.
  assert (H2 : keys_ordered (Some tr)).
  { apply (sorted_ordered 1 4 2); repeat constructor. }
  assert (H3 : Forall int_range (keys_of (Some tr))).
  { simpl. repeat constructor; unfold int_range; simpl; lia. }
  assert (H4 : int_range 7) by (unfold int_range; simpl; lia).
  assert (H5 : 32 <= 32) by lia.
  split; [exact H1|]. split; [exact H2|]. split; [exact H3|]. split; [exact H4|].
  split; [exact H5|].
  exact (X5_insert_then_lookup h t (Some tr) 7%Z None 32 H1 H2 H3 H4 H5).
Defined.

(** X6.  On a tree that satisfies the invariants, the flag [bt_insert]
    returns is true exactly when [bt_lookup] of the same key, made before the
    call, finds it. *)
Theorem X6_insert_flag_is_lookup (h h' : list bnode) (t t' : bt) (ot : option atree)
    (x : Z) (prev prev' : option Z) (r : bool) (fuel : nat) :
  tree_ok h t ot -> keys_ordered ot -> Forall int_range (keys_of ot) -> 32 <= fuel ->
  bt_insert fuel h t x prev = Ok (h', t', r, prev') ->
  r = found (bt_lookup fuel h t x).
Proof.
  intros Hok Hord Hr Hfuel Hins.
  pose proof (valid_built h t ot Hok Hord) as Hb.
  destruct (bt_insert_step _ h t ot x prev fuel Hb Hr Hfuel)
    as (h1 & tr1 & r1 & _ & Hrun & _ & Hrx & _).
  rewrite Hins in Hrun. simplify_eq.
  assert (Hh : height_of ot <= fuel).
  { destruct ot as [tr|]; simpl; [|lia].
    pose proof (built_height _ _ _ _ _ Hb Hr eq_refl). lia. }
  pose proof (bt_lookup_found h t ot x fuel Hok Hord Hh) as Hf.
  destruct r1, (found (bt_lookup fuel h t x)); try done.
  - assert (true = true) as E by done. apply Hrx, Hf in E. done.
  - assert (true = true) as E by done. apply Hf, Hrx in E. done.
Qed.

Lemma X6_insert_flag_is_lookup_witness :
  let h := [mk_bnode 2 [5; 10; 0; 0; 0]%Z (replicate 6 None)] in
  let t := mk_bt (Some 0) 0 in
  let tr := ANode 0 [5; 10]%Z [] in
  tree_ok h t (Some tr) /\ keys_ordered (Some tr) /\
  Forall int_range (keys_of (Some tr)) /\ 32 <= 32 /\
  bt_insert 32 h t 10 None = Ok (h, t, true, None) /\
  true = found (bt_lookup 32 h t 10).
Proof.
  intros h t tr.
  assert (H1 : tree_ok h t (Some tr)) by solve_tree_ok.
  assert (H2 : keys_ordered (Some tr)).
  { apply (sorted_ordered 1 4 1); repeat constructor. }
  assert (H3 : Forall int_range (keys_of (Some tr))).
  { simpl. repeat constructor; unfold int_range; simpl; lia. }
  assert (H4 : 32 <= 32) by lia.
  assert (H5 : bt_insert 32 h t 10 None = Ok (h, t, true, None)) by reflexivity.
  split; [exact H1|]. split; [exact H2|]. split; [exact H3|]. split; [exact H4|].
  split; [exact H5|].
  exact (X6_insert_flag_is_lookup h h t t (Some tr) 10%Z None None true 32
           H1 H2 H3 H4 H5).
Defined.

(** X7.  [bt_insert] writes only nodes of the tree it is given and nodes
    it allocates: every other node of the store holds afterwards what it
    held before, no address is lost, and a second tree in the same store
    that shares no node with the first still satisfies the invariants, with
    the same nodes and keys. *)
Theorem X7_insert_frame (h h' : list bnode) (t t' : bt) (ot : option atree)
    (x : Z) (prev prev' : option Z) (r : bool) (fuel : nat) :
  tree_ok h t ot -> keys_ordered ot -> Forall int_range (keys_of ot) -> 32 <= fuel ->
  bt_insert fuel h t x prev = Ok (h', t', r, prev') ->
  length h <= length h' /\
  (forall b, b < length h -> b ∉ nodes_of ot -> h' !! b = h !! b) /\
  (forall t2 ot2, tree_ok h t2 ot2 ->
     (forall a, a ∈ nodes_of ot2 -> a ∉ nodes_of ot) -> tree_ok h' t2 ot2).
Proof.
  intros Hok Hord Hr Hfuel Hins.
  pose proof (valid_built h t ot Hok Hord) as Hb.
  destruct (bt_insert_step _ h t ot x prev fuel Hb Hr Hfuel)
    as (h1 & tr1 & r1 & Hains & Hrun & _ & _ & _ & _ & Hframe).
  rewrite Hins in Hrun. simplify_eq.
  destruct (atree_insert_alloc x ot (length h) tr1 (length h1) r1) as (Hle & _); [|done|].
  { pose proof (built_shape _ _ _ _ Hb) as Hshape. destruct ot; [|done]. tauto. }
  split; [done|]. split; [done|].
  intros t2 ot2 Hok2 Hdis. destruct ot2 as [tr2|]; [|done].
  destruct Hok2 as (Hroot2 & Hrep2 & Hnd2 & Hwf2).
  split; [done|]. split; [|done].
  pose proof (rep_bound _ _ Hrep2) as Hbound. rewrite Forall_forall in Hbound.
  apply (rep_frame h); [done|]. intros b Hb2. apply Hframe; [by apply Hbound|].
  by apply Hdis.
Qed.

Lemma X7_insert_frame_witness :
  let h := [mk_bnode 2 [5; 10; 0; 0; 0]%Z (replicate 6 None);
            mk_bnode 1 [8; 0; 0; 0; 0]%Z (replicate 6 None)] in
  let t := mk_bt (Some 0) 0 in
  let tr := ANode 0 [5; 10]%Z [] in
  let h' := [mk_bnode 3 [5; 7; 10; 0; 0]%Z (replicate 6 None);
             mk_bnode 1 [8; 0; 0; 0; 0]%Z (replicate 6 None)] in
  tree_ok h t (Some tr) /\ keys_ordered (Some tr) /\
  Forall int_range (keys_of (Some tr)) /\ 32 <= 32 /\
  bt_insert 32 h t 7 None = Ok (h', t, false, None) /\
  length h <= length h' /\
  (forall b, b < length h -> b ∉ nodes_of (Some tr) -> h' !! b = h !! b) /\
  (forall t2 ot2, tree_ok h t2 ot2 ->
     (forall a, a ∈ nodes_of ot2 -> a ∉ nodes_of (Some tr)) -> tree_ok h' t2 ot2).
Proof.
  intros h t tr h'.
  assert (H1 : tree_ok h t (Some tr)) by solve_tree_ok.
  assert (H2 : keys_ordered (Some tr)).
  { apply (sorted_ordered 1 4 1); repeat constructor. }
  assert (H3 : Forall int_range (keys_of (Some tr))).
  { simpl. repeat constructor; unfold int_range; simpl; lia. }
  assert (H4 : 32 <= 32) by lia.
  assert (H5 : bt_insert 32 h t 7 None = Ok (h', t, false, None)) by reflexivity.
  split; [exact H1|]. split; [exact H2|]. split; [exact H3|]. split; [exact H4|].
  split; [exact H5|].
  exact (X7_insert_frame h h' t t (Some tr) 7%Z None None false 32 H1 H2 H3 H4 H5).
Defined.

(** X8.  On a tree that satisfies the invariants, [bt_insert] allocates at
    most one node more than the tree has levels, and every node it
    allocates is a node of the tree afterwards: the nodes of the tree after
    the call are those before it and the addresses [calloc] handed out. *)
Theorem X8_insert_allocation (h h' : list bnode) (t t' : bt) (ot : option atree)
    (x : Z) (prev prev' : option Z) (r : bool) (fuel : nat) :
  tree_ok h t ot -> keys_ordered ot -> Forall int_range (keys_of ot) -> 32 <= fuel ->
  bt_insert fuel h t x prev = Ok (h', t', r, prev') ->
  length h <= length h' <= length h + height_of ot + 1 /\
  exists tr',
    tree_ok h' t' (Some tr') /\
    footprint tr' ≡ₚ nodes_of ot ++ seq (length h) (length h' - length h).
Proof.
  intros Hok Hord Hr Hfuel Hins.
  pose proof (valid_built h t ot Hok Hord) as Hb.
  destruct (bt_insert_step _ h t ot x prev fuel Hb Hr Hfuel)
    as (h1 & tr1 & r1 & Hains & Hrun & Hb1 & _).
  rewrite Hins in Hrun. simplify_eq.
  destruct (atree_insert_alloc x ot (length h) tr1 (length h1) r1)
    as (Hle & Hbound & Hperm); [|done|].
  { pose proof (built_shape _ _ _ _ Hb) as Hshape. destruct ot; [|done]. tauto. }
  split; [lia|]. exists tr1. split; [|done]. by destruct Hb1.
Qed.

Lemma X8_insert_allocation_witness :
  let h := [mk_bnode 4 [1; 2; 3; 4; 0]%Z (replicate 6 None)] in
  let t := mk_bt (Some 0) 0 in
  let tr := ANode 0 [1; 2; 3; 4]%Z [] in
  exists h' t',
    tree_ok h t (Some tr) /\ keys_ordered (Some tr) /\
    Forall int_range (keys_of (Some tr)) /\ 32 <= 32 /\
    bt_insert 32 h t 5 None = Ok (h', t', false, None) /\
    length h <= length h' <= length h + height_of (Some tr) + 1 /\
    exists tr',
      tree_ok h' t' (Some tr') /\
      footprint tr' ≡ₚ nodes_of (Some tr) ++ seq (length h) (length h' - length h).
Proof.
  intros h t tr.
  assert (H1 : tree_ok h t (Some tr)) by solve_tree_ok.
  assert (H2 : keys_ordered (Some tr)).
  { apply (sorted_ordered 1 4 1); repeat constructor. }
  assert (H3 : Forall int_range (keys_of (Some tr))).
  { simpl. repeat constructor; unfold int_range; simpl; lia. }
  assert (H4 : 32 <= 32) by lia.
  eexists _, _.
  assert (H5 : bt_insert 32 h t 5 None = Ok (_, _, false, None))
    by (vm_compute; reflexivity).
  split; [exact H1|]. split; [exact H2|]. split; [exact H3|]. split; [exact H4|].
  split; [exact H5|].
  exact (X8_insert_allocation h _ t _ (Some tr) 5%Z None None false 32 H1 H2 H3 H4 H5).
Defined.

(** X9.  After any sequence of [bt_insert] calls from [bt_mk] on an empty
    store, the store holds no more nodes than distinct keys were inserted. *)
Theorem X9_nodes_le_keys (calls : list (Z * option Z)) (fuel : nat)
    (h : list bnode) (t : bt) :
  Forall int_range calls.*1 -> 32 <= fuel -> bt_build fuel calls = Ok (h, t) ->
  length h <= length (remove_dups calls.*1).
Proof.
  intros Hr Hfuel Hrun.
  destruct (bt_build_packed calls fuel Hr Hfuel) as (h0 & t0 & ot & Hrun0 & Hb & Hp).
  rewrite Hrun in Hrun0. simplify_eq. unfold packed in Hp.
  pose proof Hb as (Hok & Hs & Hkeys & _).
  assert (Hlen : length (keys_of ot) = length (remove_dups calls.*1)).
  { apply Permutation_length. apply NoDup_Permutation.
    - by apply sorted_NoDup.
    - apply NoDup_remove_dups.
    - intros y. rewrite elem_of_remove_dups. apply Hkeys. }
  rewrite <- Hlen. apply Permutation_length in Hp. rewrite length_seq in Hp.
  rewrite <- Hp. destruct ot as [tr|]; simpl in *; [|lia].
  destruct Hok as (_ & _ & _ & [d Hwf]). by apply (wf_nodes_keys tr 1 4 d).
Qed.

Lemma X9_nodes_le_keys_witness :
  let calls := [(10, None); (20, None); (5, None); (10, Some 0); (12, None); (30, None);
                (7, None); (17, None)]%Z in
  exists h t,
    Forall int_range calls.*1 /\ 32 <= 32 /\
    bt_build 32 calls = Ok (h, t) /\
    length h <= length (remove_dups calls.*1).
Proof.
  intros calls.
  assert (H1 : Forall int_range calls.*1).
  { unfold calls. simpl. repeat constructor; unfold int_range; simpl; lia. }
  assert (H2 : 32 <= 32) by lia.
  eexists _, _.
  split; [exact H1|]. split; [exact H2|].
  assert (H3 : bt_build 32 calls = Ok (_, _)) by (vm_compute; reflexivity).
  split; [exact H3|].
  exact (X9_nodes_le_keys calls 32 _ _ H1 H2 H3).
Defined.

(* ================================================================== *)
(** ** Further properties: the cost of a search *)
(* ================================================================== *)

(** X10.  On a tree that satisfies the invariants and holds [m] keys, the
    loop of [bt_lookup_node] visits at most [k] nodes whenever
    [m + 1 < 2 * 3 ^ k]: with that many visits allowed [bt_lookup] returns. *)
Theorem X10_lookup_logarithmic (h : list bnode) (t : bt) (ot : option atree)
    (x : Z) (k : nat) :
  tree_ok h t ot -> keys_ordered ot ->
  (Z.of_nat (length (keys_of ot)) + 1 < 2 * 3 ^ Z.of_nat k)%Z ->
  exists r, bt_lookup k h t x = Ok r /\
    (forall p, r = Some p -> deref h p = Ok x) /\
    (r = None -> x ∉ keys_of ot).
Proof.
  intros Hok Hord Hm.
  assert (Hh : height_of ot <= k).
  { destruct ot as [tr|]; simpl in *; [|lia].
    destruct Hok as (_ & _ & _ & [d Hwf]). rewrite (wf_height _ _ _ _ Hwf).
    by eapply wf_height_log. }
  destruct (bt_lookup_valid h t ot x k Hok Hord Hh)
    as [(Hin & tr & p & _ & Hl & _ & Hd)|(Hnin & Hl)]; rewrite Hl.
  - exists (Some p). split; [done|]. split; [by intros ? [= <-]|done].
  - exists None. split; [done|]. split; [done|by intros _].
Qed.

Lemma X10_lookup_logarithmic_witness :
  let h := [mk_bnode 2 [1; 2; 3; 4; 5]%Z (replicate 6 None);
            mk_bnode 1 [3; 0; 0; 0; 0]%Z [Some 0; Some 2; None; None; None; None];
            mk_bnode 2 [4; 5; 0; 0; 0]%Z (replicate 6 None)] in
  let t := mk_bt (Some 1) 0 in
  let tr := ANode 1 [3]%Z [ANode 0 [1; 2]%Z []; ANode 2 [4; 5]%Z []] in
  tree_ok h t (Some tr) /\ keys_ordered (Some tr) /\
  (Z.of_nat (length (keys_of (Some tr))) + 1 < 2 * 3 ^ Z.of_nat 2)%Z /\
  exists r, bt_lookup 2 h t 4 = Ok r /\
    (forall p, r = Some p -> deref h p = Ok 4%Z) /\
    (r = None -> 4%Z ∉ keys_of (Some tr)).
Proof.
  intros h t tr.
  assert (H1 : tree_ok h t (Some tr)) by solve_tree_ok.
  assert (H2 : keys_ordered (Some tr)).
  { apply (sorted_ordered 1 4 2); repeat constructor. }
  assert (H3 : (Z.of_nat (length (keys_of (Some tr))) + 1 < 2 * 3 ^ Z.of_nat 2)%Z)
    by (vm_compute; reflexivity).
  split; [exact H1|]. split; [exact H2|]. split; [exact H3|].
  exact (X10_lookup_logarithmic h t (Some tr) 4%Z 2 H1 H2 H3).
Defined.

(** X11.  A tree of C [int]s that satisfies the invariants has at most 20
    levels, however many keys it holds: a tree of height [d] holds at least
    [2 * 3 ^ (d - 1) - 1] keys, and there are [2 ^ 32] C [int]s. *)
Theorem X11_height_of_int_tree (h : list bnode) (t : bt) (tr : atree) :
  tree_ok h t (Some tr) -> keys_ordered (Some tr) ->
  Forall int_range (keys_of (Some tr)) ->
  height tr <= 20 /\
  (2 * 3 ^ (Z.of_nat (height tr) - 1) <= Z.of_nat (length (inorder tr)) + 1)%Z.
Proof.
  intros (_ & _ & _ & [d Hwf]) Hord Hr. simpl in *.
  rewrite (wf_height _ _ _ _ Hwf).
  pose proof (ordered_sorted _ _ _ _ Hwf Hord) as Hs.
  split; [by eapply wf_height_int|].
  pose proof (wf_count_root d tr Hwf). lia.
Qed.

Lemma X11_height_of_int_tree_witness :
  let h := [mk_bnode 2 [1; 2; 3; 4; 5]%Z (replicate 6 None);
            mk_bnode 1 [3; 0; 0; 0; 0]%Z [Some 0; Some 2; None; None; None; None];
            mk_bnode 2 [4; 5; 0; 0; 0]%Z (replicate 6 None)] in
  let t := mk_bt (Some 1) 0 in
  let tr := ANode 1 [3]%Z [ANode 0 [1; 2]%Z []; ANode 2 [4; 5]%Z []] in
  tree_ok h t (Some tr) /\ keys_ordered (Some tr) /\
  Forall int_range (keys_of (Some tr)) /\
  height tr <= 20 /\
  (2 * 3 ^ (Z.of_nat (height tr) - 1) <= Z.of_nat (length (inorder tr)) + 1)%Z.
Proof.
  intros h t tr.
  assert (H1 : tree_ok h t (Some tr)) by solve_tree_ok.
  assert (H2 : keys_ordered (Some tr)).
  { apply (sorted_ordered 1 4 2); repeat constructor. }
  assert (H3 : Forall int_range (keys_of (Some tr))).
  { simpl. repeat constructor; unfold int_range; simpl; lia. }
  split; [exact H1|]. split; [exact H2|]. split; [exact H3|].
  exact (X11_height_of_int_tree h t tr H1 H2 H3).
Defined.

(** X12.  On a node with [n >= 1] keys, whatever they are, the loop of
    [bt_node_bsearch] reads [elems] at most [log2 n + 1] times: at most 3
    times for the 5 slots of a node. *)
Theorem X12_bsearch_probes (nd : bnode) (x : Z) :
  1 <= bnode_n nd <= length (bnode_elems nd) ->
  length (bt_node_bsearch_reads nd x).1 <= Nat.log2 (bnode_n nd) + 1 /\
  (bnode_n nd <= 5 -> length (bt_node_bsearch_reads nd x).1 <= 3).
Proof.
  intros Hn. unfold bt_node_bsearch_reads.
  pose proof (bsearch_loop_probes (S (bnode_n nd)) (bnode_elems nd) x 0 (bnode_n nd)
                ltac:(lia) ltac:(lia) ltac:(lia)) as Hb.
  rewrite Nat.sub_0_r in Hb. split; [done|]. intros H5.
  assert (Nat.log2 (bnode_n nd) <= Nat.log2 5) by (by apply Nat.log2_le_mono).
  assert (Nat.log2 5 = 2) by reflexivity. lia.
Qed.

Lemma X12_bsearch_probes_witness :
  let nd := mk_bnode 4 [9; 2; 7; 4; 0]%Z (replicate 6 None) in
  1 <= bnode_n nd <= length (bnode_elems nd) /\
  length (bt_node_bsearch_reads nd 5).1 <= Nat.log2 (bnode_n nd) + 1 /\
  (bnode_n nd <= 5 -> length (bt_node_bsearch_reads nd 5).1 <= 3).
Proof.
  intros nd.
  assert (H1 : 1 <= bnode_n nd <= length (bnode_elems nd)) by (simpl; lia).
  split; [exact H1|].
  exact (X12_bsearch_probes nd 5%Z H1).
Defined.

(** X13.  On a node with [n >= 1] keys, whether or not they are in order,
    a result of [bt_node_bsearch] that is not negative is an index below [n]
    of an element equal to the key, and a negative result [- p - 1] has
    [p <= n]: the child index the callers compute from it is inside
    [children]. *)
Theorem X13_bsearch_sound (nd : bnode) (x : Z) :
  1 <= bnode_n nd <= length (bnode_elems nd) ->
  (exists i, bt_node_bsearch nd x = Ok (Z.of_nat i) /\
             i < bnode_n nd /\ bnode_elems nd !! i = Some x) \/
  (exists p, bt_node_bsearch nd x = Ok (- Z.of_nat p - 1)%Z /\ p <= bnode_n nd).
Proof.
  intros Hn. unfold bt_node_bsearch, bt_node_bsearch_reads.
  destruct (bsearch_loop_safe (S (bnode_n nd)) (bnode_elems nd) x 0 (bnode_n nd)
              ltac:(lia) ltac:(lia) ltac:(lia)) as [_ [(i & Hr & Hi & Hx)|(p & Hr & Hp)]].
  - left. exists i. split; [done|]. split; [lia|done].
  - right. exists p. split; [done|lia].
Qed.

Lemma X13_bsearch_sound_witness :
  let nd := mk_bnode 4 [9; 2; 7; 4; 0]%Z (replicate 6 None) in
  1 <= bnode_n nd <= length (bnode_elems nd) /\
  ((exists i, bt_node_bsearch nd 7 = Ok (Z.of_nat i) /\
              i < bnode_n nd /\ bnode_elems nd !! i = Some 7%Z) \/
   (exists p, bt_node_bsearch nd 7 = Ok (- Z.of_nat p - 1)%Z /\ p <= bnode_n nd)).
Proof.
  intros nd.
  assert (H1 : 1 <= bnode_n nd <= length (bnode_elems nd)) by (simpl; lia).
  split; [exact H1|].
  exact (X13_bsearch_sound nd 7%Z H1).
Defined.

(* ================================================================== *)
(** ** Further properties: the iterator and the out-parameter *)
(* ================================================================== *)

(** X14.  What the iterator yields depends on the keys that were inserted
    and not on the order of the [bt_insert] calls or on repetitions: two
    sequences of calls that insert the same keys give trees over which the
    iterator yields the same sequence. *)
Theorem X14_order_independent (calls1 calls2 : list (Z * option Z)) (fuel n : nat)
    (h1 h2 : list bnode) (t1 t2 : bt) :
  Forall int_range calls1.*1 -> Forall int_range calls2.*1 ->
  100 < fuel -> length calls1 < n -> length calls2 < n ->
  (forall y, y ∈ calls1.*1 <-> y ∈ calls2.*1) ->
  bt_build fuel calls1 = Ok (h1, t1) -> bt_build fuel calls2 = Ok (h2, t2) ->
  exists ys,
    bt_iter_collect n fuel h1 (bt_iter_dfs_mk t1) = Ok ys /\
    bt_iter_collect n fuel h2 (bt_iter_dfs_mk t2) = Ok ys.
Proof.
  intros Hr1 Hr2 Hfuel Hn1 Hn2 Hsame Hrun1 Hrun2.
  destruct (bt_build_inv calls1 fuel h1 t1 Hr1 ltac:(lia) Hrun1) as [ot1 Hb1].
  destruct (bt_build_inv calls2 fuel h2 t2 Hr2 ltac:(lia) Hrun2) as [ot2 Hb2].
  pose proof Hb1 as (_ & Hs1 & Hk1 & Hl1). pose proof Hb2 as (_ & Hs2 & Hk2 & Hl2).
  rewrite length_fmap in Hl1, Hl2.
  exists (keys_of ot1). split.
  - apply (iter_collect_built calls1.*1); try done. lia.
  - replace (keys_of ot1) with (keys_of ot2).
    + apply (iter_collect_built calls2.*1); try done. lia.
    + apply sorted_same_keys; [done..|]. intros y. rewrite Hk1, Hk2. symmetry. apply Hsame.
Qed.

Lemma X14_order_independent_witness :
  let calls1 := [(10, None); (20, None); (5, None); (6, None); (12, None); (30, None)]%Z in
  let calls2 := [(30, None); (6, None); (5, Some 1); (20, None); (10, None); (12, None);
                 (6, None)]%Z in
  exists h1 t1 h2 t2,
    Forall int_range calls1.*1 /\ Forall int_range calls2.*1 /\
    100 < 101 /\ length calls1 < 8 /\ length calls2 < 8 /\
    (forall y, y ∈ calls1.*1 <-> y ∈ calls2.*1) /\
    bt_build 101 calls1 = Ok (h1, t1) /\ bt_build 101 calls2 = Ok (h2, t2) /\
    exists ys,
      bt_iter_collect 8 101 h1 (bt_iter_dfs_mk t1) = Ok ys /\
      bt_iter_collect 8 101 h2 (bt_iter_dfs_mk t2) = Ok ys.
Proof.
  intros calls1 calls2.
  assert (H1 : Forall int_range calls1.*1).
  { unfold calls1. simpl. repeat constructor; unfold int_range; simpl; lia. }
  assert (H2 : Forall int_range calls2.*1).
  { unfold calls2. simpl. repeat constructor; unfold int_range; simpl; lia. }
  assert (H3 : 100 < 101) by lia.
  assert (H4 : length calls1 < 8) by (simpl; lia).
  assert (H5 : length calls2 < 8) by (simpl; lia).
  assert (H6 : forall y, y ∈ calls1.*1 <-> y ∈ calls2.*1).
  { intros y. unfold calls1, calls2. simpl.
    rewrite !elem_of_cons, !elem_of_nil. tauto. }
  eexists _, _, _, _.
  assert (H7 : bt_build 101 calls1 = Ok (_, _)) by (vm_compute; reflexivity).
  assert (H8 : bt_build 101 calls2 = Ok (_, _)) by (vm_compute; reflexivity).
  split; [exact H1|]. split; [exact H2|]. split; [exact H3|]. split; [exact H4|].
  split; [exact H5|]. split; [exact H6|]. split; [exact H7|]. split; [exact H8|].
  exact (X14_order_independent calls1 calls2 101 8 _ _ _ _ H1 H2 H3 H4 H5 H6 H7 H8).
Defined.

(** X15.  On a tree that satisfies the invariants, [bt_lookup_node] called
    with an out-parameter finds what [bt_lookup] finds and leaves in [*node]:
    the node that holds the element, when there is one; when there is none,
    the leaf at which the descent ended, which is the leaf reached from the
    root by taking at every node the child whose index is the number of keys
    of the node less than the key; and what [*node] held before, when the
    tree is empty. *)
Theorem X15_lookup_node_out (h : list bnode) (t : bt) (ot : option atree) (x : Z)
    (fuel : nat) (n0 : option nat) :
  tree_ok h t ot -> keys_ordered ot -> height_of ot <= fuel ->
  exists res out,
    bt_lookup_node fuel h t x (Some n0) = Ok (res, Some out) /\
    bt_lookup fuel h t x = Ok res /\
    match res, ot with
    | Some p, _ => x ∈ keys_of ot /\ out = Some p.1 /\ deref h p = Ok x
    | None, None => out = n0
    | None, Some tr =>
        (x ∉ inorder tr) /\ out = Some (search_leaf x tr) /\
        search_leaf x tr ∈ footprint tr /\
        exists nd, h !! search_leaf x tr = Some nd /\
          bnode_children nd = replicate 6 None
    end.
Proof.
  intros Hok Hord Hfuel.
  pose proof (bt_lookup_valid h t ot x fuel Hok Hord Hfuel) as Hv.
  unfold bt_lookup, bt_lookup_node in *.
  destruct ot as [tr|]; simpl in Hok, Hord, Hfuel.
  2:{ rewrite Hok. exists None, n0. by destruct fuel. }
  destruct Hok as (Hroot & Hrep & Hnd & [d Hwf]). rewrite Hroot in *.
  pose proof (ordered_sorted _ _ _ _ Hwf Hord) as Hs.
  rewrite (wf_height _ _ _ _ Hwf) in Hfuel.
  pose proof (lookup_loop_node_spec tr 1 d h x fuel n0 ltac:(lia) Hwf Hrep Hs Hfuel) as Hl.
  destruct (lookup_loop fuel h (Some (addr tr)) x (Some n0)) as [[res out]|] eqn:Hrun;
    [|by destruct Hl].
  rewrite (lookup_loop_out _ _ _ _ _ _ _ Hrun) in *. cbn [mbind res_bind fst] in *.
  destruct res as [p|].
  - subst out. exists (Some p), (Some p.1). split; [done|]. split; [done|].
    destruct Hv as [(Hin & tr0 & q & _ & Hq & _ & Hd)|(_ & ?)]; [|done].
    simplify_eq. done.
  - destruct Hl as (Hnin & -> & Ha & nd & Hnd' & Hleaf).
    exists None, (Some (search_leaf x tr)). split; [done|]. split; [done|].
    split; [done|]. split; [done|]. split; [done|]. by exists nd.
Qed.

Lemma X15_lookup_node_out_witness :
  let h := [mk_bnode 2 [1; 2; 3; 4; 5]%Z (replicate 6 None);
            mk_bnode 1 [3; 0; 0; 0; 0]%Z [Some 0; Some 2; None; None; None; None];
            mk_bnode 2 [4; 5; 0; 0; 0]%Z (replicate 6 None)] in
  let t := mk_bt (Some 1) 0 in
  let tr := ANode 1 [3]%Z [ANode 0 [1; 2]%Z []; ANode 2 [4; 5]%Z []] in
  tree_ok h t (Some tr) /\ keys_ordered (Some tr) /\ height_of (Some tr) <= 2 /\
  search_leaf 8 tr = 2 /\
  bt_lookup_node 2 h t 8 (Some None) = Ok (None, Some (Some 2)) /\
  exists res out,
    bt_lookup_node 2 h t 8 (Some None) = Ok (res, Some out) /\
    bt_lookup 2 h t 8 = Ok res /\
    match res, Some tr with
    | Some p, _ => 8%Z ∈ keys_of (Some tr) /\ out = Some p.1 /\ deref h p = Ok 8%Z
    | None, None => out = None
    | None, Some tr =>
        (8%Z ∉ inorder tr) /\ out = Some (search_leaf 8 tr) /\
        search_leaf 8 tr ∈ footprint tr /\
        exists nd, h !! search_leaf 8 tr = Some nd /\
          bnode_children nd = replicate 6 None
    end.
Proof.
  intros h t tr.
  assert (H1 : tree_ok h t (Some tr)) by solve_tree_ok.
  assert (H2 : keys_ordered (Some tr)).
  { apply (sorted_ordered 1 4 2); repeat constructor. }
  assert (H3 : height_of (Some tr) <= 2) by (simpl; lia).
  split; [exact H1|]. split; [exact H2|]. split; [exact H3|].
  split; [reflexivity|]. split; [reflexivity|].
  exact (X15_lookup_node_out h t (Some tr) 8%Z 2 None H1 H2 H3).
Defined.

(** X16.  On a tree that satisfies the invariants and holds the keys [K]
    in increasing order, the first [k] calls of [bt_iter_dfs_next] return
    pointers to the [k] smallest keys, in increasing order, and the iterator
    can go on from there: the calls that follow yield the rest of [K]. *)
Theorem X16_iterator_prefix (h : list bnode) (t : bt) (ot : option atree)
    (fuel k n : nat) :
  tree_ok h t ot -> keys_ordered ot -> Forall int_range (keys_of ot) ->
  100 < fuel -> k <= length (keys_of ot) -> length (keys_of ot) < n + k ->
  exists iter' ps,
    bt_iter_nexts k fuel h (bt_iter_dfs_mk t) = Ok (iter', Some <$> ps) /\
    Forall2 (fun p v => deref h p = Ok v) ps (take k (keys_of ot)) /\
    bt_iter_collect n fuel h iter' = Ok (drop k (keys_of ot)).
Proof.
  intros Hok Hord Hr Hfuel Hk Hn.
  by apply (iter_prefix_built (keys_of ot)); [apply valid_built|..].
Qed.

Lemma X16_iterator_prefix_witness :
  let h := [mk_bnode 2 [1; 2; 3; 4; 5]%Z (replicate 6 None);
            mk_bnode 1 [3; 0; 0; 0; 0]%Z [Some 0; Some 2; None; None; None; None];
            mk_bnode 2 [4; 5; 0; 0; 0]%Z (replicate 6 None)] in
  let t := mk_bt (Some 1) 0 in
  let tr := ANode 1 [3]%Z [ANode 0 [1; 2]%Z []; ANode 2 [4; 5]%Z []] in
  tree_ok h t (Some tr) /\ keys_ordered (Some tr) /\
  Forall int_range (keys_of (Some tr)) /\
  100 < 101 /\ 3 <= length (keys_of (Some tr)) /\ length (keys_of (Some tr)) < 3 + 3 /\
  exists iter' ps,
    bt_iter_nexts 3 101 h (bt_iter_dfs_mk t) = Ok (iter', Some <$> ps) /\
    Forall2 (fun p v => deref h p = Ok v) ps (take 3 (keys_of (Some tr))) /\
    bt_iter_collect 3 101 h iter' = Ok (drop 3 (keys_of (Some tr))).
Proof.
  intros h t tr.
  assert (H1 : tree_ok h t (Some tr)) by solve_tree_ok.
  assert (H2 : keys_ordered (Some tr)).
  { apply (sorted_ordered 1 4 2); repeat constructor. }
  assert (H3 : Forall int_range (keys_of (Some tr))).
  { simpl. repeat constructor; unfold int_range; simpl; lia. }
  assert (H4 : 100 < 101) by lia.
  assert (H5 : 3 <= length (keys_of (Some tr))) by (simpl; lia).
  assert (H6 : length (keys_of (Some tr)) < 3 + 3) by (simpl; lia).
  split; [exact H1|]. split; [exact H2|]. split; [exact H3|]. split; [exact H4|].
  split; [exact H5|]. split; [exact H6|].
  exact (X16_iterator_prefix h t (Some tr) 101 3 3 H1 H2 H3 H4 H5 H6).
Defined.

(* ================================================================== *)
(** ** Further properties: what [bt_split_node] needs *)
(* ================================================================== *)

(** X17.  [bt_split_node] needs room in the parent and a child to split:
    when [idx] is above [parent->n], where the count of the [memmove] wraps,
    or when the parent already holds 5 keys, the [memmove] leaves the
    [children] array; and when [children[idx]] is NULL the [memcpy] reads
    through NULL. *)
Theorem X17_split_needs (h : list bnode) (parent idx : nat) (pn : bnode) :
  h !! parent = Some pn -> length (bnode_children pn) = 6 -> idx < 6 ->
  (bnode_n pn < idx \/ 5 <= bnode_n pn ->
     bt_split_node h parent idx = Err OutOfBounds) /\
  (idx <= bnode_n pn -> bnode_n pn <= 4 -> bnode_children pn !! idx = Some None ->
     bt_split_node h parent idx = Err NullDeref).
Proof.
  intros Hp Hlen Hidx. split.
  - by apply bt_split_node_room.
  - intros. by eapply bt_split_node_null.
Qed.

Lemma X17_split_needs_witness :
  let h := [mk_bnode 2 [5; 10; 0; 0; 0]%Z (replicate 6 None)] in
  h !! 0 = Some (mk_bnode 2 [5; 10; 0; 0; 0]%Z (replicate 6 None)) /\
  length (bnode_children (mk_bnode 2 [5; 10; 0; 0; 0]%Z (replicate 6 None))) = 6 /\
  1 < 6 /\
  bt_split_node h 0 3 = Err OutOfBounds /\ bt_split_node h 0 1 = Err NullDeref.
Proof.
  intros h.
  set (pn := mk_bnode 2 [5; 10; 0; 0; 0]%Z (replicate 6 None)).
  assert (H1 : h !! 0 = Some pn) by reflexivity.
  assert (H2 : length (bnode_children pn) = 6) by reflexivity.
  assert (H3 : 1 < 6) by lia.
  assert (H3' : 3 < 6) by lia.
  split; [exact H1|]. split; [exact H2|]. split; [exact H3|].
  split.
  - apply (proj1 (X17_split_needs h 0 3 pn H1 H2 H3')). left. simpl. lia.
  - apply (proj2 (X17_split_needs h 0 1 pn H1 H2 H3)); [simpl; lia|simpl; lia|reflexivity].
Defined.

(* ================================================================== *)
(** ** Further properties: the operations together *)
(* ================================================================== *)

(** X18.  On a tree that satisfies the invariants, the iterator and
    [bt_lookup] agree: a key is among the elements the iterator yields
    exactly when [bt_lookup] finds it. *)
Theorem X18_iterator_agrees_with_lookup (h : list bnode) (t : bt) (ot : option atree)
    (fuel n : nat) :
  tree_ok h t ot -> keys_ordered ot -> Forall int_range (keys_of ot) ->
  100 < fuel -> length (keys_of ot) < n ->
  exists ys,
    bt_iter_collect n fuel h (bt_iter_dfs_mk t) = Ok ys /\
    forall x, x ∈ ys <-> found (bt_lookup fuel h t x) = true.
Proof.
  intros Hok Hord Hr Hfuel Hn.
  pose proof (valid_built h t ot Hok Hord) as Hb.
  exists (keys_of ot). split; [by apply (iter_collect_built (keys_of ot))|].
  intros x. symmetry. apply bt_lookup_found; [done..|].
  destruct ot as [tr|]; simpl; [|lia].
  pose proof (built_height _ _ _ _ _ Hb Hr eq_refl). lia.
Qed.

Lemma X18_iterator_agrees_with_lookup_witness :
  let h := [mk_bnode 2 [1; 2; 3; 4; 5]%Z (replicate 6 None);
            mk_bnode 1 [3; 0; 0; 0; 0]%Z [Some 0; Some 2; None; None; None; None];
            mk_bnode 2 [4; 5; 0; 0; 0]%Z (replicate 6 None)] in
  let t := mk_bt (Some 1) 0 in
  let tr := ANode 1 [3]%Z [ANode 0 [1; 2]%Z []; ANode 2 [4; 5]%Z []] in
  tree_ok h t (Some tr) /\ keys_ordered (Some tr) /\
  Forall int_range (keys_of (Some tr)) /\
  100 < 101 /\ length (keys_of (Some tr)) < 6 /\
  exists ys,
    bt_iter_collect 6 101 h (bt_iter_dfs_mk t) = Ok ys /\
    forall x, x ∈ ys <-> found (bt_lookup 101 h t x) = true.
Proof.
  intros h t tr.
  assert (H1 : tree_ok h t (Some tr)) by solve_tree_ok.
  assert (H2 : keys_ordered (Some tr)).
  { apply (sorted_ordered 1 4 2); repeat constructor. }
  assert (H3 : Forall int_range (keys_of (Some tr))).
  { simpl. repeat constructor; unfold int_range; simpl; lia. }
  assert (H4 : 100 < 101) by lia.
  assert (H5 : length (keys_of (Some tr)) < 6) by (simpl; lia).
  split; [exact H1|]. split; [exact H2|]. split; [exact H3|]. split; [exact H4|].
  split; [exact H5|].
  exact (X18_iterator_agrees_with_lookup h t (Some tr) 101 6 H1 H2 H3 H4 H5).
Defined.

(** X19.  On a tree that satisfies the invariants and over which the
    iterator yields [K], [bt_insert] of [x] returns, and over the tree
    afterwards the iterator yields [K] itself when the call returned true,
    and otherwise [K] with [x] put at the place that keeps it increasing:
    every key that was stored is still stored, in the same order. *)
Theorem X19_insert_then_iterate (h : list bnode) (t : bt) (ot : option atree)
    (x : Z) (prev : option Z) (fuel n : nat) :
  tree_ok h t ot -> keys_ordered ot -> Forall int_range (keys_of ot) ->
  int_range x -> 100 < fuel -> S (length (keys_of ot)) < n ->
  exists h' t' r prev' ys,
    bt_insert fuel h t x prev = Ok (h', t', r, prev') /\
    bt_iter_collect n fuel h (bt_iter_dfs_mk t) = Ok (keys_of ot) /\
    bt_iter_collect n fuel h' (bt_iter_dfs_mk t') = Ok ys /\
    (if r then ys = keys_of ot else ins_rel x (keys_of ot) ys).
Proof.
  intros Hok Hord Hr Hx Hfuel Hn.
  pose proof (valid_built h t ot Hok Hord) as Hb.
  destruct (bt_insert_step _ h t ot x prev fuel Hb Hr ltac:(lia))
    as (h' & tr' & r & _ & Hrun & Hb' & _ & Hsame & Hrel & _).
  set (t' := mk_bt (Some (addr tr')) (bt_size t)) in *.
  assert (Hr' : Forall int_range (keys_of ot ++ [x])).
  { apply Forall_app. split; [done|by constructor]. }
  exists h', t', r, (prev_after r x prev), (inorder tr').
  split; [done|]. split; [apply (iter_collect_built (keys_of ot)); try done; lia|].
  assert (Hlen : length (inorder tr') <= S (length (keys_of ot))).
  { destruct Hb' as (_ & _ & _ & Hl). simpl in Hl. rewrite length_app in Hl.
    simpl in Hl. lia. }
  split.
  - apply (iter_collect_built (keys_of ot ++ [x]) h' t' (Some tr')); try done.
    simpl. lia.
  - destruct r; [|by apply Hrel].
    destruct (Hsame eq_refl) as (_ & _ & ->). done.
Qed.

Lemma X19_insert_then_iterate_witness :
  let h := [mk_bnode 2 [1; 2; 3; 4; 5]%Z (replicate 6 None);
            mk_bnode 1 [3; 0; 0; 0; 0]%Z [Some 0; Some 2; None; None; None; None];
            mk_bnode 2 [4; 5; 0; 0; 0]%Z (replicate 6 None)] in
  let t := mk_bt (Some 1) 0 in
  let tr := ANode 1 [3]%Z [ANode 0 [1; 2]%Z []; ANode 2 [4; 5]%Z []] in
  tree_ok h t (Some tr) /\ keys_ordered (Some tr) /\
  Forall int_range (keys_of (Some tr)) /\ int_range 0 /\
  100 < 101 /\ S (length (keys_of (Some tr))) < 8 /\
  exists h' t' r prev' ys,
    bt_insert 101 h t 0 None = Ok (h', t', r, prev') /\
    bt_iter_collect 8 101 h (bt_iter_dfs_mk t) = Ok (keys_of (Some tr)) /\
    bt_iter_collect 8 101 h' (bt_iter_dfs_mk t') = Ok ys /\
    (if r then ys = keys_of (Some tr) else ins_rel 0 (keys_of (Some tr)) ys).
Proof.
  intros h t tr.
  assert (H1 : tree_ok h t (Some tr)) by solve_tree_ok.
  assert (H2 : keys_ordered (Some tr)).
  { apply (sorted_ordered 1 4 2); repeat constructor. }
  assert (H3 : Forall int_range (keys_of (Some tr))).
  { simpl. repeat constructor; unfold int_range; simpl; lia. }
  assert (H4 : int_range 0) by (unfold int_range; simpl; lia).
  assert (H5 : 100 < 101) by lia.
  assert (H6 : S (length (keys_of (Some tr))) < 8) by (simpl; lia).
  split; [exact H1|]. split; [exact H2|]. split; [exact H3|]. split; [exact H4|].
  split; [exact H5|]. split; [exact H6|].
  exact (X19_insert_then_iterate h t (Some tr) 0%Z None 101 8 H1 H2 H3 H4 H5 H6).
Defined.

(** X20.  On a tree that satisfies the invariants, [bt_insert] never
    lowers the height and raises it by at most one level, and only by
    putting a new root above the old one: when [bt->root] is the same
    pointer after the call, the height is the same. *)
Theorem X20_insert_height (h h' : list bnode) (t t' : bt) (ot : option atree)
    (x : Z) (prev prev' : option Z) (r : bool) (fuel : nat) :
  tree_ok h t ot -> keys_ordered ot -> Forall int_range (keys_of ot) -> 32 <= fuel ->
  bt_insert fuel h t x prev = Ok (h', t', r, prev') ->
  exists tr',
    tree_ok h' t' (Some tr') /\
    height_of ot <= height tr' <= height_of ot + 1 /\
    (bt_root t' = bt_root t -> height tr' = height_of ot).
Proof.
  intros Hok Hord Hr Hfuel Hins.
  pose proof (valid_built h t ot Hok Hord) as Hb.
  destruct (bt_insert_step _ h t ot x prev fuel Hb Hr Hfuel)
    as (h1 & tr1 & r1 & Hains & Hrun & Hb1 & _).
  rewrite Hins in Hrun. simplify_eq.
  destruct (atree_insert_height x ot (length h) tr1 (length h1) r1 (built_shape _ _ _ _ Hb)
              Hains) as (Hh & Hsame).
  exists tr1. split; [by destruct Hb1|]. split; [done|].
  simpl. intros Hroot. apply Hsame. rewrite Hroot.
  destruct ot as [tr|]; simpl in *; [by destruct Hok as (-> & _)|done].
Qed.

Lemma X20_insert_height_witness :
  let h := [mk_bnode 4 [1; 2; 3; 4; 0]%Z (replicate 6 None)] in
  let t := mk_bt (Some 0) 0 in
  let tr := ANode 0 [1; 2; 3; 4]%Z [] in
  exists h' t',
    tree_ok h t (Some tr) /\ keys_ordered (Some tr) /\
    Forall int_range (keys_of (Some tr)) /\ 32 <= 32 /\
    bt_insert 32 h t 5 None = Ok (h', t', false, None) /\
    exists tr',
      tree_ok h' t' (Some tr') /\
      height_of (Some tr) <= height tr' <= height_of (Some tr) + 1 /\
      (bt_root t' = bt_root t -> height tr' = height_of (Some tr)).
Proof.
  intros h t tr.
  assert (H1 : tree_ok h t (Some tr)) by solve_tree_ok.
  assert (H2 : keys_ordered (Some tr)).
  { apply (sorted_ordered 1 4 1); repeat constructor. }
  assert (H3 : Forall int_range (keys_of (Some tr))).
  { simpl. repeat constructor; unfold int_range; simpl; lia. }
  assert (H4 : 32 <= 32) by lia.
  eexists _, _.
  assert (H5 : bt_insert 32 h t 5 None = Ok (_, _, false, None))
    by (vm_compute; reflexivity).
  split; [exact H1|]. split; [exact H2|]. split; [exact H3|]. split; [exact H4|].
  split; [exact H5|].
  exact (X20_insert_height h _ t _ (Some tr) 5%Z None None false 32 H1 H2 H3 H4 H5).
Defined.
